(** * Trade-Moon: signal intake and order execution core

    A shallow embedding of [signal_handler.py], [webhook_receiver.py],
    [email_reader.py] and the trading functions of [bot_logic.py].

    - Python values are the inductive type [pyval]; a [dict] is an
      association list in insertion order.
    - Python numbers stay abstract (class [PyNumber]): the code only adds,
      multiplies, compares with zero and converts with [float()], and no
      theorem below relies on an algebraic law of floating point.
    - A [str] is held as its UTF-8 bytes, so that equality, [in],
      [startswith] and the removal of an ASCII character are those of the
      bytes. What [str.lower], [str.strip] and [float(str)] do depends on
      the tables of Unicode: they are the class [PyText], which fixes
      them on ASCII text, where they are written out.
    - The exchange clients (ccxt), the IMAP connection and the text
      utilities of the standard library are the environment: class
      [Environment] gives each call a result (a value or an exception) and
      a new state of the outside world.
    - Every call to the environment and every log line is an event of the
      trace a computation produces, oldest event first. *)

From Stdlib Require Import String Ascii List ZArith NArith QArith Bool Lia.
Import ListNotations.
Local Open Scope string_scope.
Local Open Scope Z_scope.
Set Warnings "-register-all".

(** ** Numbers *)

(** What [float(str)] recognises, before rounding to a double:
    an infinity, a NaN, or a decimal [digits * 10 ^ exp10]. *)
Inductive float_lit : Type :=
  | LInf (negative : bool)
  | LNan (negative : bool)
  | LDec (negative : bool) (digits : N) (exp10 : Z).

Class PyNumber (num : Type) : Type := {
  nzero : num;                       (* 0 and 0.0 *)
  nbool : bool -> num;               (* True is 1, False is 0 *)
  nadd : num -> num -> num;          (* x + y *)
  nmul : num -> num -> num;          (* x * y *)
  ngt0 : num -> bool;                (* x > 0 *)
  nnonzero : num -> bool;            (* bool(x) *)
  neqb : num -> num -> bool;         (* x == y *)
  nfloat : num -> option num;        (* float(x); None is OverflowError *)
  nliteral : float_lit -> num;       (* the double denoted by a literal *)
  nfinite : num -> bool;             (* math.isfinite(x) *)
  ngt0_zero : ngt0 nzero = false;
  nfinite_inf : forall s, nfinite (nliteral (LInf s)) = false;
  nfinite_nan : forall s, nfinite (nliteral (LNan s)) = false
}.

(** ** Exceptions *)

Inductive exn : Type :=
  | AttributeError
  | TypeError
  | KeyError
  | ValueError
  | JSONDecodeError
  | OverflowError
  | OtherError (message : string).   (* ccxt, imaplib, codecs, ... *)

(** [except ValueError] also catches the subclass [json.JSONDecodeError]. *)
Definition is_ValueError (e : exn) : bool :=
  match e with
  | ValueError | JSONDecodeError => true
  | _ => false
  end.

Definition is_JSONDecodeError (e : exn) : bool :=
  match e with
  | JSONDecodeError => true
  | _ => false
  end.

(** ** Text *)

Module Text.

Definition is_upper (c : ascii) : bool :=
  let n := nat_of_ascii c in (Nat.leb 65 n && Nat.leb n 90)%bool.

Definition lower_char (c : ascii) : ascii :=
  if is_upper c then ascii_of_nat (nat_of_ascii c + 32) else c.

(** A text of ASCII characters only: every byte is below 128. *)
Fixpoint is_ascii (s : string) : bool :=
  match s with
  | EmptyString => true
  | String c r => (Nat.ltb (nat_of_ascii c) 128 && is_ascii r)%bool
  end.

(** [str.lower()] of an ASCII text. *)
Fixpoint ascii_lower (s : string) : string :=
  match s with
  | EmptyString => EmptyString
  | String c r => String (lower_char c) (ascii_lower r)
  end.

(** [str.isspace] in the ASCII range: tab, LF, VT, FF, CR, FS, GS, RS, US,
    space. *)
Definition is_space (c : ascii) : bool :=
  let n := nat_of_ascii c in
  ((Nat.leb 9 n && Nat.leb n 13) || (Nat.leb 28 n && Nat.leb n 32))%bool.

(** The whitespace that [float()] skips around an ASCII text: tab, LF, VT,
    FF, CR, space. *)
Definition is_c_space (c : ascii) : bool :=
  let n := nat_of_ascii c in
  ((Nat.leb 9 n && Nat.leb n 13) || Nat.eqb n 32)%bool.

Definition is_digit (c : ascii) : bool :=
  let n := nat_of_ascii c in (Nat.leb 48 n && Nat.leb n 57)%bool.

Fixpoint lstrip (space : ascii -> bool) (s : string) : string :=
  match s with
  | String c r => if space c then lstrip space r else s
  | EmptyString => EmptyString
  end.

Fixpoint rstrip (space : ascii -> bool) (s : string) : string :=
  match s with
  | EmptyString => EmptyString
  | String c r =>
      match rstrip space r with
      | EmptyString => if space c then EmptyString else String c EmptyString
      | r' => String c r'
      end
  end.

(** [str.strip()] of an ASCII text. *)
Definition ascii_strip (s : string) : string :=
  rstrip is_space (lstrip is_space s).

(** [s.startswith(p)] together with the rest of [s] after [p]. *)
Fixpoint strip_prefix (p s : string) : option string :=
  match p, s with
  | EmptyString, _ => Some s
  | String a p', String b s' =>
      if Ascii.eqb a b then strip_prefix p' s' else None
  | String _ _, EmptyString => None
  end.

Definition startswith (s p : string) : bool :=
  match strip_prefix p s with Some _ => true | None => false end.

(** [p in s] for two strings. *)
Fixpoint contains (s p : string) : bool :=
  if startswith s p then true
  else match s with
       | EmptyString => false
       | String _ r => contains r p
       end.

(** [s.replace(c, '')] for a one-character [c]. *)
Fixpoint remove_char (c : ascii) (s : string) : string :=
  match s with
  | EmptyString => EmptyString
  | String a r =>
      if Ascii.eqb a c then remove_char c r else String a (remove_char c r)
  end.

End Text.

(** ** [float(str)] on ASCII text *)

Module FloatSyntax.

Import Text.

(** Underscores may only stand between two digits; they are removed before
    the number is read. [prev] is the character before [s]. *)
Fixpoint drop_underscores (prev : option ascii) (s : string) : option string :=
  let prev_digit := match prev with Some p => is_digit p | None => false end in
  let prev_under := match prev with Some p => Ascii.eqb p "_" | None => false end in
  match s with
  | EmptyString => if prev_under then None else Some EmptyString
  | String c r =>
      if Ascii.eqb c "_" then
        if prev_digit then drop_underscores (Some c) r else None
      else if (prev_under && negb (is_digit c))%bool then None
      else option_map (String c) (drop_underscores (Some c) r)
  end.

(** The longest run of digits at the head of [s]: its value, its length and
    the rest. *)
Fixpoint digits_from (acc : N) (len : nat) (s : string) : N * nat * string :=
  match s with
  | String c r =>
      if is_digit c
      then digits_from (acc * 10 + N.of_nat (nat_of_ascii c - 48))%N (S len) r
      else (acc, len, s)
  | EmptyString => (acc, len, s)
  end.

Definition read_sign (s : string) : bool * string :=
  match s with
  | String "-" r => (true, r)
  | String "+" r => (false, r)
  | _ => (false, s)
  end.

(** The exponent part: [e] or [E], an optional sign and at least one digit,
    up to the end of the text. A missing exponent is 0. *)
Definition read_exponent (s : string) : option Z :=
  match s with
  | EmptyString => Some 0
  | String c r =>
      if (Ascii.eqb c "e" || Ascii.eqb c "E")%bool then
        let '(neg, r1) := read_sign r in
        match digits_from 0 0 r1 with
        | (_, O, _) => None
        | (v, S _, EmptyString) => Some (if neg then - Z.of_N v else Z.of_N v)
        | (_, S _, String _ _) => None
        end
      else None
  end.

(** [digits [. digits] [exponent]] or [. digits [exponent]]. *)
Definition read_decimal (neg : bool) (s : string) : option float_lit :=
  let '(ip, ilen, r1) := digits_from 0 0 s in
  let '(m, flen, r2) :=
    match r1 with
    | String "." r => let '(v, n, r') := digits_from ip 0 r in (v, n, r')
    | _ => (ip, O, r1)
    end in
  match (ilen + flen)%nat with
  | O => None
  | S _ =>
      match read_exponent r2 with
      | Some e => Some (LDec neg m (e - Z.of_nat flen))
      | None => None
      end
  end.

Definition read_number (s : string) : option float_lit :=
  let '(neg, r) := read_sign s in
  let w := ascii_lower r in
  if String.eqb w "inf" then Some (LInf neg)
  else if String.eqb w "infinity" then Some (LInf neg)
  else if String.eqb w "nan" then Some (LNan neg)
  else read_decimal neg r.

(** The ASCII text accepted by [float(s)], or [None] for [ValueError]. *)
Definition parse_ascii (s : string) : option float_lit :=
  match rstrip is_c_space (lstrip is_c_space s) with
  | EmptyString => None
  | t =>
      match drop_underscores None t with
      | Some u => read_number u
      | None => None
      end
  end.

End FloatSyntax.

(** ** Text in general

    The three functions of [str] that the code uses and that look at the
    characters outside ASCII: [str.lower] follows the case mappings of
    Unicode, [str.strip] removes every Unicode whitespace, and [float]
    also reads Unicode decimal digits and skips Unicode whitespace. On a
    text of ASCII characters they are the functions written out above. *)
Class PyText : Type := {
  str_lower : string -> string;                 (* s.lower() *)
  str_strip : string -> string;                 (* s.strip() *)
  float_text : string -> option float_lit;      (* float(s); None is ValueError *)
  str_lower_ascii :
    forall s, Text.is_ascii s = true -> str_lower s = Text.ascii_lower s;
  str_strip_ascii :
    forall s, Text.is_ascii s = true -> str_strip s = Text.ascii_strip s;
  float_text_ascii :
    forall s, Text.is_ascii s = true -> float_text s = FloatSyntax.parse_ascii s
}.

(** ** Python values *)

Section Values.

Context {num : Type}.

Inductive pyval : Type :=
  | PNone
  | PBool (b : bool)
  | PNum (x : num)
  | PStr (s : string)
  | PList (items : list pyval)
  | PDict (entries : list (string * pyval)).

(** A [dict] with string keys, in insertion order. *)
Definition dict (V : Type) : Type := list (string * V).

Fixpoint dict_get {V : Type} (k : string) (d : dict V) : option V :=
  match d with
  | [] => None
  | (k', v) :: r => if String.eqb k' k then Some v else dict_get k r
  end.

(** [d.get(k, default)] *)
Definition dict_get_default {V : Type} (k : string) (d : dict V) (default : V) : V :=
  match dict_get k d with
  | Some v => v
  | None => default
  end.

(** [k in d] *)
Definition dict_mem {V : Type} (k : string) (d : dict V) : bool :=
  match dict_get k d with
  | Some _ => true
  | None => false
  end.

(** [d[k] = v]: an existing key keeps its place, a new key goes last. *)
Fixpoint dict_set {V : Type} (k : string) (v : V) (d : dict V) : dict V :=
  match d with
  | [] => [(k, v)]
  | (k', v') :: r =>
      if String.eqb k' k then (k', v) :: r else (k', v') :: dict_set k v r
  end.

Definition keys {V : Type} (d : dict V) : list string := map fst d.

Definition record : Type := dict pyval.

Context {PN : PyNumber num} {PT : PyText}.

(** [a == s] for a string [s]: only an equal string is equal to it. *)
Definition py_eq_str (a : pyval) (s : string) : bool :=
  match a with
  | PStr t => String.eqb t s
  | _ => false
  end.

(** [a == b] *)
Fixpoint py_eq (a b : pyval) {struct a} : bool :=
  match a, b with
  | PNone, PNone => true
  | PBool x, PBool y => Bool.eqb x y
  | PBool x, PNum y => neqb (nbool x) y
  | PNum x, PBool y => neqb x (nbool y)
  | PNum x, PNum y => neqb x y
  | PStr s, PStr t => String.eqb s t
  | PList l1, PList l2 =>
      (fix all2 (l1 l2 : list pyval) : bool :=
         match l1, l2 with
         | [], [] => true
         | x :: r1, y :: r2 => (py_eq x y && all2 r1 r2)%bool
         | _, _ => false
         end) l1 l2
  | PDict d1, PDict d2 =>
      (Nat.eqb (length d1) (length d2) &&
       (fix sub (d : list (string * pyval)) : bool :=
          match d with
          | [] => true
          | (k, v) :: r =>
              (match dict_get k d2 with
               | Some w => py_eq v w
               | None => false
               end && sub r)%bool
          end) d1)%bool
  | _, _ => false
  end.

(** [v is None] *)
Definition is_none (v : pyval) : bool :=
  match v with
  | PNone => true
  | _ => false
  end.

(** [bool(v)] *)
Definition truthy (v : pyval) : bool :=
  match v with
  | PNone => false
  | PBool b => b
  | PNum x => nnonzero x
  | PStr s => negb (String.eqb s EmptyString)
  | PList l => match l with [] => false | _ => true end
  | PDict d => match d with [] => false | _ => true end
  end.

(** [key in data] *)
Definition py_contains (data : pyval) (key : string) : exn + bool :=
  match data with
  | PDict d => inr (dict_mem key d)
  | PList l => inr (existsb (fun v => py_eq_str v key) l)
  | PStr s => inr (Text.contains s key)
  | PNone | PBool _ | PNum _ => inl TypeError
  end.

(** [data[key]] for a string [key] *)
Definition py_getitem (data : pyval) (key : string) : exn + pyval :=
  match data with
  | PDict d =>
      match dict_get key d with
      | Some v => inr v
      | None => inl KeyError
      end
  | _ => inl TypeError
  end.

(** [data.get(key, default)] *)
Definition py_get (data : pyval) (key : string) (default : pyval) : exn + pyval :=
  match data with
  | PDict d => inr (dict_get_default key d default)
  | _ => inl AttributeError
  end.

(** [v.lower()] *)
Definition py_lower (v : pyval) : exn + string :=
  match v with
  | PStr s => inr (str_lower s)
  | _ => inl AttributeError
  end.

(** [float(v)] *)
Definition py_float (v : pyval) : exn + num :=
  match v with
  | PStr s =>
      match float_text s with
      | Some l => inr (nliteral l)
      | None => inl ValueError
      end
  | PNum x =>
      match nfloat x with
      | Some y => inr y
      | None => inl OverflowError
      end
  | PBool b => inr (nbool b)
  | PNone | PList _ | PDict _ => inl TypeError
  end.

(** [v > 0] *)
Definition py_gt0 (v : pyval) : exn + bool :=
  match v with
  | PNum x => inr (ngt0 x)
  | PBool b => inr b
  | PNone | PStr _ | PList _ | PDict _ => inl TypeError
  end.

(** A value that takes part in arithmetic as a number. *)
Definition as_number (v : pyval) : option num :=
  match v with
  | PNum x => Some x
  | PBool b => Some (nbool b)
  | PNone | PStr _ | PList _ | PDict _ => None
  end.

(** [acc += v] for a number [acc] *)
Definition py_add (acc : num) (v : pyval) : exn + num :=
  match as_number v with
  | Some x => inr (nadd acc x)
  | None => inl TypeError
  end.

(** [acc += a * b] for a number [acc]. With an operand that is not a
    number the statement raises [TypeError], in the product or (a repeated
    sequence) in the sum. *)
Definition py_add_product (acc : num) (a b : pyval) : exn + num :=
  match as_number a, as_number b with
  | Some x, Some y => inr (nadd acc (nmul x y))
  | _, _ => inl TypeError
  end.

End Values.

Arguments pyval : clear implicits.
Arguments record : clear implicits.

(** ** The environment, the trace and the state *)

Section Runtime.

Context {num : Type}.

Inductive log_msg : Type :=
  (* bot_logic.py *)
  | LogPositionsRequest
  | LogNoExchanges
  | LogPositionsError (exchange : string) (e : exn)
  | LogPositionsData
  | LogClosing (exchange : string) (symbol : pyval num)
  | LogExchangeUnavailable (exchange : string)
  | LogPositionClosed (order : pyval num)
  | LogNoOpenPosition (symbol : pyval num)
  | LogCloseError (e : exn)
  | LogClosingAll
  | LogAllClosed
  | LogSummaryStart
  | LogSummaryNoExchanges
  | LogSummaryError (exchange : string) (e : exn)
  | LogSummaryDone
  (* signal_handler.py *)
  | LogMissingField (field : string)
  | LogInvalidQuantity
  | LogInvalidSide (side : string)
  | LogMissingPrice
  | LogInvalidPrice
  | LogExchangeNotConfigured (exchange : string)
  | LogPlacingOrder (exchange : string) (data : pyval num)
  | LogUnsupportedOrderType (order_type : string)
  | LogOrderPlaced (order : pyval num)
  | LogSignalError (e : exn)
  (* webhook_receiver.py *)
  | LogEmptyJson
  | LogInvalidPin
  | LogWebhookData (data : pyval num)
  | LogMalformedJson
  | LogWebhookError (e : exn)
  (* email_reader.py *)
  | LogCheckingSubject (subject : string)
  | LogSubjectNotJson
  | LogImapConnecting
  | LogImapConnected
  | LogSearchFailed
  | LogFound (count : nat)
  | LogProcessingSignal (data : pyval num)
  | LogInvalidEmailPin (pin : pyval num)
  | LogNonTradingMail
  | LogMailError (e_id : string) (e : exn)
  | LogImapDone
  | LogInboxError (e : exn).

Inductive event : Type :=
  | EFetchPositions (exchange : string)
  | EFetchBalance (exchange : string)
  | ECreateMarketOrder (exchange : string) (symbol : pyval num)
      (side : string) (amount : pyval num)
  | ECreateOrder (exchange : string) (symbol : pyval num)
      (order_type side : string) (amount : num) (price : option num)
  | EImapConnect
  | EImapSearch
  | EImapFetch (e_id : string)
  | EImapStore (e_id : string)
  | EImapLogout
  | ELog (m : log_msg).

(** Every call returns a value or raises, and may change the world. *)
Definition reply (World A : Type) : Type := World -> (exn + A) * World.

Class Environment (World : Type) : Type := {
  (* ccxt: one client per exchange name *)
  fetch_positions : string -> reply World (list (record num));
  fetch_balance : string -> reply World (pyval num);
  create_market_order :
    string -> pyval num -> string -> pyval num -> reply World (pyval num);
  create_order :
    string -> pyval num -> string -> string -> num -> option num ->
    reply World (pyval num);
  (* imaplib: connect, login and select; search UNSEEN; fetch with PEEK,
     giving the status and the subject as check_inbox decodes it (or the
     exception the decoding raises); set the Seen flag; logout *)
  imap_connect : reply World unit;
  imap_search : reply World (bool * list string);
  imap_fetch : string -> reply World (bool * (exn + string));
  imap_store : string -> reply World unit;
  imap_logout : reply World unit;
  (* html.unescape, re.sub for the zero-width characters, json.loads *)
  html_unescape : string -> string;
  remove_zero_width : string -> string;
  json_loads : string -> exn + pyval num;
  (* repr of a number or a container, as an f-string prints it *)
  py_repr : pyval num -> string
}.

Context {World : Type} {ENV : Environment World}.

(** What the intake adapters read from the configuration:
    [config.WEBHOOK_PIN] and the keys of [signal_handler.exchanges], in
    insertion order. The functions of [bot_logic.py] take the keys of
    [bot_logic.exchanges] as their first argument. *)
Record config : Type := {
  webhook_pin : string;
  signal_exchanges : list string
}.

Definition configured (name : string) (exchanges : list string) : bool :=
  existsb (String.eqb name) exchanges.

(** *** A monad for state, exceptions and the trace

    A computation starts in a world and gives a value or an exception, the
    world it leaves and the events it produced, oldest first. A raised
    exception keeps the world and the events reached so far. *)
Definition outcome (A : Type) : Type := ((exn + A) * World * list event)%type.

Definition M (A : Type) : Type := World -> outcome A.

Definition value_of {A : Type} (o : outcome A) : exn + A := fst (fst o).
Definition world_of {A : Type} (o : outcome A) : World := snd (fst o).
Definition events_of {A : Type} (o : outcome A) : list event := snd o.

(** [o], with the events [t] before its own. *)
Definition after {A : Type} (t : list event) (o : outcome A) : outcome A :=
  (value_of o, world_of o, (t ++ events_of o)%list).

Definition ret {A : Type} (a : A) : M A := fun w => (inr a, w, []).

Definition bind {A B : Type} (c : M A) (k : A -> M B) : M B :=
  fun w =>
    match c w with
    | (inr a, w', t) => after t (k a w')
    | (inl e, w', t) => (inl e, w', t)
    end.

Definition raise {A : Type} (e : exn) : M A := fun w => (inl e, w, []).

Definition lift {A : Type} (r : exn + A) : M A := fun w => (r, w, []).

(** [try: c  except Exception as e: h e] *)
Definition try_except {A : Type} (c : M A) (h : exn -> M A) : M A :=
  fun w =>
    match c w with
    | (inr a, w', t) => (inr a, w', t)
    | (inl e, w', t) => after t (h e w')
    end.

(** The outcome of [c] as a value. *)
Definition attempt {A : Type} (c : M A) : M (exn + A) :=
  fun w => let '(r, w', t) := c w in (inr r, w', t).

Definition emit (ev : event) : M unit := fun w => (inr tt, w, [ev]).

Definition log (m : log_msg) : M unit := emit (ELog m).

(** A call to the environment, recorded when it is made. *)
Definition call {A : Type} (ev : event) (op : reply World A) : M A :=
  fun w => let '(r, w') := op w in (r, w', [ev]).

End Runtime.

Arguments log_msg : clear implicits.
Arguments event : clear implicits.
Arguments Environment : clear implicits.
Arguments outcome : clear implicits.
Arguments M : clear implicits.

Declare Scope py_scope.
Delimit Scope py_scope with py.
Notation "x <- c ;; k" := (bind c (fun x => k))
  (at level 100, c at next level, right associativity) : py_scope.
Notation "c ;; k" := (bind c (fun _ => k))
  (at level 100, right associativity) : py_scope.
Local Open Scope py_scope.

Section Loops.

Context {num World : Type}.

(** [for x in l: b = f b x] *)
Fixpoint foldM {A B : Type} (f : B -> A -> M num World B) (l : list A) (b : B)
  : M num World B :=
  match l with
  | [] => ret b
  | x :: r => b' <- f b x ;; foldM f r b'
  end.

(** [for x in l: f x] *)
Definition forM {A : Type} (f : A -> M num World unit) (l : list A)
  : M num World unit :=
  foldM (fun _ x => f x) l tt.

End Loops.

(** ** bot_logic.py *)

Section BotLogic.

Context {num : Type} {PN : PyNumber num} {PT : PyText}.
Context {World : Type} {ENV : Environment num World}.

Local Abbreviation M := (M num World).
Local Abbreviation pyval := (pyval num).
Local Abbreviation record := (record num).

(** The dictionary appended for an open position (lines 124-135). *)
Definition normalize (exchange_name : string) (pos : record) : record :=
  [ ("symbol", dict_get_default "symbol" pos (PStr "N/A"));
    ("side", dict_get_default "side" pos (PStr "N/A"));
    ("contracts", dict_get_default "contracts" pos (PNum nzero));
    ("notional", dict_get_default "notional" pos (PNum nzero));
    ("entry_price", dict_get_default "entryPrice" pos (PNum nzero));
    ("liquidation_price", dict_get_default "liquidationPrice" pos PNone);
    ("margin_ratio", dict_get_default "marginRatio" pos PNone);
    ("leverage", dict_get_default "leverage" pos PNone);
    ("unrealized_pnl", dict_get_default "unrealizedPnl" pos (PNum nzero));
    ("exchange", PStr exchange_name) ].

(** The loop of lines 121-135 over what [fetch_positions] returned: the
    list built so far, and the exception that stopped the loop, if any. *)
Fixpoint collect_open (exchange_name : string) (all_positions : list record)
    (found : list record) : list record * option exn :=
  match all_positions with
  | [] => (found, None)
  | pos :: rest =>
      match py_gt0 (dict_get_default "contracts" pos (PNum nzero)) with
      | inl e => (found, Some e)
      | inr true =>
          collect_open exchange_name rest (found ++ [normalize exchange_name pos])
      | inr false => collect_open exchange_name rest found
      end
  end.

(** One turn of the loop of line 117. The [try] covers the fetch and the
    inner loop; what was appended before an exception stays. *)
Definition get_positions_for (positions_data : dict (list record))
    (exchange_name : string) : M (dict (list record)) :=
  let positions_data := dict_set exchange_name [] positions_data in
  r <- attempt (call (EFetchPositions exchange_name)
                     (fetch_positions exchange_name)) ;;
  match r with
  | inl e => log (LogPositionsError exchange_name e) ;; ret positions_data
  | inr all_positions =>
      let '(found, stopped) := collect_open exchange_name all_positions [] in
      let positions_data := dict_set exchange_name found positions_data in
      match stopped with
      | Some e => log (LogPositionsError exchange_name e) ;; ret positions_data
      | None => ret positions_data
      end
  end.

Definition get_positions (exchanges : list string) : M (dict (list record)) :=
  log LogPositionsRequest ;;
  match exchanges with
  | [] => log LogNoExchanges ;; ret []
  | _ :: _ =>
      positions_data <- foldM get_positions_for exchanges [] ;;
      log LogPositionsData ;;
      ret positions_data
  end.

(** The result dictionaries [{"status": ..., ...}]. *)
Inductive error_message : Type :=
  | ExchangeNotFound (exchange_name : string)
  | NoOpenPosition
  | ExceptionText (e : exn).

Inductive result : Type :=
  | Success (order : pyval)
  | Error (message : error_message).

(** The side of the order that closes a position (line 258). *)
Definition closing_side (side : pyval) : string :=
  if (py_eq_str side "buy" || py_eq_str side "long")%bool then "sell" else "buy".

(** The loop of lines 255-264. *)
Fixpoint close_first (exchange_name : string) (symbol : pyval)
    (positions : list record) : M result :=
  match positions with
  | [] => log (LogNoOpenPosition symbol) ;; ret (Error NoOpenPosition)
  | pos :: rest =>
      pos_symbol <- lift (py_getitem (PDict pos) "symbol") ;;
      if py_eq pos_symbol symbol then
        pos_side <- lift (py_getitem (PDict pos) "side") ;;
        let side := closing_side pos_side in
        contracts <- lift (py_getitem (PDict pos) "contracts") ;;
        order <- call (ECreateMarketOrder exchange_name symbol side contracts)
                      (create_market_order exchange_name symbol side contracts) ;;
        log (LogPositionClosed order) ;;
        ret (Success order)
      else close_first exchange_name symbol rest
  end.

Definition close_position (exchanges : list string) (exchange_name : string)
    (symbol : pyval) : M result :=
  log (LogClosing exchange_name symbol) ;;
  if negb (configured exchange_name exchanges) then
    log (LogExchangeUnavailable exchange_name) ;;
    ret (Error (ExchangeNotFound exchange_name))
  else
    try_except
      (positions_data <- get_positions exchanges ;;
       let positions := dict_get_default exchange_name positions_data [] in
       close_first exchange_name symbol positions)
      (fun e => log (LogCloseError e) ;; ret (Error (ExceptionText e))).

(** [str(v)], as an f-string formats [v]. *)
Definition py_str (v : pyval) : string :=
  match v with
  | PStr s => s
  | PNone => "None"
  | PBool true => "True"
  | PBool false => "False"
  | PNum _ | PList _ | PDict _ => py_repr v
  end.

(** The key [f"{exchange_name}_{pos['symbol']}"] of line 289. *)
Definition result_key (exchange_name : string) (symbol : pyval) : string :=
  exchange_name ++ "_" ++ py_str symbol.

(** Lines 286-289 for one position. *)
Definition close_one (exchanges : list string) (exchange_name : string)
    (results : dict result) (pos : record) : M (dict result) :=
  symbol <- lift (py_getitem (PDict pos) "symbol") ;;
  res <- close_position exchanges exchange_name symbol ;;
  symbol' <- lift (py_getitem (PDict pos) "symbol") ;;
  ret (dict_set (result_key exchange_name symbol') res results).

Definition close_all_positions (exchanges : list string) : M (dict result) :=
  log LogClosingAll ;;
  all_positions <- get_positions exchanges ;;
  results <-
    foldM (fun results '(exchange_name, positions) =>
             foldM (close_one exchanges exchange_name) positions results)
          all_positions [] ;;
  log LogAllClosed ;;
  ret results.

Record summary : Type := {
  portfolio_value : num;
  total_pnl : num;
  margin_used : num
}.

Definition summary_zero : summary :=
  {| portfolio_value := nzero; total_pnl := nzero; margin_used := nzero |}.

(** The loop of lines 371-376: the totals reached, and the exception that
    stopped the loop, if any. *)
Fixpoint sum_positions (stats : summary) (positions : list record)
  : summary * option exn :=
  match positions with
  | [] => (stats, None)
  | pos :: rest =>
      match py_add (total_pnl stats)
                   (dict_get_default "unrealized_pnl" pos (PNum nzero)) with
      | inl e => (stats, Some e)
      | inr pnl =>
          let stats := {| portfolio_value := portfolio_value stats;
                          total_pnl := pnl;
                          margin_used := margin_used stats |} in
          let margin_ratio := dict_get_default "marginRatio" pos PNone in
          if is_none margin_ratio then sum_positions stats rest
          else
            match py_add_product (margin_used stats)
                    (dict_get_default "notional" pos (PNum nzero))
                    margin_ratio with
            | inl e => (stats, Some e)
            | inr m =>
                sum_positions {| portfolio_value := portfolio_value stats;
                                 total_pnl := total_pnl stats;
                                 margin_used := m |} rest
            end
      end
  end.

(** [account_balance.get('USDT', {}).get('total', 0.0)] added to the
    portfolio value (line 368). *)
Definition add_balance (stats : summary) (account_balance : pyval)
  : exn + summary :=
  match py_get account_balance "USDT" (PDict []) with
  | inl e => inl e
  | inr usdt =>
      match py_get usdt "total" (PNum nzero) with
      | inl e => inl e
      | inr total =>
          match py_add (portfolio_value stats) total with
          | inl e => inl e
          | inr v => inr {| portfolio_value := v;
                            total_pnl := total_pnl stats;
                            margin_used := margin_used stats |}
          end
      end
  end.

(** Lines 365-376 for one exchange: the totals reached, and the exception
    that stopped the statements, if any. *)
Definition account_totals (positions : list record) (stats : summary)
    (account_balance : pyval) : summary * option exn :=
  match add_balance stats account_balance with
  | inl e => (stats, Some e)
  | inr stats => sum_positions stats positions
  end.

(** One turn of the loop of line 361. The totals are updated in place, so
    what was added before an exception stays. *)
Definition summary_for (all_positions : dict (list record)) (stats : summary)
    (exchange_name : string) : M summary :=
  r <- attempt (call (EFetchBalance exchange_name)
                     (fetch_balance exchange_name)) ;;
  match r with
  | inl e => log (LogSummaryError exchange_name e) ;; ret stats
  | inr account_balance =>
      let positions := dict_get_default exchange_name all_positions [] in
      let '(stats, stopped) := account_totals positions stats account_balance in
      match stopped with
      | Some e => log (LogSummaryError exchange_name e) ;; ret stats
      | None => ret stats
      end
  end.

Definition calculate_summary_stats (exchanges : list string) : M summary :=
  log LogSummaryStart ;;
  match exchanges with
  | [] => log LogSummaryNoExchanges ;; ret summary_zero
  | _ :: _ =>
      all_positions <- get_positions exchanges ;;
      summary_stats <- foldM (summary_for all_positions) exchanges summary_zero ;;
      log LogSummaryDone ;;
      ret summary_stats
  end.

End BotLogic.

(** ** signal_handler.py *)

Section SignalHandler.

Context {num : Type} {PN : PyNumber num} {PT : PyText}.
Context {World : Type} {ENV : Environment num World}.

Local Abbreviation M := (M num World).
Local Abbreviation pyval := (pyval num).

Definition required_fields : list string :=
  ["EXCHANGE"; "SYMBOL"; "SIDE"; "ORDER_TYPE"; "QUANTITY"].

(** The loop of lines 80-83: the first required field that is not in
    [data]. *)
Fixpoint first_missing (data : pyval) (fields : list string)
  : exn + option string :=
  match fields with
  | [] => inr None
  | field :: rest =>
      match py_contains data field with
      | inl e => inl e
      | inr false => inr (Some field)
      | inr true => first_missing data rest
      end
  end.

(** [try: x = float(data[key])  except ValueError: log; return]
    (lines 91-95 and 107-111). [None] stands for the early return. *)
Definition float_field (data : pyval) (key : string) (complaint : log_msg num)
  : M (option num) :=
  try_except
    (v <- lift (py_getitem data key) ;;
     x <- lift (py_float v) ;;
     ret (Some x))
    (fun e => if is_ValueError e then log complaint ;; ret None else raise e).

(** Lines 102-111: the price of a limit order. The outer [None] stands for
    the early return, the inner one for an order that has no price. *)
Definition read_price (data : pyval) (order_type : string)
  : M (option (option num)) :=
  if String.eqb order_type "limit" then
    present <- lift (py_contains data "PRICE") ;;
    if negb present then log LogMissingPrice ;; ret None
    else
      p <- float_field data "PRICE" LogInvalidPrice ;;
      match p with
      | Some price => ret (Some (Some price))
      | None => ret None
      end
  else ret (Some None).

(** Lines 114-128. *)
Definition place_order (exchanges : list string) (data : pyval)
    (exchange_name : string) (symbol : pyval) (side order_type : string)
    (quantity : num) (price : option num) : M unit :=
  if negb (configured exchange_name exchanges) then
    log (LogExchangeNotConfigured exchange_name)
  else
    log (LogPlacingOrder exchange_name data) ;;
    if String.eqb order_type "limit" then
      match price with
      | Some p =>
          order <- call (ECreateOrder exchange_name symbol order_type side
                                      quantity (Some p))
                        (create_order exchange_name symbol order_type side
                                      quantity (Some p)) ;;
          log (LogOrderPlaced order)
      | None => raise (OtherError "UnboundLocalError")
      end
    else if String.eqb order_type "market" then
      order <- call (ECreateOrder exchange_name symbol order_type side
                                  quantity None)
                    (create_order exchange_name symbol order_type side
                                  quantity None) ;;
      log (LogOrderPlaced order)
    else log (LogUnsupportedOrderType order_type).

(** Lines 97-128: the checks that follow the quantity, and the order. *)
Definition validate_and_place (exchanges : list string) (data : pyval)
    (exchange_name : string) (symbol : pyval) (side order_type : string)
    (quantity : num) : M unit :=
  if negb (String.eqb side "buy" || String.eqb side "sell") then
    log (LogInvalidSide side)
  else
    p <- read_price data order_type ;;
    match p with
    | None => ret tt
    | Some price =>
        place_order exchanges data exchange_name symbol side order_type
                    quantity price
    end.

Definition process_signal (exchanges : list string) (data : pyval) : M unit :=
  try_except
    (missing <- lift (first_missing data required_fields) ;;
     match missing with
     | Some field => log (LogMissingField field)
     | None =>
         v <- lift (py_getitem data "EXCHANGE") ;;
         exchange_name <- lift (py_lower v) ;;
         symbol <- lift (py_getitem data "SYMBOL") ;;
         v <- lift (py_getitem data "SIDE") ;;
         side <- lift (py_lower v) ;;
         v <- lift (py_getitem data "ORDER_TYPE") ;;
         order_type <- lift (py_lower v) ;;
         q <- float_field data "QUANTITY" LogInvalidQuantity ;;
         match q with
         | None => ret tt
         | Some quantity =>
             validate_and_place exchanges data exchange_name symbol side
                                order_type quantity
         end
     end)
    (fun e => log (LogSignalError e)).

End SignalHandler.

(** ** webhook_receiver.py *)

Section Webhook.

Context {num : Type} {PN : PyNumber num} {PT : PyText}.
Context {World : Type} {ENV : Environment num World}.

Local Abbreviation M := (M num World).
Local Abbreviation pyval := (pyval num).

Inductive response_body : Type :=
  | StatusOk                       (* {"status": "ok"} *)
  | ErrorNoJson                    (* {"error": "No JSON data"} *)
  | ErrorInvalidPin                (* {"error": "Invalid pin"} *)
  | ErrorMalformedJson             (* {"error": "Malformed JSON"} *)
  | ErrorException (e : exn).      (* {"error": str(e)} *)

Definition response : Type := (response_body * nat)%type.

(** [trade_signal]; [request_json] is what evaluating [request.json]
    gives: the decoded body ([PNone] for JSON null) or an exception. *)
Definition trade_signal (cfg : config) (request_json : exn + pyval)
  : M response :=
  try_except
    (data <- lift request_json ;;
     if is_none data then
       log LogEmptyJson ;; ret (ErrorNoJson, 400%nat)
     else
       incoming_pin <- lift (py_get data "PIN" (PStr EmptyString)) ;;
       if (negb (String.eqb (webhook_pin cfg) EmptyString)
           && negb (py_eq_str incoming_pin (webhook_pin cfg)))%bool then
         log LogInvalidPin ;; ret (ErrorInvalidPin, 403%nat)
       else
         log (LogWebhookData data) ;;
         process_signal (signal_exchanges cfg) data ;;
         ret (StatusOk, 200%nat))
    (fun e =>
       if is_JSONDecodeError e then
         log LogMalformedJson ;; ret (ErrorMalformedJson, 400%nat)
       else
         log (LogWebhookError e) ;; ret (ErrorException e, 500%nat)).

End Webhook.

(** ** email_reader.py *)

Section EmailReader.

Context {num : Type} {PN : PyNumber num} {PT : PyText}.
Context {World : Type} {ENV : Environment num World}.

Local Abbreviation M := (M num World).
Local Abbreviation pyval := (pyval num).

Definition LF : ascii := ascii_of_nat 10.
Definition CR : ascii := ascii_of_nat 13.

(** Lines 65-72: the text handed to [json.loads], from what follows the
    marker in the subject. *)
Definition json_part (rest : string) : string :=
  let json_part := str_strip rest in
  let json_part := html_unescape json_part in
  let json_part := remove_zero_width json_part in
  Text.remove_char CR (Text.remove_char LF json_part).

(** [parse_email_subject]; [subject] is the Subject header of the
    message. The result [PNone] is Python's [None]. *)
Definition parse_email_subject (subject : string) : M pyval :=
  let subject := str_strip subject in
  log (LogCheckingSubject subject) ;;
  match Text.strip_prefix "Alert:" subject with
  | Some rest =>
      try_except
        (lift (json_loads (json_part rest)))
        (fun e =>
           if is_JSONDecodeError e then log LogSubjectNotJson ;; ret PNone
           else raise e)
  | None => ret PNone
  end.

(** Lines 111-145: one unread message. *)
Definition handle_message (cfg : config) (e_id : string) : M unit :=
  try_except
    (fetched <- call (EImapFetch e_id) (imap_fetch e_id) ;;
     let '(status_ok, decoded) := fetched in
     if status_ok then
       subject <- lift decoded ;;
       alert_data <- parse_email_subject subject ;;
       if truthy alert_data then
         log (LogProcessingSignal alert_data) ;;
         pin_ok <-
           (if negb (String.eqb (webhook_pin cfg) EmptyString) then
              incoming_pin <- lift (py_get alert_data "PIN" (PStr EmptyString)) ;;
              if negb (py_eq_str incoming_pin (webhook_pin cfg)) then
                log (LogInvalidEmailPin incoming_pin) ;; ret false
              else ret true
            else ret true) ;;
         if pin_ok then
           process_signal (signal_exchanges cfg) alert_data ;;
           call (EImapStore e_id) (imap_store e_id)
         else ret tt                       (* continue *)
       else log LogNonTradingMail
     else ret tt)
    (fun e => log (LogMailError e_id e)).

Definition check_inbox (cfg : config) : M unit :=
  try_except
    (log LogImapConnecting ;;
     call EImapConnect imap_connect ;;
     log LogImapConnected ;;
     found <- call EImapSearch imap_search ;;
     let '(status_ok, email_ids) := found in
     if negb status_ok then
       log LogSearchFailed ;;
       call EImapLogout imap_logout
     else
       log (LogFound (length email_ids)) ;;
       forM (handle_message cfg) email_ids ;;
       call EImapLogout imap_logout ;;
       log LogImapDone)
    (fun e => log (LogInboxError e)).

End EmailReader.

(** ** Observations on traces and results *)

(** The keys of a dictionary after [d[k] = v]. *)
Definition add_key (ks : list string) (k : string) : list string :=
  if existsb (String.eqb k) ks then ks else (ks ++ [k])%list.

Section Observations.

Context {num : Type} {PN : PyNumber num} {PT : PyText}.
Context {World : Type} {ENV : Environment num World}.

Local Abbreviation pyval := (pyval num).
Local Abbreviation record := (record num).
Local Abbreviation event := (event num).

(** Calls that create an order. *)
Definition is_order_call (ev : event) : bool :=
  match ev with
  | ECreateMarketOrder _ _ _ _ | ECreateOrder _ _ _ _ _ _ => true
  | _ => false
  end.

(** Calls to an exchange client. *)
Definition is_exchange_call (ev : event) : bool :=
  match ev with
  | EFetchPositions _ | EFetchBalance _
  | ECreateMarketOrder _ _ _ _ | ECreateOrder _ _ _ _ _ _ => true
  | _ => false
  end.

(** The first line of [close_position]: one per attempt to close. *)
Definition is_close_attempt (ev : event) : bool :=
  match ev with
  | ELog (LogClosing _ _) => true
  | _ => false
  end.

Definition is_store (ev : event) : bool :=
  match ev with
  | EImapStore _ => true
  | _ => false
  end.

Definition order_calls (t : list event) : list event := filter is_order_call t.
Definition exchange_calls (t : list event) : list event :=
  filter is_exchange_call t.
Definition close_attempts (t : list event) : list event :=
  filter is_close_attempt t.
Definition stores (t : list event) : list event := filter is_store t.

(** A market order for a [contracts] count that is greater than 0. *)
Definition sized_order (ev : event) : Prop :=
  match ev with
  | ECreateMarketOrder _ _ _ amount => py_gt0 amount = inr true
  | _ => True
  end.

(** [c] never raises. *)
Definition returns {A : Type} (c : M num World A) : Prop :=
  forall w, exists a, value_of (c w) = inr a.

(** Every event of [c] satisfies [P]. *)
Definition emits {A : Type} (P : event -> Prop) (c : M num World A) : Prop :=
  forall w, Forall P (events_of (c w)).

(** A dictionary that [get_positions] appends: made by [normalize] from a
    position whose contracts count is greater than 0. *)
Definition normal (pos : record) : Prop :=
  exists name raw,
    pos = normalize name raw /\
    py_gt0 (dict_get_default "contracts" raw (PNum nzero)) = inr true.

Definition well_formed (positions_data : dict (list record)) : Prop :=
  Forall (fun entry => Forall normal (snd entry)) positions_data.

(** A payload with the five required keys, the three that are
    lower-cased being text. *)
Definition signal_fields (d : dict pyval) (exchange : string) (symbol : pyval)
    (side order_type : string) (quantity : pyval) : Prop :=
  dict_get "EXCHANGE" d = Some (PStr exchange) /\
  dict_get "SYMBOL" d = Some symbol /\
  dict_get "SIDE" d = Some (PStr side) /\
  dict_get "ORDER_TYPE" d = Some (PStr order_type) /\
  dict_get "QUANTITY" d = Some quantity.

(** An event that is neither an order nor the start of a
    [close_position]. *)
Definition reading (ev : event) : Prop :=
  is_order_call ev = false /\ is_close_attempt ev = false.

(** What [get_positions] returns in world [w]. *)
Definition fetched_positions (exchanges : list string) (w : World)
  : dict (list record) :=
  match value_of (get_positions exchanges w) with
  | inr positions_data => positions_data
  | inl _ => []
  end.

(** The fields of a returned position that [close_position] reads. *)
Definition position_symbol (pos : record) : pyval :=
  dict_get_default "symbol" pos PNone.
Definition position_side (pos : record) : pyval :=
  dict_get_default "side" pos PNone.
Definition position_contracts (pos : record) : pyval :=
  dict_get_default "contracts" pos PNone.

(** [pos["symbol"] == symbol] *)
Definition holds (symbol : pyval) (pos : record) : bool :=
  py_eq (position_symbol pos) symbol.

(** The positions of a snapshot with their exchange, in the order in which
    [close_all_positions] visits them. *)
Definition discovered (positions_data : dict (list record))
  : list (string * record) :=
  flat_map (fun '(exchange_name, positions) =>
              map (fun pos => (exchange_name, pos)) positions)
           positions_data.

Definition attempt_of (np : string * record) : event :=
  ELog (LogClosing (fst np) (position_symbol (snd np))).

Definition key_of (np : string * record) : string :=
  result_key (fst np) (position_symbol (snd np)).

(** The [close_position] calls that [close_all_positions] makes for the
    positions [found], one after the other from the world [w]: the key and
    the result of each call that returned, and the world they leave. *)
Fixpoint close_results (exchanges : list string)
    (found : list (string * record)) (w : World)
  : list (string * result (num := num)) * World :=
  match found with
  | [] => ([], w)
  | np :: rest =>
      let o := close_position exchanges (fst np) (position_symbol (snd np)) w in
      let '(rs, w') := close_results exchanges rest (world_of o) in
      (match value_of o with
       | inr res => (key_of np, res) :: rs
       | inl _ => rs
       end, w')
  end.

(** [results[k] = r] for each pair [(k, r)], in order. *)
Definition record_results (rs : list (string * result (num := num)))
    (results : dict (result (num := num))) : dict (result (num := num)) :=
  fold_left (fun d kr => dict_set (fst kr) (snd kr) d) rs results.

(** The result of the last pair with the key [k]. *)
Fixpoint last_result (k : string) (rs : list (string * result (num := num)))
  : option (result (num := num)) :=
  match rs with
  | [] => None
  | (k', r) :: rest =>
      match last_result k rest with
      | Some r' => Some r'
      | None => if String.eqb k' k then Some r else None
      end
  end.

(** The replies of the clients to the [fetch_positions] calls of one
    [get_positions], and the world after them. *)
Fixpoint position_replies (exchanges : list string) (w : World)
  : list (string * (exn + list record)) * World :=
  match exchanges with
  | [] => ([], w)
  | name :: rest =>
      let '(r, w') := fetch_positions name w in
      let '(l, w'') := position_replies rest w' in
      ((name, r) :: l, w'')
  end.

(** The same for the [fetch_balance] calls of one
    [calculate_summary_stats]. *)
Fixpoint balance_replies (exchanges : list string) (w : World)
  : list (string * (exn + pyval)) * World :=
  match exchanges with
  | [] => ([], w)
  | name :: rest =>
      let '(r, w') := fetch_balance name w in
      let '(l, w'') := balance_replies rest w' in
      ((name, r) :: l, w'')
  end.

(** The open positions kept from a reply. *)
Definition open_positions (name : string) (r : exn + list record)
  : list record :=
  match r with
  | inl _ => []
  | inr all_positions => fst (collect_open name all_positions [])
  end.

(** The entry of [get_positions] for a reply. *)
Definition kept (nr : string * (exn + list record)) : string * list record :=
  (fst nr, open_positions (fst nr) (snd nr)).

Definition replied {A : Type} (nr : string * (exn + A)) : bool :=
  match snd nr with
  | inr _ => true
  | inl _ => false
  end.

(** The totals after the account of one exchange. *)
Definition contribute (positions_data : dict (list record)) (stats : summary)
    (nr : string * (exn + pyval)) : summary :=
  match snd nr with
  | inl _ => stats
  | inr account_balance =>
      fst (account_totals (dict_get_default (fst nr) positions_data [])
                          stats account_balance)
  end.

End Observations.

(** ** An instance of the numbers: exact arithmetic

    Rationals with two infinities and a NaN. Rounding is left out, so the
    instance only serves to run the model on inputs whose arithmetic is
    exact in a double as well. *)

Module Ideal.

Inductive xnum : Type :=
  | XFin (q : Q)
  | XInf (negative : bool)
  | XNan.

Definition q_negative (q : Q) : bool :=
  match Qcompare q 0 with Lt => true | _ => false end.

Definition q_zero (q : Q) : bool :=
  match Qcompare q 0 with Eq => true | _ => false end.

Definition xadd (a b : xnum) : xnum :=
  match a, b with
  | XNan, _ | _, XNan => XNan
  | XInf s, XInf t => if Bool.eqb s t then XInf s else XNan
  | XInf s, XFin _ | XFin _, XInf s => XInf s
  | XFin p, XFin q => XFin (Qred (p + q))
  end.

Definition xmul (a b : xnum) : xnum :=
  match a, b with
  | XNan, _ | _, XNan => XNan
  | XInf s, XInf t => XInf (xorb s t)
  | XInf s, XFin q | XFin q, XInf s =>
      if q_zero q then XNan else XInf (xorb s (q_negative q))
  | XFin p, XFin q => XFin (Qred (p * q))
  end.

Definition xgt0 (a : xnum) : bool :=
  match a with
  | XFin q => match Qcompare q 0 with Gt => true | _ => false end
  | XInf s => negb s
  | XNan => false
  end.

Definition xnonzero (a : xnum) : bool :=
  match a with
  | XFin q => negb (q_zero q)
  | XInf _ | XNan => true
  end.

Definition xeqb (a b : xnum) : bool :=
  match a, b with
  | XFin p, XFin q => Qeq_bool p q
  | XInf s, XInf t => Bool.eqb s t
  | _, _ => false
  end.

Definition xliteral (l : float_lit) : xnum :=
  match l with
  | LInf s => XInf s
  | LNan _ => XNan
  | LDec s m e =>
      let v := (inject_Z (Z.of_N m) * Qpower (10 # 1) e)%Q in
      XFin (Qred (if s then Qopp v else v))
  end.

Definition xfinite (a : xnum) : bool :=
  match a with
  | XFin _ => true
  | XInf _ | XNan => false
  end.

#[export] Instance ideal_numbers : PyNumber xnum := {|
  nzero := XFin 0;
  nbool := fun b => XFin (if b then 1 else 0);
  nadd := xadd;
  nmul := xmul;
  ngt0 := xgt0;
  nnonzero := xnonzero;
  neqb := xeqb;
  nfloat := fun x => Some x;
  nliteral := xliteral;
  nfinite := xfinite;
  ngt0_zero := eq_refl;
  nfinite_inf := fun _ => eq_refl;
  nfinite_nan := fun _ => eq_refl
|}.

Definition number (z : Z) : pyval xnum := PNum (XFin (inject_Z z)).
Definition ratio (n : Z) (d : positive) : pyval xnum := PNum (XFin (n # d)).

End Ideal.

(** ** An instance of the environment: fixed replies

    The outside world never changes: each client answers every call with
    the same reply. *)

Module Scripted.

Import Ideal.

(** The text functions on ASCII text; the runs below use no other. *)
#[export] Instance ascii_text : PyText := {|
  str_lower := Text.ascii_lower;
  str_strip := Text.ascii_strip;
  float_text := FloatSyntax.parse_ascii;
  str_lower_ascii := fun _ _ => eq_refl;
  str_strip_ascii := fun _ _ => eq_refl;
  float_text_ascii := fun _ _ => eq_refl
|}.

Record script : Type := {
  positions_reply : string -> exn + list (record xnum);
  balance_reply : string -> exn + pyval xnum;
  order_reply : exn + pyval xnum;
  search_reply : bool * list string;
  fetch_reply : string -> bool * (exn + string);
  loads_reply : string -> exn + pyval xnum
}.

Definition environment (sc : script) : Environment xnum unit := {|
  fetch_positions := fun name w => (positions_reply sc name, w);
  fetch_balance := fun name w => (balance_reply sc name, w);
  create_market_order := fun _ _ _ _ w => (order_reply sc, w);
  create_order := fun _ _ _ _ _ _ w => (order_reply sc, w);
  imap_connect := fun w => (inr tt, w);
  imap_search := fun w => (inr (search_reply sc), w);
  imap_fetch := fun e_id w => (inr (fetch_reply sc e_id), w);
  imap_store := fun _ w => (inr tt, w);
  imap_logout := fun w => (inr tt, w);
  html_unescape := fun s => s;
  remove_zero_width := fun s => s;
  json_loads := loads_reply sc;
  py_repr := fun _ => "?"
|}.

Definition accepted : pyval xnum := PDict [("id", PStr "1")].

(** No mail, no positions, orders accepted. *)
Definition quiet : script := {|
  positions_reply := fun _ => inr [];
  balance_reply := fun _ => inr (PDict []);
  order_reply := inr accepted;
  search_reply := (true, []);
  fetch_reply := fun _ => (false, inr EmptyString);
  loads_reply := fun _ => inl JSONDecodeError
|}.

End Scripted.

(** ** Accounts, payloads and a mailbox to run the model on *)

Module Examples.

Import Ideal Scripted.

Definition btc_long : record xnum :=
  [ ("symbol", PStr "BTC/USDT"); ("side", PStr "long");
    ("contracts", number 1); ("notional", number 100);
    ("marginRatio", ratio 1 2); ("unrealizedPnl", number 3) ].

Definition btc_short : record xnum :=
  [ ("symbol", PStr "BTC/USDT"); ("side", PStr "short");
    ("contracts", number 2); ("notional", number 200);
    ("unrealizedPnl", number (-1)) ].

Definition eth_long : record xnum :=
  [ ("symbol", PStr "ETH/USDT"); ("side", PStr "long");
    ("contracts", number 5); ("notional", number 50);
    ("unrealizedPnl", number 2) ].

Definition eth_flat : record xnum :=
  [ ("symbol", PStr "ETH/USDT"); ("side", PStr "long");
    ("contracts", number 0) ].

Definition usdt (total : Z) : pyval xnum :=
  PDict [("USDT", PDict [("total", number total)])].

Definition on_binance (positions : list (record xnum)) (name : string)
  : exn + list (record xnum) :=
  if String.eqb name "binance" then inr positions else inr [].

(** Binance holds one long position and reports a closed one. *)
Definition one_position : script := {|
  positions_reply := on_binance [btc_long; eth_flat];
  balance_reply := fun _ => inr (usdt 1000);
  order_reply := inr accepted;
  search_reply := (true, []);
  fetch_reply := fun _ => (false, inr EmptyString);
  loads_reply := fun _ => inl JSONDecodeError
|}.

(** Hedge mode: a long and a short position in the same symbol. The
    exchange rejects every order. *)
Definition hedged : script := {|
  positions_reply := on_binance [btc_long; btc_short];
  balance_reply := fun _ => inr (usdt 1000);
  order_reply := inl (OtherError "InsufficientFunds");
  search_reply := (true, []);
  fetch_reply := fun _ => (false, inr EmptyString);
  loads_reply := fun _ => inl JSONDecodeError
|}.

Definition two_symbols : script := {|
  positions_reply := on_binance [btc_long; eth_long];
  balance_reply := fun _ => inr (usdt 1000);
  order_reply := inr accepted;
  search_reply := (true, []);
  fetch_reply := fun _ => (false, inr EmptyString);
  loads_reply := fun _ => inl JSONDecodeError
|}.

(** Bybit times out on every call. *)
Definition bybit_down : script := {|
  positions_reply := fun name =>
    if String.eqb name "bybit" then inl (OtherError "RequestTimeout")
    else inr [btc_long];
  balance_reply := fun name =>
    if String.eqb name "bybit" then inl (OtherError "RequestTimeout")
    else inr (usdt 1000);
  order_reply := inr accepted;
  search_reply := (true, []);
  fetch_reply := fun _ => (false, inr EmptyString);
  loads_reply := fun _ => inl JSONDecodeError
|}.

Definition both : list string := ["bybit"; "binance"].

(** Signals. *)
Definition signal (exchange order_type : string) (quantity : pyval xnum)
  : dict (pyval xnum) :=
  [ ("EXCHANGE", PStr exchange); ("SYMBOL", PStr "BTC/USDT");
    ("SIDE", PStr "buy"); ("ORDER_TYPE", PStr order_type);
    ("QUANTITY", quantity) ].

Definition with_pin (pin : string) (d : dict (pyval xnum))
  : dict (pyval xnum) :=
  ("PIN", PStr pin) :: d.

Definition pin_1234 : config := {|
  webhook_pin := "1234";
  signal_exchanges := ["binance"]
|}.

(** A JSON object of text fields, as it is written in a subject. *)
Definition quote : string := String (ascii_of_nat 34) EmptyString.

Fixpoint json_members (fields : list (string * string)) : string :=
  match fields with
  | [] => EmptyString
  | [(k, v)] => quote ++ k ++ quote ++ ": " ++ quote ++ v ++ quote
  | (k, v) :: rest =>
      quote ++ k ++ quote ++ ": " ++ quote ++ v ++ quote ++ ", "
      ++ json_members rest
  end.

Definition json_object (fields : list (string * string)) : string :=
  "{" ++ json_members fields ++ "}".

Definition alert_fields : list (string * string) :=
  [ ("PIN", "0000"); ("EXCHANGE", "binance"); ("SYMBOL", "BTC/USDT");
    ("SIDE", "buy"); ("ORDER_TYPE", "market"); ("QUANTITY", "0.01") ].

Definition alert_payload : dict (pyval xnum) :=
  map (fun kv => (fst kv, PStr (snd kv))) alert_fields.

Definition alert_subject : string := "Alert: " ++ json_object alert_fields.


End Examples.

(** ** bot_logic.py: orders on request *)

Section OrderDesk.

Context {num : Type}.

(** The other calls to a ccxt client that [bot_logic.py] makes. *)
Class OrderDesk (World : Type) : Type := {
  fetch_open_orders : string -> reply World (pyval num);
  create_limit_order :
    string -> pyval num -> string -> pyval num -> pyval num ->
    reply World (pyval num);
  exchange_cancel_order :
    string -> pyval num -> pyval num -> reply World (pyval num)
}.

Inductive desk_log : Type :=
  | LogExecuting (exchange : string) (symbol : pyval num) (side : string)
      (order_type quantity price : pyval num)
  | LogBadOrder (order_type : pyval num)
  | LogOrderDone (order : pyval num)
  | LogExecuteError (exchange : string) (e : exn)
  | LogPendingRequest
  | LogPendingError (exchange : string) (e : exn)
  | LogCancelling (order_id : pyval num) (exchange : string)
  | LogCancelled (order_id : pyval num)
  | LogCancelError (order_id : pyval num) (e : exn).

(** The events of these functions: those of the trace above, and the
    calls and log lines of their own. *)
Inductive desk_event : Type :=
  | Core (ev : event num)
  | EFetchOpenOrders (exchange : string)
  | ECreateLimitOrder (exchange : string) (symbol : pyval num) (side : string)
      (amount price : pyval num)
  | ECancelOrder (exchange : string) (order_id symbol : pyval num)
  | DLog (m : desk_log).

(** The result dictionary of [execute_order]. *)
Inductive execute_result : Type :=
  | Executed (order : pyval num)       (* {"status": "success", "order": order} *)
  | Rejected (message : error_message)
  | RejectedOrder.                     (* wrong order type, or no price *)

Context {PN : PyNumber num} {PT : PyText}.
Context {World : Type} {ENV : Environment num World} {DESK : OrderDesk World}.

Local Abbreviation pyval := (pyval num).

(** Lines 217-222: the result of the call made inside the [try]. *)
Definition executed (exchange_name : string) (started call : desk_event)
    (r : (exn + pyval) * World) : execute_result * World * list desk_event :=
  match r with
  | (inr order, w') =>
      (Executed order, w', [started; call; DLog (LogOrderDone order)])
  | (inl e, w') =>
      (Rejected (ExceptionText e), w',
       [started; call; DLog (LogExecuteError exchange_name e)])
  end.

(** [execute_order]; it catches every exception of the calls it makes, so
    it gives a result, the world it leaves and its events. *)
Definition execute_order (exchanges : list string) (exchange_name : string)
    (symbol : pyval) (side : string) (order_type quantity price : pyval)
    (w : World) : execute_result * World * list desk_event :=
  let started :=
    DLog (LogExecuting exchange_name symbol side order_type quantity price) in
  if negb (configured exchange_name exchanges) then
    (Rejected (ExchangeNotFound exchange_name), w,
     [started; Core (ELog (LogExchangeUnavailable exchange_name))])
  else if py_eq_str order_type "market" then
    executed exchange_name started
      (Core (ECreateMarketOrder exchange_name symbol side quantity))
      (create_market_order exchange_name symbol side quantity w)
  else if (py_eq_str order_type "limit" && truthy price)%bool then
    executed exchange_name started
      (ECreateLimitOrder exchange_name symbol side quantity price)
      (create_limit_order exchange_name symbol side quantity price w)
  else
    (RejectedOrder, w, [started; DLog (LogBadOrder order_type)]).

(** The loop of lines 164-170. *)
Fixpoint pending_loop (exchanges : list string) (pending_orders : dict pyval)
    (w : World) : dict pyval * World * list desk_event :=
  match exchanges with
  | [] => (pending_orders, w, [])
  | exchange_name :: rest =>
      match fetch_open_orders exchange_name w with
      | (inr orders, w') =>
          let '(p, w'', t) :=
            pending_loop rest (dict_set exchange_name orders pending_orders) w' in
          (p, w'', EFetchOpenOrders exchange_name :: t)
      | (inl e, w') =>
          let '(p, w'', t) := pending_loop rest pending_orders w' in
          (p, w'',
           EFetchOpenOrders exchange_name
           :: DLog (LogPendingError exchange_name e) :: t)
      end
  end.

Definition get_pending_orders (exchanges : list string) (w : World)
  : dict pyval * World * list desk_event :=
  match exchanges with
  | [] => ([], w, [DLog LogPendingRequest; Core (ELog LogNoExchanges)])
  | _ :: _ =>
      let '(p, w', t) := pending_loop exchanges [] w in
      (p, w', DLog LogPendingRequest :: t)
  end.

Definition cancel_order (exchanges : list string) (exchange_name : string)
    (order_id symbol : pyval) (w : World) : result * World * list desk_event :=
  let started := DLog (LogCancelling order_id exchange_name) in
  if negb (configured exchange_name exchanges) then
    (Error (ExchangeNotFound exchange_name), w,
     [started; Core (ELog (LogExchangeUnavailable exchange_name))])
  else
    let call := ECancelOrder exchange_name order_id symbol in
    match exchange_cancel_order exchange_name order_id symbol w with
    | (inr r, w') => (Success r, w', [started; call; DLog (LogCancelled order_id)])
    | (inl e, w') =>
        (Error (ExceptionText e), w',
         [started; call; DLog (LogCancelError order_id e)])
    end.

(** Calls to a client among the events of these functions. *)
Definition is_desk_call (ev : desk_event) : bool :=
  match ev with
  | Core ev' => is_exchange_call ev'
  | EFetchOpenOrders _ | ECreateLimitOrder _ _ _ _ _ | ECancelOrder _ _ _ => true
  | DLog _ => false
  end.

Definition desk_calls (t : list desk_event) : list desk_event :=
  filter is_desk_call t.

(** The replies of the clients to the [fetch_open_orders] calls of one
    [get_pending_orders]. *)
Fixpoint order_replies (exchanges : list string) (w : World)
  : list (string * (exn + pyval)) :=
  match exchanges with
  | [] => []
  | name :: rest =>
      let '(r, w') := fetch_open_orders name w in
      (name, r) :: order_replies rest w'
  end.

End OrderDesk.

Arguments OrderDesk : clear implicits.
Arguments desk_log : clear implicits.
Arguments desk_event : clear implicits.
Arguments execute_result : clear implicits.

(** ** More observations *)

Section MoreObservations.

Context {num : Type} {PN : PyNumber num} {PT : PyText}.
Context {World : Type} {ENV : Environment num World}.

Local Abbreviation pyval := (pyval num).
Local Abbreviation record := (record num).
Local Abbreviation event := (event num).

(** What [process_signal] may leave in its trace: log lines, and orders on
    a configured exchange, to buy or to sell, at the market without a price
    or with a limit and its price. *)
Definition well_placed (exchanges : list string) (ev : event) : Prop :=
  match ev with
  | ELog _ => True
  | ECreateOrder exchange _ order_type side _ price =>
      configured exchange exchanges = true /\
      (side = "buy" \/ side = "sell") /\
      ((order_type = "market" /\ price = None) \/
       (order_type = "limit" /\ price <> None))
  | _ => False
  end.

(** [c] makes at most [n] calls to an exchange. *)
Definition calls_at_most {A : Type} (n : nat) (c : M num World A) : Prop :=
  forall w, (length (exchange_calls (events_of (c w))) <= n)%nat.

(** The required fields that a payload lacks. *)
Definition lacks (d : dict pyval) (field : string) : bool :=
  negb (dict_mem field d).

Definition is_fetch (ev : event) : bool :=
  match ev with
  | EImapFetch _ => true
  | _ => false
  end.

Definition fetches (t : list event) : list event := filter is_fetch t.

(** What handling the message [e_id] may leave in the trace: its own
    fetch and store, log lines and calls to an exchange. *)
Definition own_mail (e_id : string) (ev : event) : Prop :=
  match ev with
  | EImapFetch i | EImapStore i => i = e_id
  | EImapConnect | EImapSearch | EImapLogout => False
  | _ => True
  end.

(** The keys of a dictionary returned by [get_positions]. *)
Definition position_keys : list string :=
  [ "symbol"; "side"; "contracts"; "notional"; "entry_price";
    "liquidation_price"; "margin_ratio"; "leverage"; "unrealized_pnl";
    "exchange" ].

(** The entries of [get_positions] name their exchange. *)
Definition labelled (positions_data : dict (list record)) : Prop :=
  Forall (fun entry =>
            Forall (fun pos => exists raw, pos = normalize (fst entry) raw)
                   (snd entry))
         positions_data.

(** The entries of [get_positions] are those of configured exchanges. *)
Definition named (exchanges : list string)
    (positions_data : dict (list record)) : Prop :=
  Forall (fun entry => In (fst entry) exchanges) positions_data.

Definition is_positions_fetch (ev : event) : bool :=
  match ev with
  | EFetchPositions _ => true
  | _ => false
  end.

Definition positions_fetches (t : list event) : list event :=
  filter is_positions_fetch t.

(** The unrealized PnL that [calculate_summary_stats] reads from a returned
    position. *)
Definition position_pnl (pos : record) : pyval :=
  dict_get_default "unrealized_pnl" pos (PNum nzero).

End MoreObservations.

Section DeskObservations.

Context {num : Type}.

(** The entries of [get_pending_orders] for the replies of the clients:
    one per client that answered. *)
Fixpoint answered (replies : list (string * (exn + pyval num)))
  : dict (pyval num) :=
  match replies with
  | [] => []
  | (name, inr orders) :: rest => (name, orders) :: answered rest
  | (name, inl _) :: rest => answered rest
  end.

End DeskObservations.

(** ** An order desk, a mail server that is down, and more payloads *)

Module Cases.

Import Ideal Scripted Examples.

Definition open_order : pyval xnum := PDict [("id", PStr "7")].

(** Every client has one open order; bybit times out. Limit orders are
    accepted, and so are cancellations, except on okx. *)
Definition desk : OrderDesk xnum unit := {|
  fetch_open_orders := fun name w =>
    if String.eqb name "bybit" then (inl (OtherError "RequestTimeout"), w)
    else (inr (PList [open_order]), w);
  create_limit_order := fun _ _ _ _ _ w => (inr accepted, w);
  exchange_cancel_order := fun name _ _ w =>
    if String.eqb name "okx" then (inl (OtherError "OrderNotFound"), w)
    else (inr accepted, w)
|}.

(** The mail server refuses the connection. *)
Definition offline : Environment xnum unit := {|
  fetch_positions := fun _ w => (inr [], w);
  fetch_balance := fun _ w => (inr (PDict []), w);
  create_market_order := fun _ _ _ _ w => (inr accepted, w);
  create_order := fun _ _ _ _ _ _ w => (inr accepted, w);
  imap_connect := fun w => (inl (OtherError "ConnectionRefused"), w);
  imap_search := fun w => (inr (true, []), w);
  imap_fetch := fun _ w => (inr (false, inr EmptyString), w);
  imap_store := fun _ w => (inr tt, w);
  imap_logout := fun w => (inr tt, w);
  html_unescape := fun s => s;
  remove_zero_width := fun s => s;
  json_loads := fun _ => inl JSONDecodeError;
  py_repr := fun _ => "?"
|}.

(** One unread message with the given subject; of the texts that may
    follow the marker, only the alert and [null] are JSON. *)
Definition inbox (subject : string) : script := {|
  positions_reply := fun _ => inr [];
  balance_reply := fun _ => inr (PDict []);
  order_reply := inr accepted;
  search_reply := (true, ["1"]);
  fetch_reply := fun _ => (true, inr subject);
  loads_reply := fun s =>
    if String.eqb s (json_object alert_fields) then inr (PDict alert_payload)
    else if String.eqb s "null" then inr PNone
    else inl JSONDecodeError
|}.

(** Hedge mode on an exchange that numbers the orders it accepts: the
    state of the world is the number of orders placed so far. *)
Definition ticket (n : nat) : pyval xnum :=
  PDict [("id", number (Z.of_nat n))].

Definition numbering : Environment xnum nat := {|
  fetch_positions := fun name n => (on_binance [btc_long; btc_short] name, n);
  fetch_balance := fun _ n => (inr (usdt 1000), n);
  create_market_order := fun _ _ _ _ n => (inr (ticket (S n)), S n);
  create_order := fun _ _ _ _ _ _ n => (inr (ticket (S n)), S n);
  imap_connect := fun n => (inr tt, n);
  imap_search := fun n => (inr (true, []), n);
  imap_fetch := fun _ n => (inr (false, inr EmptyString), n);
  imap_store := fun _ n => (inr tt, n);
  imap_logout := fun n => (inr tt, n);
  html_unescape := fun s => s;
  remove_zero_width := fun s => s;
  json_loads := fun _ => inl JSONDecodeError;
  py_repr := fun _ => "?"
|}.

(** Bybit times out when asked for its positions, and answers when asked
    for its balance. *)
Definition bybit_half_down : script := {|
  positions_reply := fun name =>
    if String.eqb name "bybit" then inl (OtherError "RequestTimeout")
    else inr [btc_long];
  balance_reply := fun name =>
    if String.eqb name "bybit" then inr (usdt 500) else inr (usdt 1000);
  order_reply := inr accepted;
  search_reply := (true, []);
  fetch_reply := fun _ => (false, inr EmptyString);
  loads_reply := fun _ => inl JSONDecodeError
|}.

(** No PIN is configured. *)
Definition no_pin : config := {|
  webhook_pin := EmptyString;
  signal_exchanges := ["binance"]
|}.

Definition pin_0000 : config := {|
  webhook_pin := "0000";
  signal_exchanges := ["binance"]
|}.

(** Payloads that [process_signal] turns down. *)
Definition no_side : dict (pyval xnum) :=
  [ ("EXCHANGE", PStr "binance"); ("SYMBOL", PStr "BTC/USDT");
    ("ORDER_TYPE", PStr "market"); ("QUANTITY", number 1) ].

Definition null_exchange : dict (pyval xnum) :=
  [ ("EXCHANGE", PNone); ("SYMBOL", PStr "BTC/USDT"); ("SIDE", PStr "buy");
    ("ORDER_TYPE", PStr "market"); ("QUANTITY", number 1) ].

Definition hold : dict (pyval xnum) :=
  [ ("EXCHANGE", PStr "binance"); ("SYMBOL", PStr "BTC/USDT");
    ("SIDE", PStr "Hold"); ("ORDER_TYPE", PStr "market");
    ("QUANTITY", number 1) ].

Definition priced (price : pyval xnum) (d : dict (pyval xnum))
  : dict (pyval xnum) :=
  (d ++ [("PRICE", price)])%list.

(** Binance reports a position without a contracts count between two
    open ones. *)
Definition btc_null : record xnum :=
  [ ("symbol", PStr "BTC/USDT"); ("side", PStr "long"); ("contracts", PNone) ].

Definition broken_feed : script := {|
  positions_reply := on_binance [btc_long; btc_null; eth_long];
  balance_reply := fun _ => inr (usdt 1000);
  order_reply := inr accepted;
  search_reply := (true, []);
  fetch_reply := fun _ => (false, inr EmptyString);
  loads_reply := fun _ => inl JSONDecodeError
|}.

End Cases.

(** * Properties *)

Local Open Scope list_scope.

(** ** Dictionaries *)

Section DictFacts.

Context {V : Type}.

Lemma dict_get_set_same (k : string) (v : V) (d : dict V) :
  dict_get k (dict_set k v d) = Some v.
Proof.
  induction d as [|[k' v'] r IH]; simpl.
  - now rewrite String.eqb_refl.
  - destruct (String.eqb k' k) eqn:E; simpl; rewrite E; auto.
Qed.

Lemma dict_get_set_other (k k' : string) (v : V) (d : dict V) :
  k' <> k -> dict_get k' (dict_set k v d) = dict_get k' d.
Proof.
  intros Hne. induction d as [|[k0 v0] r IH]; simpl.
  - destruct (String.eqb_spec k k'); congruence.
  - destruct (String.eqb_spec k0 k) as [->|Hk]; simpl.
    + destruct (String.eqb_spec k k'); congruence.
    + now rewrite IH.
Qed.

Lemma dict_get_In (k : string) (v : V) (d : dict V) :
  dict_get k d = Some v -> In (k, v) d.
Proof.
  induction d as [|[k' v'] r IH]; simpl; [discriminate|].
  destruct (String.eqb_spec k' k) as [->|]; intros H.
  - injection H as ->. now left.
  - right. auto.
Qed.

Lemma dict_get_not_key (k : string) (d : dict V) :
  ~ In k (keys d) -> dict_get k d = None.
Proof.
  induction d as [|[k' v'] r IH]; simpl; [reflexivity|].
  intros H. destruct (String.eqb_spec k' k) as [->|]; [tauto|].
  apply IH. tauto.
Qed.

Lemma dict_get_app_fresh (k : string) (v : V) (d : dict V) :
  ~ In k (keys d) -> dict_get k (d ++ [(k, v)]) = Some v.
Proof.
  induction d as [|[k' v'] r IH]; simpl; intros H.
  - now rewrite String.eqb_refl.
  - destruct (String.eqb_spec k' k) as [->|]; [tauto|]. apply IH. tauto.
Qed.

Lemma dict_set_fresh (k : string) (v : V) (d : dict V) :
  ~ In k (keys d) -> dict_set k v d = d ++ [(k, v)].
Proof.
  induction d as [|[k' v'] r IH]; simpl; intros H; [reflexivity|].
  destruct (String.eqb_spec k' k) as [->|]; [tauto|].
  f_equal. apply IH. tauto.
Qed.

Lemma dict_set_last (k : string) (v v' : V) (d : dict V) :
  ~ In k (keys d) -> dict_set k v (d ++ [(k, v')]) = d ++ [(k, v)].
Proof.
  induction d as [|[k0 v0] r IH]; simpl; intros H.
  - now rewrite String.eqb_refl.
  - destruct (String.eqb_spec k0 k) as [->|]; [tauto|].
    f_equal. apply IH. tauto.
Qed.

Lemma dict_set_set (k : string) (v v' : V) (d : dict V) :
  dict_set k v (dict_set k v' d) = dict_set k v d.
Proof.
  induction d as [|[k0 v0] r IH]; simpl.
  - now rewrite String.eqb_refl.
  - destruct (String.eqb k0 k) eqn:E; simpl; rewrite E; [reflexivity|].
    now rewrite IH.
Qed.

Lemma dict_set_Forall (P : string * V -> Prop) (k : string) (v : V) (d : dict V) :
  (forall k', P (k', v)) -> Forall P d -> Forall P (dict_set k v d).
Proof.
  intros Hv. induction 1 as [|[k' v'] r Hx Hr IH]; simpl.
  - constructor; auto.
  - destruct (String.eqb k' k); constructor; auto.
Qed.

Lemma keys_dict_set (k : string) (v : V) (d : dict V) :
  keys (dict_set k v d) = add_key (keys d) k.
Proof.
  unfold add_key. induction d as [|[k' v'] r IH]; simpl; [reflexivity|].
  rewrite (String.eqb_sym k k').
  destruct (String.eqb k' k) eqn:E; simpl; [reflexivity|].
  unfold keys in IH |- *. rewrite IH.
  now destruct (existsb (String.eqb k) (map fst r)).
Qed.

End DictFacts.

Lemma existsb_eqb_In (k : string) (ks : list string) :
  existsb (String.eqb k) ks = true <-> In k ks.
Proof.
  rewrite existsb_exists. split.
  - intros (x & Hx & E). apply String.eqb_eq in E. now subst.
  - intros H. exists k. split; [assumption | apply String.eqb_refl].
Qed.

Lemma add_key_In (ks : list string) (k x : string) :
  In x (add_key ks k) <-> In x ks \/ x = k.
Proof.
  unfold add_key. destruct (existsb (String.eqb k) ks) eqn:E.
  - apply existsb_eqb_In in E. split; [tauto|]. intros [H| ->]; assumption.
  - rewrite in_app_iff. simpl. intuition.
Qed.

Lemma add_key_NoDup (ks : list string) (k : string) :
  NoDup ks -> NoDup (add_key ks k).
Proof.
  unfold add_key. intros H. destruct (existsb (String.eqb k) ks) eqn:E; [assumption|].
  assert (~ In k ks) as Hk.
  { intros Hin. apply existsb_eqb_In in Hin. congruence. }
  clear E. induction H as [|a l Ha Hl IH]; simpl.
  - constructor; [intros []|constructor].
  - constructor.
    + rewrite in_app_iff. simpl. simpl in Hk. intuition.
    + apply IH. simpl in Hk. tauto.
Qed.

Lemma add_key_length (ks : list string) (k : string) :
  (length ks <= length (add_key ks k) <= S (length ks))%nat.
Proof.
  unfold add_key. destruct (existsb (String.eqb k) ks).
  - lia.
  - rewrite length_app. simpl. lia.
Qed.

Lemma add_key_length_fresh (ks : list string) (k : string) :
  ~ In k ks -> length (add_key ks k) = S (length ks).
Proof.
  unfold add_key. intros H. destruct (existsb (String.eqb k) ks) eqn:E.
  - apply existsb_eqb_In in E. tauto.
  - rewrite length_app. simpl. lia.
Qed.

Section AddKeys.

Lemma add_keys_In (new ks : list string) (x : string) :
  In x (fold_left add_key new ks) <-> In x ks \/ In x new.
Proof.
  revert ks. induction new as [|k r IH]; intros ks; simpl; [tauto|].
  rewrite IH, add_key_In. intuition.
Qed.

Lemma add_keys_NoDup (new ks : list string) :
  NoDup ks -> NoDup (fold_left add_key new ks).
Proof.
  revert ks. induction new as [|k r IH]; intros ks H; simpl; [assumption|].
  apply IH. now apply add_key_NoDup.
Qed.

Lemma add_keys_length_le (new ks : list string) :
  (length (fold_left add_key new ks) <= length ks + length new)%nat.
Proof.
  revert ks. induction new as [|k r IH]; intros ks; simpl; [lia|].
  specialize (IH (add_key ks k)). pose proof (add_key_length ks k). lia.
Qed.

Lemma add_keys_length_fresh (new ks : list string) :
  NoDup (ks ++ new) ->
  length (fold_left add_key new ks) = (length ks + length new)%nat.
Proof.
  revert ks. induction new as [|k r IH]; intros ks H; simpl; [lia|].
  assert (~ In k ks) as Hk.
  { apply NoDup_remove_2 in H. rewrite in_app_iff in H. tauto. }
  rewrite IH.
  - rewrite add_key_length_fresh by assumption. lia.
  - unfold add_key. destruct (existsb (String.eqb k) ks) eqn:E.
    + apply existsb_eqb_In in E. tauto.
    + rewrite <- app_assoc. exact H.
Qed.

End AddKeys.

(** ** The monad *)

Section MonadFacts.

Context {num World : Type}.

Local Abbreviation M := (M num World).
Local Abbreviation outcome := (outcome num World).
Local Abbreviation event := (event num).

Lemma after_nil {A : Type} (o : outcome A) : after [] o = o.
Proof. now destruct o as [[r w] t]. Qed.

Lemma after_after {A : Type} (t1 t2 : list event) (o : outcome A) :
  after t1 (after t2 o) = after (t1 ++ t2) o.
Proof. unfold after. simpl. now rewrite app_assoc. Qed.

Lemma events_after {A : Type} (t : list event) (o : outcome A) :
  events_of (after t o) = t ++ events_of o.
Proof. reflexivity. Qed.

Lemma value_after {A : Type} (t : list event) (o : outcome A) :
  value_of (after t o) = value_of o.
Proof. reflexivity. Qed.

Lemma world_after {A : Type} (t : list event) (o : outcome A) :
  world_of (after t o) = world_of o.
Proof. reflexivity. Qed.

Lemma bind_returned {A B : Type} (c : M A) (k : A -> M B) w a w' t :
  c w = (inr a, w', t) -> bind c k w = after t (k a w').
Proof. unfold bind. now intros ->. Qed.

Lemma bind_raised {A B : Type} (c : M A) (k : A -> M B) w e w' t :
  c w = (inl e, w', t) -> bind c k w = (inl e, w', t).
Proof. unfold bind. now intros ->. Qed.

Lemma bind_log {B : Type} (m : log_msg num) (k : unit -> M B) w :
  bind (log m) k w = after [ELog m] (k tt w).
Proof. reflexivity. Qed.

Lemma bind_lift {A B : Type} (a : A) (k : A -> M B) w :
  bind (lift (inr a)) k w = k a w.
Proof. unfold bind, lift. apply after_nil. Qed.

Lemma bind_lift_eq {A B : Type} (r : exn + A) (a : A) (k : A -> M B) w :
  r = inr a -> bind (lift r) k w = k a w.
Proof. intros ->. apply bind_lift. Qed.

Lemma bind_ret {A B : Type} (a : A) (k : A -> M B) w :
  bind (ret a) k w = k a w.
Proof. unfold bind, ret. apply after_nil. Qed.

(** *** Computations that never raise *)

Lemma returns_ret {A : Type} (a : A) : returns (ret (World := World) (num := num) a).
Proof. intros w. now exists a. Qed.

Lemma returns_log (m : log_msg num) : returns (log (World := World) m).
Proof. intros w. now exists tt. Qed.

Lemma returns_bind {A B : Type} (c : M A) (k : A -> M B) :
  returns c -> (forall a, returns (k a)) -> returns (bind c k).
Proof.
  intros Hc Hk w. destruct (Hc w) as [a Ha]. unfold bind.
  destruct (c w) as [[r w'] t]. unfold value_of in Ha. simpl in Ha. subst r.
  destruct (Hk a w') as [b Hb]. exists b. exact Hb.
Qed.

Lemma returns_attempt {A : Type} (c : M A) : returns (attempt c).
Proof.
  intros w. unfold attempt. destruct (c w) as [[r w'] t]. now exists r.
Qed.

Lemma returns_try_except {A : Type} (c : M A) (h : exn -> M A) :
  (forall e, returns (h e)) -> returns (try_except c h).
Proof.
  intros Hh w. unfold try_except. destruct (c w) as [[[e|a] w'] t].
  - destruct (Hh e w') as [b Hb]. exists b. exact Hb.
  - now exists a.
Qed.

Lemma returns_foldM {A B : Type} (f : B -> A -> M B) (l : list A) :
  (forall b x, returns (f b x)) -> forall b, returns (foldM f l b).
Proof.
  intros Hf. induction l as [|x r IH]; intros b; simpl.
  - apply returns_ret.
  - apply returns_bind; auto.
Qed.

(** *** Events of a computation *)

Section Emits.

Variable P : event -> Prop.

Lemma emits_ret {A : Type} (a : A) : emits P (ret (World := World) a).
Proof. intros w. constructor. Qed.

Lemma emits_lift {A : Type} (r : exn + A) : emits P (lift (World := World) r).
Proof. intros w. constructor. Qed.

Lemma emits_raise {A : Type} (e : exn) : emits P (raise (A := A) (World := World) e).
Proof. intros w. constructor. Qed.

Lemma emits_emit (ev : event) : P ev -> emits P (emit (World := World) ev).
Proof. intros H w. simpl. constructor; [assumption|constructor]. Qed.

Lemma emits_log (m : log_msg num) : P (ELog m) -> emits P (log (World := World) m).
Proof. apply emits_emit. Qed.

Lemma emits_call {A : Type} (ev : event) (op : reply World A) :
  P ev -> emits P (call ev op).
Proof.
  intros H w. unfold call. destruct (op w) as [r w']. simpl.
  constructor; [assumption|constructor].
Qed.

Lemma emits_bind {A B : Type} (c : M A) (k : A -> M B) :
  emits P c -> (forall a, emits P (k a)) -> emits P (bind c k).
Proof.
  intros Hc Hk w. unfold bind. specialize (Hc w).
  destruct (c w) as [[[e|a] w'] t]; simpl in *; [assumption|].
  apply Forall_app. split; [assumption | apply Hk].
Qed.

Lemma emits_attempt {A : Type} (c : M A) : emits P c -> emits P (attempt c).
Proof.
  intros Hc w. unfold attempt. specialize (Hc w).
  now destruct (c w) as [[r w'] t].
Qed.

Lemma emits_try_except {A : Type} (c : M A) (h : exn -> M A) :
  emits P c -> (forall e, emits P (h e)) -> emits P (try_except c h).
Proof.
  intros Hc Hh w. unfold try_except. specialize (Hc w).
  destruct (c w) as [[[e|a] w'] t]; simpl in *; [|assumption].
  apply Forall_app. split; [assumption | apply Hh].
Qed.

Lemma emits_foldM {A B : Type} (f : B -> A -> M B) (l : list A) :
  (forall b x, In x l -> emits P (f b x)) -> forall b, emits P (foldM f l b).
Proof.
  induction l as [|x r IH]; intros Hf b; simpl.
  - apply emits_ret.
  - apply emits_bind.
    + apply Hf. now left.
    + intros b'. apply IH. intros b'' y Hy. apply Hf. now right.
Qed.

End Emits.

(** *** The parts of the outcome of a sequence *)

Lemma events_bind {A B : Type} (c : M A) (k : A -> M B) w :
  events_of (bind c k w) =
  events_of (c w) ++
  match value_of (c w) with
  | inr a => events_of (k a (world_of (c w)))
  | inl _ => []
  end.
Proof.
  unfold bind. destruct (c w) as [[[e|a] w'] t]; simpl.
  - now rewrite app_nil_r.
  - reflexivity.
Qed.

Lemma value_bind {A B : Type} (c : M A) (k : A -> M B) w :
  value_of (bind c k w) =
  match value_of (c w) with
  | inr a => value_of (k a (world_of (c w)))
  | inl e => inl e
  end.
Proof. unfold bind. now destruct (c w) as [[[e|a] w'] t]. Qed.

Lemma world_bind {A B : Type} (c : M A) (k : A -> M B) w :
  world_of (bind c k w) =
  match value_of (c w) with
  | inr a => world_of (k a (world_of (c w)))
  | inl _ => world_of (c w)
  end.
Proof. unfold bind. now destruct (c w) as [[[e|a] w'] t]. Qed.

Lemma events_try_except {A : Type} (c : M A) (h : exn -> M A) w :
  events_of (try_except c h w) =
  events_of (c w) ++
  match value_of (c w) with
  | inr _ => []
  | inl e => events_of (h e (world_of (c w)))
  end.
Proof.
  unfold try_except. destruct (c w) as [[[e|a] w'] t]; simpl.
  - reflexivity.
  - now rewrite app_nil_r.
Qed.

Lemma value_try_except {A : Type} (c : M A) (h : exn -> M A) w :
  value_of (try_except c h w) =
  match value_of (c w) with
  | inr a => inr a
  | inl e => value_of (h e (world_of (c w)))
  end.
Proof. unfold try_except. now destruct (c w) as [[[e|a] w'] t]. Qed.

Lemma outcome_eta {A : Type} (o : outcome A) :
  o = (value_of o, world_of o, events_of o).
Proof. now destruct o as [[r w] t]. Qed.

(** The continuation may rely on the value that [c] returned. *)
Lemma emits_bind_value {A B : Type} (P : event -> Prop) (c : M A)
    (k : A -> M B) :
  emits P c ->
  (forall w a, value_of (c w) = inr a -> emits P (k a)) ->
  emits P (bind c k).
Proof.
  intros Hc Hk w. rewrite events_bind. apply Forall_app. split; [apply Hc|].
  destruct (value_of (c w)) as [e|a] eqn:E; [constructor|].
  now apply (Hk w a).
Qed.

(** An invariant of the value carried through a loop. *)
Lemma foldM_invariant {A B : Type} (I : B -> Prop) (f : B -> A -> M B)
    (l : list A) :
  (forall b x w b', I b -> value_of (f b x w) = inr b' -> I b') ->
  forall b w b', I b -> value_of (foldM f l b w) = inr b' -> I b'.
Proof.
  intros Hf. induction l as [|x r IH]; intros b w b' Hb; simpl.
  - unfold ret, value_of. simpl. now intros [= <-].
  - unfold bind. destruct (f b x w) as [[[e|b1] w1] t1] eqn:E.
    + discriminate.
    + unfold after, value_of. simpl. apply IH.
      apply (Hf b x w b1 Hb). now rewrite E.
Qed.

End MonadFacts.

Create HintDb returns.
Create HintDb emits.
#[local] Hint Resolve returns_ret returns_log returns_bind returns_attempt
  returns_try_except returns_foldM : returns.
#[local] Hint Resolve emits_ret emits_lift emits_raise emits_log emits_call
  emits_bind emits_attempt emits_try_except : emits.

(** ** Positions *)

Section PositionFacts.

Context {num : Type} {PN : PyNumber num} {PT : PyText}.
Context {World : Type} {ENV : Environment num World}.

Local Abbreviation M := (M num World).
Local Abbreviation pyval := (pyval num).
Local Abbreviation record := (record num).
Local Abbreviation event := (event num).

Lemma normal_symbol (pos : record) :
  normal pos -> py_getitem (PDict pos) "symbol" = inr (position_symbol pos).
Proof. intros (n & raw & -> & _). reflexivity. Qed.

Lemma normal_side (pos : record) :
  normal pos -> py_getitem (PDict pos) "side" = inr (position_side pos).
Proof. intros (n & raw & -> & _). reflexivity. Qed.

Lemma normal_contracts (pos : record) :
  normal pos ->
  py_getitem (PDict pos) "contracts" = inr (position_contracts pos) /\
  py_gt0 (position_contracts pos) = inr true.
Proof. intros (n & raw & -> & H). split; [reflexivity | exact H]. Qed.

(** A returned position has the key [margin_ratio], not [marginRatio]. *)
Lemma normal_marginRatio (pos : record) :
  normal pos -> dict_get_default "marginRatio" pos PNone = PNone.
Proof. intros (n & raw & -> & _). reflexivity. Qed.

Lemma collect_open_normal (name : string) (all_positions found : list record) :
  Forall normal found ->
  Forall normal (fst (collect_open name all_positions found)).
Proof.
  revert found. induction all_positions as [|pos rest IH]; intros found H; simpl.
  - assumption.
  - destruct (py_gt0 (dict_get_default "contracts" pos (PNum nzero)))
      as [e|[|]] eqn:E; simpl; auto.
    apply IH. apply Forall_app. split; [assumption|].
    constructor; [|constructor]. now exists name, pos.
Qed.

(** A position without a contracts count, or with one that is not greater
    than 0, is skipped. *)
Lemma collect_open_missing (name : string) (pos : record)
    (rest found : list record) :
  dict_get "contracts" pos = None ->
  collect_open name (pos :: rest) found = collect_open name rest found.
Proof.
  intros H. simpl. unfold dict_get_default. rewrite H. simpl.
  now rewrite ngt0_zero.
Qed.

Lemma collect_open_zero (name : string) (pos : record)
    (rest found : list record) (v : pyval) :
  dict_get "contracts" pos = Some v -> py_gt0 v = inr false ->
  collect_open name (pos :: rest) found = collect_open name rest found.
Proof.
  intros H Hv. simpl. unfold dict_get_default. rewrite H. now rewrite Hv.
Qed.

Lemma well_formed_set (positions_data : dict (list record)) (name : string)
    (positions : list record) :
  well_formed positions_data -> Forall normal positions ->
  well_formed (dict_set name positions positions_data).
Proof. intros H Hp. apply dict_set_Forall; auto. Qed.

Lemma well_formed_get (positions_data : dict (list record)) (name : string) :
  well_formed positions_data ->
  Forall normal (dict_get_default name positions_data []).
Proof.
  intros H. unfold dict_get_default.
  destruct (dict_get name positions_data) as [ps|] eqn:E; [|constructor].
  apply dict_get_In in E. unfold well_formed in H.
  rewrite Forall_forall in H. exact (H _ E).
Qed.

Lemma get_positions_for_outcome (positions_data : dict (list record))
    (name : string) (w : World) :
  get_positions_for positions_data name w =
  let r := fst (fetch_positions name w) in
  let found := open_positions name r in
  (inr (dict_set name found (dict_set name [] positions_data)),
   snd (fetch_positions name w),
   EFetchPositions name ::
   match r with
   | inl e => [ELog (LogPositionsError name e)]
   | inr all_positions =>
       match snd (collect_open name all_positions []) with
       | Some e => [ELog (LogPositionsError name e)]
       | None => []
       end
   end).
Proof.
  unfold get_positions_for, bind, attempt, call.
  destruct (fetch_positions name w) as [[e|all_positions] w']; simpl.
  - unfold after. simpl. now rewrite dict_set_set.
  - destruct (collect_open name all_positions []) as [found [e|]]; reflexivity.
Qed.

Lemma get_positions_for_returns (positions_data : dict (list record))
    (name : string) :
  returns (get_positions_for positions_data name).
Proof. intros w. rewrite get_positions_for_outcome. now eexists. Qed.

Lemma get_positions_returns (exchanges : list string) :
  returns (get_positions exchanges).
Proof.
  unfold get_positions. apply returns_bind; [apply returns_log|]. intros _.
  destruct exchanges as [|name rest].
  - auto with returns.
  - apply returns_bind.
    + apply returns_foldM. intros. apply get_positions_for_returns.
    + auto with returns.
Qed.

Lemma get_positions_for_well_formed (positions_data : dict (list record))
    (name : string) (w : World) (positions_data' : dict (list record)) :
  well_formed positions_data ->
  value_of (get_positions_for positions_data name w) = inr positions_data' ->
  well_formed positions_data'.
Proof.
  intros H. rewrite get_positions_for_outcome. unfold value_of. simpl.
  intros [= <-]. apply well_formed_set; [apply well_formed_set; auto|].
  destruct (fst (fetch_positions name w)) as [e|all_positions]; simpl.
  - constructor.
  - apply collect_open_normal. constructor.
Qed.

Lemma get_positions_well_formed (exchanges : list string) (w : World)
    (positions_data : dict (list record)) :
  value_of (get_positions exchanges w) = inr positions_data ->
  well_formed positions_data.
Proof.
  unfold get_positions. rewrite value_bind. simpl.
  destruct exchanges as [|name rest].
  - rewrite value_bind. simpl. intros [= <-]. constructor.
  - rewrite value_bind. change (world_of (log LogPositionsRequest w)) with w.
    destruct (value_of (foldM get_positions_for (name :: rest) [] w))
      as [e|pd] eqn:E; [discriminate|].
    rewrite value_bind. simpl. intros [= <-].
    revert E. apply foldM_invariant with (I := well_formed).
    + intros b x w0 b' Hb. now apply get_positions_for_well_formed.
    + constructor.
Qed.

Lemma get_positions_value (exchanges : list string) (w : World) :
  value_of (get_positions exchanges w) = inr (fetched_positions exchanges w).
Proof.
  unfold fetched_positions. destruct (get_positions_returns exchanges w) as [pd E].
  now rewrite E.
Qed.

Lemma fetched_positions_well_formed (exchanges : list string) (w : World) :
  well_formed (fetched_positions exchanges w).
Proof.
  apply (get_positions_well_formed exchanges w). apply get_positions_value.
Qed.

Lemma get_positions_for_reading (positions_data : dict (list record))
    (name : string) :
  emits reading (get_positions_for positions_data name).
Proof.
  intros w. rewrite get_positions_for_outcome. unfold events_of. simpl.
  constructor; [now split|].
  destruct (fst (fetch_positions name w)) as [e|all_positions].
  - constructor; [now split|constructor].
  - destruct (snd (collect_open name all_positions [])) as [e|].
    + constructor; [now split|constructor].
    + constructor.
Qed.

Lemma get_positions_reading (exchanges : list string) :
  emits reading (get_positions exchanges).
Proof.
  unfold get_positions. apply emits_bind; [now apply emits_log|]. intros _.
  destruct exchanges as [|name rest].
  - apply emits_bind; [now apply emits_log | intros; apply emits_ret].
  - apply emits_bind.
    + apply emits_foldM. intros. apply get_positions_for_reading.
    + intros pd. apply emits_bind; [now apply emits_log | intros; apply emits_ret].
Qed.

Lemma reading_no_orders (t : list event) :
  Forall reading t -> order_calls t = [].
Proof.
  induction 1 as [|ev r [H _] _ IH]; [reflexivity|].
  unfold order_calls in *. simpl. now rewrite H.
Qed.

Lemma reading_no_attempts (t : list event) :
  Forall reading t -> close_attempts t = [].
Proof.
  induction 1 as [|ev r [_ H] _ IH]; [reflexivity|].
  unfold close_attempts in *. simpl. now rewrite H.
Qed.

Lemma reading_sized (t : list event) :
  Forall reading t -> Forall sized_order t.
Proof.
  apply Forall_impl. intros [] [H _]; simpl; auto. discriminate.
Qed.

End PositionFacts.

(** ** Closing positions *)

Section CloseFacts.

Context {num : Type} {PN : PyNumber num} {PT : PyText}.
Context {World : Type} {ENV : Environment num World}.

Local Abbreviation M := (M num World).
Local Abbreviation pyval := (pyval num).
Local Abbreviation record := (record num).
Local Abbreviation event := (event num).

Lemma try_except_bind_returned {A B : Type} (c : M A) (k : A -> M B)
    (h : exn -> M B) w a w' t :
  c w = (inr a, w', t) ->
  try_except (bind c k) h w = after t (try_except (k a) h w').
Proof.
  intros E. unfold try_except. rewrite (bind_returned _ _ _ _ _ _ E).
  destruct (k a w') as [[[e|b] w2] t2]; simpl; [|reflexivity].
  unfold after at 1. simpl. now rewrite after_after.
Qed.

Lemma close_first_none (name : string) (symbol : pyval) (positions : list record)
    (w : World) :
  Forall normal positions ->
  find (holds symbol) positions = None ->
  close_first name symbol positions w =
  (inr (Error NoOpenPosition), w, [ELog (LogNoOpenPosition symbol)]).
Proof.
  induction 1 as [|pos rest Hpos Hrest IH]; [reflexivity|].
  cbn [find close_first].
  destruct (holds symbol pos) eqn:E; [discriminate|]. intros Hfind.
  rewrite (normal_symbol _ Hpos), bind_lift.
  unfold holds in E. rewrite E. auto.
Qed.

Lemma close_first_some (name : string) (symbol : pyval) (positions : list record)
    (pos : record) (w : World) :
  Forall normal positions ->
  find (holds symbol) positions = Some pos ->
  let side := closing_side (position_side pos) in
  let contracts := position_contracts pos in
  close_first name symbol positions w =
  bind (call (ECreateMarketOrder name symbol side contracts)
             (create_market_order name symbol side contracts))
       (fun order => log (LogPositionClosed order) ;; ret (Success order)) w.
Proof.
  induction 1 as [|p rest Hp Hrest IH]; [discriminate|].
  cbn [find close_first].
  destruct (holds symbol p) eqn:E; intros Hfind.
  - injection Hfind as ->.
    rewrite (normal_symbol _ Hp), bind_lift.
    unfold holds in E. rewrite E.
    rewrite (normal_side _ Hp), bind_lift.
    rewrite (proj1 (normal_contracts _ Hp)), bind_lift. reflexivity.
  - rewrite (normal_symbol _ Hp), bind_lift.
    unfold holds in E. rewrite E. auto.
Qed.

Lemma get_positions_outcome (exchanges : list string) (w : World) :
  get_positions exchanges w =
  (inr (fetched_positions exchanges w),
   world_of (get_positions exchanges w),
   events_of (get_positions exchanges w)).
Proof.
  rewrite (outcome_eta (get_positions exchanges w)) at 1.
  now rewrite get_positions_value.
Qed.

Lemma close_position_outcome (exchanges : list string) (name : string)
    (symbol : pyval) (w : World) :
  configured name exchanges = true ->
  close_position exchanges name symbol w =
  after (ELog (LogClosing name symbol) :: events_of (get_positions exchanges w))
        (try_except
           (close_first name symbol
              (dict_get_default name (fetched_positions exchanges w) []))
           (fun e => log (LogCloseError e) ;; ret (Error (ExceptionText e)))
           (world_of (get_positions exchanges w))).
Proof.
  intros Hc. unfold close_position. rewrite bind_log, Hc.
  change (negb true) with false. cbv iota.
  rewrite (try_except_bind_returned _ _ _ _ _ _ _ (get_positions_outcome exchanges w)).
  now rewrite after_after.
Qed.

Lemma close_first_quiet (name : string) (symbol : pyval)
    (positions : list record) :
  emits (fun ev => is_close_attempt ev = false)
        (close_first name symbol positions).
Proof.
  induction positions as [|pos rest IH]; cbn [close_first].
  - auto with emits.
  - apply emits_bind; [apply emits_lift|]. intros v.
    destruct (py_eq v symbol); [|assumption].
    repeat (apply emits_bind; [auto with emits|]; intros ?).
    auto with emits.
Qed.

Lemma close_first_sized (name : string) (symbol : pyval)
    (positions : list record) :
  Forall normal positions ->
  emits sized_order (close_first name symbol positions).
Proof.
  induction 1 as [|pos rest Hpos Hrest IH]; cbn [close_first].
  - apply emits_bind; [now apply emits_log | intros; apply emits_ret].
  - intros w. rewrite (normal_symbol _ Hpos), bind_lift.
    destruct (py_eq (position_symbol pos) symbol); [|apply IH].
    rewrite (normal_side _ Hpos), bind_lift.
    destruct (normal_contracts _ Hpos) as [Hc Hgt].
    rewrite Hc, bind_lift. revert w.
    apply emits_bind; [now apply emits_call|]. intros order.
    apply emits_bind; [now apply emits_log | intros; apply emits_ret].
Qed.

Lemma close_position_returns (exchanges : list string) (name : string)
    (symbol : pyval) :
  returns (close_position exchanges name symbol).
Proof.
  unfold close_position. apply returns_bind; [apply returns_log|]. intros _.
  destruct (negb (configured name exchanges)).
  - auto with returns.
  - apply returns_try_except. auto with returns.
Qed.

Lemma close_position_sized (exchanges : list string) (name : string)
    (symbol : pyval) :
  emits sized_order (close_position exchanges name symbol).
Proof.
  unfold close_position. apply emits_bind; [now apply emits_log|]. intros _.
  destruct (negb (configured name exchanges)).
  - apply emits_bind; [now apply emits_log | intros; apply emits_ret].
  - apply emits_try_except.
    + apply emits_bind_value.
      * intros w. apply reading_sized, get_positions_reading.
      * intros w pd Hpd. apply close_first_sized, well_formed_get.
        exact (get_positions_well_formed _ _ _ Hpd).
    + intros e. apply emits_bind; [now apply emits_log | intros; apply emits_ret].
Qed.

(** One [close_position] logs one attempt, at its start. *)
Lemma close_position_attempt (exchanges : list string) (name : string)
    (symbol : pyval) (w : World) :
  close_attempts (events_of (close_position exchanges name symbol w)) =
  [ELog (LogClosing name symbol)].
Proof.
  unfold close_position. rewrite events_bind. simpl value_of. cbv iota.
  change (events_of (log (LogClosing name symbol) w))
    with [ELog (LogClosing name symbol)].
  unfold close_attempts. simpl. f_equal.
  match goal with |- filter _ (events_of (?c _)) = _ =>
    assert (emits (fun ev => is_close_attempt ev = false) c) as H end.
  { destruct (negb (configured name exchanges)).
    - apply emits_bind; [now apply emits_log | intros; apply emits_ret].
    - apply emits_try_except.
      + apply emits_bind.
        * intros w0. eapply Forall_impl; [|apply get_positions_reading].
          now intros ev [_ Hev].
        * intros pd. apply close_first_quiet.
      + intros e. apply emits_bind; [now apply emits_log | intros; apply emits_ret]. }
  specialize (H (world_of (log (LogClosing name symbol) w))).
  induction H as [|ev r Hev _ IH]; [reflexivity|]. simpl. now rewrite Hev.
Qed.

End CloseFacts.

Section CloseClaims.

Context {num : Type} {PN : PyNumber num} {PT : PyText}.
Context {World : Type} {ENV : Environment num World}.

Local Abbreviation pyval := (pyval num).
Local Abbreviation record := (record num).
Local Abbreviation event := (event num).

Lemma order_calls_app (t1 t2 : list event) :
  order_calls (t1 ++ t2) = order_calls t1 ++ order_calls t2.
Proof. apply filter_app. Qed.

Lemma get_positions_no_orders (exchanges : list string) (w : World) :
  order_calls (events_of (get_positions exchanges w)) = [].
Proof. apply reading_no_orders, get_positions_reading. Qed.

(** C7. When the exchange is configured and none of its fetched open
    positions has the requested symbol, [close_position] returns the
    "no open position" error and makes no order-creation call. *)
Theorem close_position_without_position (exchanges : list string)
    (name : string) (symbol : pyval) (w : World) :
  configured name exchanges = true ->
  find (holds symbol)
       (dict_get_default name (fetched_positions exchanges w) []) = None ->
  value_of (close_position exchanges name symbol w) = inr (Error NoOpenPosition) /\
  order_calls (events_of (close_position exchanges name symbol w)) = [].
Proof.
  intros Hc Hfind. rewrite (close_position_outcome _ _ _ _ Hc).
  unfold try_except.
  rewrite (close_first_none name symbol _ _
             (well_formed_get _ name (fetched_positions_well_formed exchanges w))
             Hfind).
  cbv beta iota. rewrite value_after, events_after.
  split; [reflexivity|].
  change (ELog (LogClosing name symbol) :: ?t) with ([ELog (LogClosing name symbol)] ++ t).
  rewrite !order_calls_app, get_positions_no_orders. reflexivity.
Qed.

(** C6, as the code has it. When the exchange is configured and [pos] is
    the first of its fetched open positions with the requested symbol,
    [close_position] makes exactly one order-creation call: a market order
    for the contracts count of [pos], on the side opposite to the side of
    [pos]. A further position with the same symbol gets no order. *)
Theorem close_position_one_market_order (exchanges : list string)
    (name : string) (symbol : pyval) (w : World) (pos : record) :
  configured name exchanges = true ->
  find (holds symbol)
       (dict_get_default name (fetched_positions exchanges w) []) = Some pos ->
  order_calls (events_of (close_position exchanges name symbol w)) =
    [ECreateMarketOrder name symbol (closing_side (position_side pos))
                        (position_contracts pos)] /\
  (position_side pos = PStr "long" \/ position_side pos = PStr "buy" ->
   closing_side (position_side pos) = "sell"%string) /\
  (position_side pos = PStr "short" \/ position_side pos = PStr "sell" ->
   closing_side (position_side pos) = "buy"%string).
Proof.
  intros Hc Hfind. split; [|split].
  - rewrite (close_position_outcome _ _ _ _ Hc).
    unfold try_except.
    rewrite (close_first_some name symbol _ pos _
               (well_formed_get _ name (fetched_positions_well_formed exchanges w))
               Hfind).
    unfold bind, call.
    destruct (create_market_order name symbol (closing_side (position_side pos))
                (position_contracts pos) (world_of (get_positions exchanges w)))
      as [[e|order] w2];
      cbv beta iota; rewrite events_after;
      change (ELog (LogClosing name symbol) :: ?t)
        with ([ELog (LogClosing name symbol)] ++ t);
      rewrite !order_calls_app, get_positions_no_orders; reflexivity.
  - intros [-> | ->]; reflexivity.
  - intros [-> | ->]; reflexivity.
Qed.

End CloseClaims.

Section CloseAllFacts.

Context {num : Type} {PN : PyNumber num} {PT : PyText}.
Context {World : Type} {ENV : Environment num World}.

Local Abbreviation pyval := (pyval num).
Local Abbreviation record := (record num).
Local Abbreviation event := (event num).

Lemma close_attempts_app (t1 t2 : list event) :
  close_attempts (t1 ++ t2) = close_attempts t1 ++ close_attempts t2.
Proof. apply filter_app. Qed.

Lemma close_one_outcome (exchanges : list string) (name : string)
    (results : dict result) (pos : record) (w : World) :
  normal pos ->
  exists res,
    close_one exchanges name results pos w =
    (inr (dict_set (key_of (name, pos)) res results),
     world_of (close_position exchanges name (position_symbol pos) w),
     events_of (close_position exchanges name (position_symbol pos) w)).
Proof.
  intros Hpos. unfold close_one.
  rewrite (normal_symbol _ Hpos), bind_lift.
  destruct (close_position_returns exchanges name (position_symbol pos) w)
    as [res E].
  exists res.
  rewrite (bind_returned _ _ w res _ _
             (eq_trans (outcome_eta _) (f_equal (fun v => (v, _, _)) E))).
  rewrite bind_lift. unfold ret, after. simpl. now rewrite app_nil_r.
Qed.

Lemma close_loop_outcome (exchanges : list string) (name : string)
    (positions : list record) :
  Forall normal positions ->
  forall (results : dict result) (w : World),
  exists results' w' t,
    foldM (close_one exchanges name) positions results w = (inr results', w', t) /\
    keys results' =
      fold_left add_key (map (fun pos => key_of (name, pos)) positions)
                (keys results) /\
    close_attempts t = map (fun pos => attempt_of (name, pos)) positions.
Proof.
  induction 1 as [|pos rest Hpos Hrest IH]; intros results w.
  - exists results, w, []. now repeat split.
  - cbn [foldM map fold_left].
    destruct (close_one_outcome exchanges name results pos w Hpos) as [res E].
    rewrite (bind_returned _ _ _ _ _ _ E).
    destruct (IH (dict_set (key_of (name, pos)) res results)
                 (world_of (close_position exchanges name (position_symbol pos) w)))
      as (results' & w' & t & E' & Hk & Ht).
    rewrite E'. eexists _, _, _. split; [reflexivity|]. split.
    + rewrite Hk. now rewrite keys_dict_set.
    + change (events_of (inr results', w', t)) with t.
      rewrite close_attempts_app, Ht, close_position_attempt. reflexivity.
Qed.

Lemma close_all_loop_outcome (exchanges : list string)
    (positions_data : dict (list record)) :
  well_formed positions_data ->
  forall (results : dict result) (w : World),
  exists results' w' t,
    foldM (fun results '(exchange_name, positions) =>
             foldM (close_one exchanges exchange_name) positions results)
          positions_data results w = (inr results', w', t) /\
    keys results' =
      fold_left add_key (map key_of (discovered positions_data)) (keys results) /\
    close_attempts t = map attempt_of (discovered positions_data).
Proof.
  induction 1 as [|[name positions] rest Hps Hrest IH]; intros results w.
  - exists results, w, []. now repeat split.
  - cbn [foldM discovered flat_map].
    destruct (close_loop_outcome exchanges name positions Hps results w)
      as (r1 & w1 & t1 & E1 & Hk1 & Ht1).
    rewrite (bind_returned _ _ _ _ _ _ E1).
    destruct (IH r1 w1) as (r2 & w2 & t2 & E2 & Hk2 & Ht2).
    rewrite E2. eexists _, _, _. split; [reflexivity|].
    rewrite !map_app, !map_map, fold_left_app. split.
    + rewrite Hk2, Hk1. reflexivity.
    + change (events_of (inr r2, w2, t2)) with t2.
      rewrite close_attempts_app, Ht1, Ht2. reflexivity.
Qed.

Lemma close_results_app (exchanges : list string)
    (l1 l2 : list (string * record)) (w : World) :
  close_results exchanges (l1 ++ l2) w =
  (fst (close_results exchanges l1 w)
   ++ fst (close_results exchanges l2 (snd (close_results exchanges l1 w))),
   snd (close_results exchanges l2 (snd (close_results exchanges l1 w)))).
Proof.
  revert w. induction l1 as [|np rest IH]; intros w.
  - cbn. now destruct (close_results exchanges l2 w).
  - cbn [app close_results].
    rewrite (IH (world_of (close_position exchanges (fst np)
                             (position_symbol (snd np)) w))).
    destruct (close_results exchanges rest _) as [rs w1]. cbn [fst snd].
    now destruct (value_of (close_position exchanges (fst np)
                              (position_symbol (snd np)) w)).
Qed.

Lemma close_one_result (exchanges : list string) (name : string)
    (results : dict result) (pos : record) (w : World) (res : result) :
  normal pos ->
  value_of (close_position exchanges name (position_symbol pos) w) = inr res ->
  close_one exchanges name results pos w =
  (inr (dict_set (key_of (name, pos)) res results),
   world_of (close_position exchanges name (position_symbol pos) w),
   events_of (close_position exchanges name (position_symbol pos) w)).
Proof.
  intros Hpos Hres. unfold close_one.
  rewrite (normal_symbol _ Hpos), bind_lift.
  rewrite (bind_returned _ _ w res _ _
             (eq_trans (outcome_eta _) (f_equal (fun v => (v, _, _)) Hres))).
  rewrite bind_lift. unfold ret, after. simpl. now rewrite app_nil_r.
Qed.

Lemma close_loop_results (exchanges : list string) (name : string)
    (positions : list record) :
  Forall normal positions ->
  forall (results : dict result) (w : World),
  let found := map (fun pos => (name, pos)) positions in
  value_of (foldM (close_one exchanges name) positions results w) =
    inr (record_results (fst (close_results exchanges found w)) results) /\
  world_of (foldM (close_one exchanges name) positions results w) =
    snd (close_results exchanges found w) /\
  map fst (fst (close_results exchanges found w)) = map key_of found.
Proof.
  induction 1 as [|pos rest Hpos Hrest IH]; intros results w found.
  - now repeat split.
  - subst found. cbn [foldM map close_results fst snd].
    destruct (close_position_returns exchanges name (position_symbol pos) w)
      as [res Hres].
    rewrite (bind_returned _ _ _ _ _ _
               (close_one_result exchanges name results pos w res Hpos Hres)).
    rewrite value_after, world_after, Hres.
    destruct (IH (dict_set (key_of (name, pos)) res results)
                 (world_of (close_position exchanges name (position_symbol pos) w)))
      as (Hv & Hw & Hk).
    destruct (close_results exchanges (map (fun pos0 => (name, pos0)) rest) _)
      as [rs w1].
    cbn [fst snd] in *. rewrite Hv, Hw. repeat split. cbn [map fst].
    now rewrite Hk.
Qed.

Lemma close_all_loop_results (exchanges : list string)
    (positions_data : dict (list record)) :
  well_formed positions_data ->
  forall (results : dict result) (w : World),
  let found := discovered positions_data in
  let loop :=
    foldM (fun results '(exchange_name, positions) =>
             foldM (close_one exchanges exchange_name) positions results)
          positions_data results w in
  value_of loop =
    inr (record_results (fst (close_results exchanges found w)) results) /\
  world_of loop = snd (close_results exchanges found w) /\
  map fst (fst (close_results exchanges found w)) = map key_of found.
Proof.
  induction 1 as [|[name positions] rest Hps Hrest IH]; intros results w.
  - now repeat split.
  - cbn [foldM discovered flat_map]. fold (discovered rest).
    destruct (close_loop_outcome exchanges name positions Hps results w)
      as (r1 & w1 & t1 & E1 & _ & _).
    destruct (close_loop_results exchanges name positions Hps results w)
      as (Hv1 & Hw1 & Hk1).
    rewrite E1 in Hv1, Hw1. cbn [value_of world_of fst snd] in Hv1, Hw1.
    injection Hv1 as ->. subst w1.
    rewrite (bind_returned _ _ _ _ _ _ E1), value_after, world_after.
    destruct (IH (record_results
                    (fst (close_results exchanges
                            (map (fun pos => (name, pos)) positions) w)) results)
                 (snd (close_results exchanges
                         (map (fun pos => (name, pos)) positions) w)))
      as (Hv2 & Hw2 & Hk2).
    rewrite close_results_app. cbn [fst snd].
    rewrite Hv2, Hw2. repeat split.
    + unfold record_results. now rewrite fold_left_app.
    + now rewrite !map_app, Hk1, Hk2.
Qed.

Lemma dict_get_record_results (k : string)
    (rs : list (string * result (num := num))) :
  forall results : dict result,
  dict_get k (record_results rs results) =
  match last_result k rs with
  | Some r => Some r
  | None => dict_get k results
  end.
Proof.
  induction rs as [|[k' r] rest IH]; intros results; [reflexivity|].
  unfold record_results in *. cbn [fold_left last_result fst snd].
  rewrite IH. destruct (last_result k rest); [reflexivity|].
  destruct (String.eqb_spec k' k) as [->|Hne].
  - apply dict_get_set_same.
  - apply dict_get_set_other. congruence.
Qed.

Lemma close_one_sized (exchanges : list string) (name : string)
    (results : dict result) (pos : record) :
  emits sized_order (close_one exchanges name results pos).
Proof.
  unfold close_one. apply emits_bind; [apply emits_lift|]. intros symbol.
  apply emits_bind; [apply close_position_sized|]. intros res.
  apply emits_bind; [apply emits_lift|]. intros symbol'. apply emits_ret.
Qed.

Lemma close_all_positions_sized (exchanges : list string) :
  emits sized_order (close_all_positions exchanges).
Proof.
  unfold close_all_positions.
  apply emits_bind; [now apply emits_log|]. intros _.
  apply emits_bind.
  { intros w. apply reading_sized, get_positions_reading. }
  intros pd. apply emits_bind.
  - apply emits_foldM. intros results [name positions] _.
    apply emits_foldM. intros. apply close_one_sized.
  - intros results.
    apply emits_bind; [now apply emits_log | intros; apply emits_ret].
Qed.

Lemma same_members_length (l1 l2 : list string) :
  NoDup l1 -> NoDup l2 -> (forall k, In k l1 <-> In k l2) ->
  length l1 = length l2.
Proof.
  intros H1 H2 H. apply Nat.le_antisymm.
  - apply NoDup_incl_length; [assumption|]. intros k. apply H.
  - apply NoDup_incl_length; [assumption|]. intros k. apply H.
Qed.

(** C4, as the code has it. With the positions found by its first
    [get_positions], [close_all_positions] starts one [close_position] per
    position found, in order, and returns a result dictionary with one
    entry per distinct key [exchange_symbol]: as many entries as positions
    when no two positions share a key, fewer otherwise. Each call gives a
    result, the results are written into the dictionary in the order of
    the calls, and the entry of a key is the result of the last call with
    that key: a later result replaces an earlier one. *)
Theorem close_all_positions_attempts (exchanges : list string) (w : World) :
  let found := discovered (fetched_positions exchanges w) in
  let attempts :=
    fst (close_results exchanges found (world_of (get_positions exchanges w))) in
  exists results,
    value_of (close_all_positions exchanges w) = inr results /\
    close_attempts (events_of (close_all_positions exchanges w)) =
      map attempt_of found /\
    length (close_attempts (events_of (close_all_positions exchanges w))) =
      length found /\
    (forall k, In k (keys results) <-> In k (map key_of found)) /\
    length results = length (nodup string_dec (map key_of found)) /\
    (length results <= length found)%nat /\
    (NoDup (map key_of found) -> length results = length found) /\
    map fst attempts = map key_of found /\
    results = record_results attempts [] /\
    (forall k, dict_get k results = last_result k attempts).
Proof.
  intros found attempts. unfold close_all_positions.
  destruct (close_all_loop_results exchanges (fetched_positions exchanges w)
              (fetched_positions_well_formed exchanges w) []
              (world_of (get_positions exchanges w)))
    as (Hval & _ & Hkeys).
  destruct (close_all_loop_outcome exchanges (fetched_positions exchanges w)
              (fetched_positions_well_formed exchanges w) []
              (world_of (get_positions exchanges w)))
    as (results & w' & t & E & Hk & Ht).
  exists results.
  rewrite bind_log, (bind_returned _ _ _ _ _ _ (get_positions_outcome exchanges w)).
  rewrite (bind_returned _ _ _ _ _ _ E), bind_log.
  rewrite !value_after, !events_after.
  assert (close_attempts
            ([ELog LogClosingAll] ++ events_of (get_positions exchanges w) ++
             t ++ [ELog LogAllClosed] ++ events_of (ret (num := num) results w'))
          = map attempt_of found) as Ha.
  { rewrite !close_attempts_app.
    rewrite (reading_no_attempts _ (get_positions_reading exchanges w)), Ht.
    simpl. now rewrite app_nil_r. }
  assert (forall k, In k (keys results) <-> In k (map key_of found)) as Hin.
  { intros k. rewrite Hk, add_keys_In. simpl. tauto. }
  assert (NoDup (keys results)) as Hnd.
  { rewrite Hk. apply add_keys_NoDup. constructor. }
  assert (length results = length (keys results)) as Hlen.
  { unfold keys. now rewrite length_map. }
  split; [reflexivity|]. split; [exact Ha|]. split.
  { rewrite Ha. apply length_map. }
  split; [exact Hin|]. split.
  { rewrite Hlen. apply same_members_length; [assumption | apply NoDup_nodup|].
    intros k. rewrite nodup_In. apply Hin. }
  split.
  { rewrite Hlen, Hk.
    pose proof (add_keys_length_le (map key_of found) []) as H.
    rewrite length_map in H. exact H. }
  split.
  { intros Hn. rewrite Hlen, Hk.
    rewrite (add_keys_length_fresh (map key_of found) []) by exact Hn.
    now rewrite length_map. }
  rewrite E in Hval. cbn [value_of fst] in Hval. injection Hval as Hval.
  split; [exact Hkeys|]. split; [exact Hval|].
  intros k. rewrite Hval, dict_get_record_results.
  unfold attempts, found. now destruct (last_result k _).
Qed.

(** C10. [get_positions] never raises, and every position it returns has
    a contracts count that is greater than 0: a reported position without
    a contracts count, or with a count that is not greater than 0, is
    skipped. The market orders of [close_position] and
    [close_all_positions] are all for a count greater than 0. *)
Theorem returned_positions_are_open (exchanges : list string) (w : World) :
  value_of (get_positions exchanges w) = inr (fetched_positions exchanges w) /\
  (forall name positions pos,
     In (name, positions) (fetched_positions exchanges w) ->
     In pos positions ->
     py_getitem (PDict pos) "contracts" = inr (position_contracts pos) /\
     py_gt0 (position_contracts pos) = inr true) /\
  (forall name (pos : record) rest found,
     dict_get "contracts" pos = None \/
     (exists v, dict_get "contracts" pos = Some v /\ py_gt0 v = inr false) ->
     collect_open name (pos :: rest) found = collect_open name rest found) /\
  (forall name symbol,
     Forall sized_order (events_of (close_position exchanges name symbol w))) /\
  Forall sized_order (events_of (close_all_positions exchanges w)).
Proof.
  split; [apply get_positions_value|]. split; [|split; [|split]].
  - intros name positions pos Hin Hpos.
    pose proof (fetched_positions_well_formed exchanges w) as H.
    unfold well_formed in H. rewrite Forall_forall in H.
    specialize (H _ Hin). simpl in H. rewrite Forall_forall in H.
    apply normal_contracts. now apply H.
  - intros name pos rest found [H | (v & H & Hv)].
    + now apply collect_open_missing.
    + now apply (collect_open_zero name pos rest found v).
  - intros name symbol. apply close_position_sized.
  - apply close_all_positions_sized.
Qed.

End CloseAllFacts.

(** ** Reading from every exchange *)

Section FanOutFacts.

Context {num : Type} {PN : PyNumber num} {PT : PyText}.
Context {World : Type} {ENV : Environment num World}.

Local Abbreviation pyval := (pyval num).
Local Abbreviation record := (record num).
Local Abbreviation event := (event num).

Lemma position_replies_names (exchanges : list string) (w : World) :
  map fst (fst (position_replies exchanges w)) = exchanges.
Proof.
  revert w. induction exchanges as [|name rest IH]; intros w; simpl.
  - reflexivity.
  - destruct (fetch_positions name w) as [r w'].
    specialize (IH w'). destruct (position_replies rest w') as [l w''].
    simpl in *. now rewrite IH.
Qed.

Lemma get_positions_loop (exchanges : list string) :
  NoDup exchanges ->
  forall (positions_data : dict (list record)) (w : World),
  (forall name, In name exchanges -> ~ In name (keys positions_data)) ->
  value_of (foldM get_positions_for exchanges positions_data w) =
    inr (positions_data ++ map kept (fst (position_replies exchanges w))) /\
  world_of (foldM get_positions_for exchanges positions_data w) =
    snd (position_replies exchanges w).
Proof.
  induction 1 as [|name rest Hname Hrest IH]; intros pd w Hfresh.
  - simpl. now rewrite app_nil_r.
  - cbn [foldM position_replies].
    pose proof (get_positions_for_outcome pd name w) as E. cbv zeta in E.
    rewrite (bind_returned _ _ _ _ _ _ E), value_after, world_after. clear E.
    destruct (fetch_positions name w) as [r w1]. cbn [fst snd].
    assert (~ In name (keys pd)) as Hn by (apply Hfresh; now left).
    rewrite (dict_set_fresh name [] pd Hn), (dict_set_last name _ [] pd Hn).
    destruct (IH (pd ++ [(name, open_positions name r)]) w1) as [Hv Hw].
    { intros m Hm. unfold keys. rewrite map_app, in_app_iff. simpl.
      intros [Hin | [<- | []]].
      - apply (Hfresh m); [now right | exact Hin].
      - contradiction. }
    rewrite Hv, Hw. destruct (position_replies rest w1) as [l w2]. simpl.
    now rewrite <- app_assoc.
Qed.

Lemma fetched_positions_replies (exchanges : list string) (w : World) :
  NoDup exchanges ->
  fetched_positions exchanges w = map kept (fst (position_replies exchanges w)).
Proof.
  intros Hn. unfold fetched_positions, get_positions.
  rewrite value_bind. simpl value_of at 1. cbv iota.
  change (world_of (log LogPositionsRequest w)) with w.
  destruct exchanges as [|name rest]; [reflexivity|].
  rewrite value_bind.
  destruct (get_positions_loop (name :: rest) Hn [] w) as [Hv _].
  { intros m _ []. }
  rewrite Hv. reflexivity.
Qed.

Lemma dict_get_member {V : Type} (k : string) (v : V) (d : dict V) :
  NoDup (keys d) -> In (k, v) d -> dict_get k d = Some v.
Proof.
  induction d as [|[k' v'] r IH]; simpl; intros Hn Hin; [contradiction|].
  inversion Hn as [|? ? Hk Hr]; subst.
  destruct Hin as [[= -> ->] | Hin].
  - now rewrite String.eqb_refl.
  - destruct (String.eqb_spec k' k) as [->|]; [|auto].
    exfalso. apply Hk. unfold keys. now apply (in_map fst _ (k, v)).
Qed.

Lemma summary_for_outcome (positions_data : dict (list record)) (stats : summary)
    (name : string) (w : World) :
  value_of (summary_for positions_data stats name w) =
    inr (contribute positions_data stats (name, fst (fetch_balance name w))) /\
  world_of (summary_for positions_data stats name w) = snd (fetch_balance name w).
Proof.
  unfold summary_for, bind, attempt, call, contribute.
  destruct (fetch_balance name w) as [[e|account_balance] w']; simpl.
  - now split.
  - destruct (account_totals (dict_get_default name positions_data []) stats
                account_balance) as [stats' [e|]]; now split.
Qed.

Lemma summary_loop (positions_data : dict (list record))
    (exchanges : list string) :
  forall (stats : summary) (w : World),
  value_of (foldM (summary_for positions_data) exchanges stats w) =
    inr (fold_left (contribute positions_data)
                   (fst (balance_replies exchanges w)) stats).
Proof.
  induction exchanges as [|name rest IH]; intros stats w; [reflexivity|].
  cbn [foldM balance_replies]. rewrite value_bind.
  destruct (summary_for_outcome positions_data stats name w) as [Hv Hw].
  rewrite Hv, Hw, IH.
  destruct (fetch_balance name w) as [r w1]. simpl.
  now destruct (balance_replies rest w1) as [l w2].
Qed.

Lemma contribute_replied (positions_data : dict (list record))
    (l : list (string * (exn + pyval))) :
  forall stats,
  fold_left (contribute positions_data) l stats =
  fold_left (contribute positions_data) (filter replied l) stats.
Proof.
  induction l as [|[name [e|b]] r IH]; intros stats.
  - reflexivity.
  - apply IH.
  - apply IH.
Qed.

Lemma calculate_summary_stats_value (exchanges : list string) (w : World) :
  value_of (calculate_summary_stats exchanges w) =
  inr (fold_left (contribute (fetched_positions exchanges w))
         (fst (balance_replies exchanges (world_of (get_positions exchanges w))))
         summary_zero).
Proof.
  unfold calculate_summary_stats. rewrite bind_log, value_after.
  destruct exchanges as [|name rest]; [reflexivity|].
  rewrite (bind_returned _ _ _ _ _ _ (get_positions_outcome (name :: rest) w)).
  rewrite value_after, value_bind, summary_loop. reflexivity.
Qed.

(** C9, as the code has it. A client that raises in its
    [fetch_positions] gets the empty list in the result of
    [get_positions], and every other exchange gets the open positions of
    its own reply; a client that raises in its [fetch_balance] adds nothing
    to the totals of [calculate_summary_stats], which are those of the
    exchanges that replied, and a client whose [fetch_positions] raised
    adds no position to them, but still its balance. Neither call
    raises. *)
Theorem fan_out_partial_results (exchanges : list string) (w : World) :
  NoDup exchanges ->
  let replies := fst (position_replies exchanges w) in
  let positions_data := fetched_positions exchanges w in
  let balances :=
    fst (balance_replies exchanges (world_of (get_positions exchanges w))) in
  value_of (get_positions exchanges w) = inr positions_data /\
  (forall name e, In (name, inl e) replies ->
                  dict_get name positions_data = Some []) /\
  (forall name all_positions, In (name, inr all_positions) replies ->
     dict_get name positions_data =
     Some (fst (collect_open name all_positions []))) /\
  value_of (calculate_summary_stats exchanges w) =
    inr (fold_left (contribute positions_data) (filter replied balances)
                   summary_zero) /\
  (forall stats name e,
     contribute positions_data stats (name, inl e) = stats) /\
  (forall stats name e account_balance,
     In (name, inl e) replies ->
     contribute positions_data stats (name, inr account_balance) =
     match add_balance stats account_balance with
     | inr stats' => stats'
     | inl _ => stats
     end).
Proof.
  intros Hn replies positions_data balances.
  assert (forall name r, In (name, r) replies ->
            dict_get name positions_data = Some (open_positions name r)) as H.
  { intros name r Hin. unfold positions_data.
    rewrite (fetched_positions_replies exchanges w Hn).
    apply dict_get_member.
    - unfold keys. rewrite map_map. simpl.
      change (map (fun x => fst x) replies) with (map fst replies).
      unfold replies. now rewrite position_replies_names.
    - apply (in_map kept _ (name, r)). exact Hin. }
  split; [apply get_positions_value|]. split; [|split; [|split]].
  - intros name e Hin. exact (H name (inl e) Hin).
  - intros name all_positions Hin. exact (H name (inr all_positions) Hin).
  - rewrite calculate_summary_stats_value. now rewrite <- contribute_replied.
  - split; [reflexivity|].
    intros stats name e account_balance Hin.
    unfold contribute, account_totals, dict_get_default. cbn [fst snd].
    rewrite (H name (inl e) Hin). cbn [open_positions].
    now destruct (add_balance stats account_balance).
Qed.

End FanOutFacts.

(** ** The portfolio summary *)

Section SummaryFacts.

Context {num : Type} {PN : PyNumber num} {PT : PyText}.
Context {World : Type} {ENV : Environment num World}.

Local Abbreviation pyval := (pyval num).
Local Abbreviation record := (record num).

Lemma sum_positions_margin (positions : list record) :
  Forall normal positions ->
  forall stats,
  margin_used (fst (sum_positions stats positions)) = margin_used stats.
Proof.
  induction 1 as [|pos rest Hpos Hrest IH]; intros stats; [reflexivity|].
  cbn [sum_positions].
  destruct (py_add (total_pnl stats)
              (dict_get_default "unrealized_pnl" pos (PNum nzero))) as [e|pnl];
    [reflexivity|].
  rewrite (normal_marginRatio _ Hpos). cbn [is_none]. now rewrite IH.
Qed.

Lemma add_balance_margin (stats stats' : summary) (account_balance : pyval) :
  add_balance stats account_balance = inr stats' ->
  margin_used stats' = margin_used stats.
Proof.
  unfold add_balance.
  destruct (py_get account_balance "USDT" (PDict [])) as [e|usdt]; [discriminate|].
  destruct (py_get usdt "total" (PNum nzero)) as [e|total]; [discriminate|].
  destruct (py_add (portfolio_value stats) total) as [e|v]; [discriminate|].
  now intros [= <-].
Qed.

Lemma contribute_margin (positions_data : dict (list record)) (stats : summary)
    (nr : string * (exn + pyval)) :
  well_formed positions_data ->
  margin_used (contribute positions_data stats nr) = margin_used stats.
Proof.
  intros Hwf. unfold contribute, account_totals.
  destruct (snd nr) as [e|account_balance]; [reflexivity|].
  destruct (add_balance stats account_balance) as [e|stats'] eqn:E; [reflexivity|].
  rewrite sum_positions_margin by now apply well_formed_get.
  exact (add_balance_margin _ _ _ E).
Qed.

(** Whatever the exchanges report, [calculate_summary_stats] returns 0 as
    the margin used: no returned position has the key [marginRatio]. *)
Lemma margin_used_is_zero (exchanges : list string) (w : World) :
  exists stats,
    value_of (calculate_summary_stats exchanges w) = inr stats /\
    margin_used stats = nzero.
Proof.
  rewrite calculate_summary_stats_value. eexists. split; [reflexivity|].
  pose proof (fetched_positions_well_formed exchanges w) as Hwf.
  generalize (fst (balance_replies exchanges (world_of (get_positions exchanges w)))).
  intros l. assert (margin_used (summary_zero (num := num)) = nzero) as H0 by reflexivity.
  revert H0. generalize (summary_zero (num := num)).
  induction l as [|nr r IH]; intros stats Hs; [exact Hs|].
  simpl. apply IH. now rewrite contribute_margin.
Qed.

End SummaryFacts.

(** ** Signals *)

Section SignalFacts.

Context {num : Type} {PN : PyNumber num} {PT : PyText}.
Context {World : Type} {ENV : Environment num World}.

Local Abbreviation M := (M num World).
Local Abbreviation pyval := (pyval num).
Local Abbreviation event := (event num).

Lemma try_except_raised {A : Type} (c : M A) (h : exn -> M A) w e w' t :
  c w = (inl e, w', t) -> try_except c h w = after t (h e w').
Proof. unfold try_except. now intros ->. Qed.

Lemma process_signal_returns (exchanges : list string) (data : pyval) :
  returns (process_signal exchanges data).
Proof. unfold process_signal. apply returns_try_except. auto with returns. Qed.

Lemma first_missing_none (d : dict pyval) ex sy sd ot q :
  signal_fields d ex sy sd ot q ->
  first_missing (PDict d) required_fields = inr None.
Proof.
  intros (H1 & H2 & H3 & H4 & H5).
  unfold required_fields. cbn [first_missing py_contains]. unfold dict_mem.
  now rewrite H1, H2, H3, H4, H5.
Qed.

(** The three outcomes of lines 91-95. *)
Lemma float_field_outcome (d : dict pyval) (key : string) (v : pyval)
    (complaint : log_msg num) (w : World) :
  dict_get key d = Some v ->
  float_field (PDict d) key complaint w =
  match py_float v with
  | inr x => (inr (Some x), w, [])
  | inl e =>
      if is_ValueError e then (inr None, w, [ELog complaint]) else (inl e, w, [])
  end.
Proof.
  intros H. unfold float_field, try_except, bind, lift. cbn [py_getitem].
  rewrite H. cbv beta iota.
  destruct (py_float v) as [e|x]; [|reflexivity].
  cbv beta iota. unfold after. simpl. now destruct (is_ValueError e).
Qed.

Lemma process_signal_fields (exchanges : list string) (d : dict pyval)
    ex sy sd ot q (w : World) :
  signal_fields d ex sy sd ot q ->
  process_signal exchanges (PDict d) w =
  try_except
    (quantity <- float_field (PDict d) "QUANTITY" LogInvalidQuantity ;;
     match quantity with
     | None => ret tt
     | Some x =>
         validate_and_place exchanges (PDict d) (str_lower ex) sy
                            (str_lower sd) (str_lower ot) x
     end)
    (fun e => log (LogSignalError e)) w.
Proof.
  intros H. unfold process_signal, try_except.
  rewrite (bind_lift_eq _ _ _ _ (first_missing_none _ _ _ _ _ _ H)).
  destruct H as (H1 & H2 & H3 & H4 & H5).
  cbn [py_getitem py_lower]. rewrite H1, H2, H3, H4.
  repeat (rewrite bind_lift; cbn [py_lower]). reflexivity.
Qed.

End SignalFacts.

Section SignalClaims.

Context {num : Type} {PN : PyNumber num} {PT : PyText}.
Context {World : Type} {ENV : Environment num World}.

Local Abbreviation M := (M num World).
Local Abbreviation pyval := (pyval num).
Local Abbreviation event := (event num).

Lemma float_field_emits (P : event -> Prop) (data : pyval) (key : string)
    (complaint : log_msg num) :
  P (ELog complaint) ->
  emits P (float_field (World := World) data key complaint).
Proof.
  intros H. unfold float_field. apply emits_try_except.
  - repeat (apply emits_bind; [apply emits_lift|]; intros ?). apply emits_ret.
  - intros e. destruct (is_ValueError e).
    + apply emits_bind; [now apply emits_log | intros; apply emits_ret].
    + apply emits_raise.
Qed.

Lemma validate_and_place_emits (P : event -> Prop) (exchanges : list string)
    (data : pyval) (exchange_name : string) (symbol : pyval)
    (side order_type : string) (quantity : num) :
  (forall m, m <> LogInvalidQuantity -> P (ELog m)) ->
  (forall a b c d e f, P (ECreateOrder a b c d e f)) ->
  emits P (validate_and_place exchanges data exchange_name symbol side
                              order_type quantity).
Proof.
  intros Hlog Hcall. unfold validate_and_place.
  destruct (negb _).
  { apply emits_log, Hlog. discriminate. }
  apply emits_bind.
  { unfold read_price. destruct (String.eqb order_type "limit"); [|apply emits_ret].
    apply emits_bind; [apply emits_lift|]. intros present.
    destruct (negb present).
    - apply emits_bind; [|intros; apply emits_ret].
      apply emits_log, Hlog. discriminate.
    - apply emits_bind.
      + apply float_field_emits, Hlog. discriminate.
      + intros [price|]; apply emits_ret. }
  intros [price|]; [|apply emits_ret].
  unfold place_order. destruct (negb _).
  { apply emits_log, Hlog. discriminate. }
  apply emits_bind; [apply emits_log, Hlog; discriminate|]. intros _.
  destruct (String.eqb order_type "limit").
  { destruct price as [p|]; [|apply emits_raise].
    apply emits_bind; [apply emits_call, Hcall|]. intros order.
    apply emits_log, Hlog. discriminate. }
  destruct (String.eqb order_type "market").
  { apply emits_bind; [apply emits_call, Hcall|]. intros order.
    apply emits_log, Hlog. discriminate. }
  apply emits_log, Hlog. discriminate.
Qed.

(** C3, as the code has it. For a payload with the required keys,
    [process_signal] reports an invalid quantity exactly when
    [float(QUANTITY)] raises [ValueError]; any exception of [float] ends
    the processing with that one log line and no call to an exchange; a
    value that [float] accepts, finite or not, goes on to the other
    checks. *)
Theorem quantity_validation (exchanges : list string) (d : dict pyval)
    (ex : string) (sy : pyval) (sd ot : string) (q : pyval) (w : World) :
  signal_fields d ex sy sd ot q ->
  let t := events_of (process_signal exchanges (PDict d) w) in
  (In (ELog LogInvalidQuantity) t <->
   exists e, py_float q = inl e /\ is_ValueError e = true) /\
  (forall e, py_float q = inl e ->
     t = [ELog (if is_ValueError e then LogInvalidQuantity
                else LogSignalError e)] /\
     exchange_calls t = []) /\
  (forall x, py_float q = inr x ->
     process_signal exchanges (PDict d) w =
     try_except
       (validate_and_place exchanges (PDict d) (str_lower ex) sy
                           (str_lower sd) (str_lower ot) x)
       (fun e => log (LogSignalError e)) w).
Proof.
  intros H t. subst t. rewrite (process_signal_fields _ _ _ _ _ _ _ _ H).
  pose proof (float_field_outcome d "QUANTITY" q LogInvalidQuantity w
                (proj2 (proj2 (proj2 (proj2 H))))) as E.
  destruct (py_float q) as [e|x] eqn:Eq.
  - assert (events_of
              (try_except
                 (quantity <- float_field (PDict d) "QUANTITY" LogInvalidQuantity ;;
                  match quantity with
                  | None => ret tt
                  | Some x =>
                      validate_and_place exchanges (PDict d) (str_lower ex) sy
                        (str_lower sd) (str_lower ot) x
                  end)
                 (fun e => log (LogSignalError e)) w)
            = [ELog (if is_ValueError e then LogInvalidQuantity
                     else LogSignalError e)]) as Ht.
    { destruct (is_ValueError e).
      - now rewrite (try_except_bind_returned _ _ _ _ _ _ _ E).
      - rewrite (try_except_raised _ _ _ _ _ _ (bind_raised _ _ _ _ _ _ E)).
        reflexivity. }
    rewrite Ht. split; [|split].
    + split.
      * intros Hin. exists e. split; [reflexivity|].
        destruct (is_ValueError e) eqn:Ev; [reflexivity|].
        exfalso. revert Hin. simpl. intros [[=]|[]].
      * intros (e' & [= <-] & Hv). rewrite Hv. now left.
    + intros e' [= <-]. split; [reflexivity|]. now destruct (is_ValueError e).
    + discriminate.
  - rewrite (try_except_bind_returned _ _ _ _ _ _ _ E), after_nil.
    split; [|split].
    + split.
      * intros Hin. exfalso.
        assert (emits (fun ev => ev <> ELog LogInvalidQuantity)
                  (try_except
                     (validate_and_place exchanges (PDict d) (str_lower ex) sy
                        (str_lower sd) (str_lower ot) x)
                     (fun e => log (LogSignalError e)))) as Hem.
        { apply emits_try_except.
          - apply validate_and_place_emits.
            + intros m Hm [= ->]. now apply Hm.
            + discriminate.
          - intros e. apply emits_log. discriminate. }
        specialize (Hem w). rewrite Forall_forall in Hem.
        now apply (Hem _ Hin).
      * intros (e & [=] & _).
    + discriminate.
    + now intros x' [= <-].
Qed.

Lemma process_signal_accepted (exchanges : list string) (d : dict pyval)
    (ex : string) (sy : pyval) (sd ot : string) (q : pyval) (x : num)
    (w : World) :
  signal_fields d ex sy sd ot q ->
  py_float q = inr x ->
  process_signal exchanges (PDict d) w =
  try_except
    (validate_and_place exchanges (PDict d) (str_lower ex) sy
                        (str_lower sd) (str_lower ot) x)
    (fun e => log (LogSignalError e)) w.
Proof.
  intros H Hq. rewrite (process_signal_fields _ _ _ _ _ _ _ _ H).
  pose proof (float_field_outcome d "QUANTITY" q LogInvalidQuantity w
                (proj2 (proj2 (proj2 (proj2 H))))) as E.
  rewrite Hq in E.
  now rewrite (try_except_bind_returned _ _ _ _ _ _ _ E), after_nil.
Qed.

(** C5, as the code has it. For a payload with the required keys, a valid
    side and a quantity that [float] accepts, an order type that is
    neither "market" nor "limit" is reported as unsupported when the
    exchange is configured; when it is not, the missing exchange is
    reported instead. No order is created in either case. *)
Theorem unsupported_order_type (exchanges : list string) (d : dict pyval)
    (ex : string) (sy : pyval) (sd ot : string) (q : pyval) (x : num)
    (w : World) :
  signal_fields d ex sy sd ot q ->
  py_float q = inr x ->
  str_lower sd = "buy"%string \/ str_lower sd = "sell"%string ->
  str_lower ot <> "market"%string ->
  str_lower ot <> "limit"%string ->
  let t := events_of (process_signal exchanges (PDict d) w) in
  t = (if configured (str_lower ex) exchanges
       then [ELog (LogPlacingOrder (str_lower ex) (PDict d));
             ELog (LogUnsupportedOrderType (str_lower ot))]
       else [ELog (LogExchangeNotConfigured (str_lower ex))]) /\
  order_calls t = [].
Proof.
  intros H Hq Hside Hmarket Hlimit t. subst t.
  rewrite (process_signal_accepted _ _ _ _ _ _ _ _ _ H Hq).
  apply String.eqb_neq in Hmarket, Hlimit.
  assert (negb (String.eqb (str_lower sd) "buy"
                || String.eqb (str_lower sd) "sell") = false) as Hs.
  { destruct Hside as [-> | ->]; reflexivity. }
  unfold validate_and_place, read_price, place_order, try_except.
  rewrite Hs, Hlimit, Hmarket, bind_ret.
  destruct (configured (str_lower ex) exchanges); split; reflexivity.
Qed.

(** C8, as the code has it. A webhook request whose body is a JSON
    object, with the configured PIN when one is configured, is answered
    with [{"status": "ok"}] and 200, whatever [process_signal] does with
    the payload and whatever the exchange replies. *)
Theorem webhook_acknowledges (cfg : config) (d : dict pyval) (w : World) :
  webhook_pin cfg = EmptyString \/
  dict_get "PIN" d = Some (PStr (webhook_pin cfg)) ->
  value_of (trade_signal cfg (inr (PDict d)) w) = inr (StatusOk, 200%nat).
Proof.
  intros Hpin. unfold trade_signal. rewrite value_try_except, value_bind.
  cbn [lift value_of world_of fst snd is_none py_get].
  rewrite value_bind. cbn [lift value_of world_of fst snd].
  assert ((negb (String.eqb (webhook_pin cfg) EmptyString)
           && negb (py_eq_str (dict_get_default "PIN" d (PStr EmptyString))
                              (webhook_pin cfg)))%bool = false) as Hc.
  { destruct Hpin as [-> | Hp]; [reflexivity|].
    unfold dict_get_default. rewrite Hp. cbn [py_eq_str].
    rewrite String.eqb_refl. apply andb_false_r. }
  rewrite Hc, value_bind. cbn [log emit value_of world_of fst snd].
  rewrite value_bind.
  destruct (process_signal_returns (signal_exchanges cfg) (PDict d) w) as [[] E].
  rewrite E. reflexivity.
Qed.

(** A body that is not a JSON object: null is answered with 400, and a
    list, a number or a text with 500, before the signal is looked at. *)
Lemma webhook_without_object (cfg : config) (body : pyval) (w : World) :
  match body with
  | PNone =>
      trade_signal cfg (inr body) w =
      (inr (ErrorNoJson, 400%nat), w, [ELog LogEmptyJson])
  | PDict _ => True
  | _ =>
      trade_signal cfg (inr body) w =
      (inr (ErrorException AttributeError, 500%nat), w,
       [ELog (LogWebhookError AttributeError)])
  end.
Proof. destruct body; reflexivity || exact I. Qed.

End SignalClaims.

(** ** The mailbox *)

Section EmailClaims.

Context {num : Type} {PN : PyNumber num} {PT : PyText}.
Context {World : Type} {ENV : Environment num World}.

Local Abbreviation M := (M num World).
Local Abbreviation pyval := (pyval num).
Local Abbreviation event := (event num).

Lemma parse_email_subject_outcome (subject rest : string) (v : pyval) (w : World) :
  Text.strip_prefix "Alert:" (str_strip subject) = Some rest ->
  json_loads (json_part rest) = inr v ->
  parse_email_subject subject w =
  (inr v, w, [ELog (LogCheckingSubject (str_strip subject))]).
Proof.
  intros Hp Hj. unfold parse_email_subject. rewrite bind_log, Hp.
  unfold try_except, lift. now rewrite Hj.
Qed.


End EmailClaims.

(** ** More on signals *)

Section MoreSignalFacts.

Context {num : Type} {PN : PyNumber num} {PT : PyText}.
Context {World : Type} {ENV : Environment num World}.

Local Abbreviation M := (M num World).
Local Abbreviation pyval := (pyval num).
Local Abbreviation event := (event num).

Lemma exchange_calls_app (t1 t2 : list event) :
  exchange_calls (t1 ++ t2) = exchange_calls t1 ++ exchange_calls t2.
Proof. apply filter_app. Qed.

(** *** Counting the calls *)

Lemma calls_weaken {A : Type} (a b : nat) (c : M A) :
  (a <= b)%nat -> calls_at_most a c -> calls_at_most b c.
Proof. intros Hab Hc w. specialize (Hc w). lia. Qed.

Lemma calls_ret {A : Type} (a : A) : calls_at_most 0 (ret (World := World) (num := num) a).
Proof. intros w. apply Nat.le_refl. Qed.

Lemma calls_lift {A : Type} (r : exn + A) :
  calls_at_most 0 (lift (World := World) (num := num) r).
Proof. intros w. apply Nat.le_refl. Qed.

Lemma calls_raise {A : Type} (e : exn) :
  calls_at_most 0 (raise (A := A) (World := World) (num := num) e).
Proof. intros w. apply Nat.le_refl. Qed.

Lemma calls_log (m : log_msg num) : calls_at_most 0 (log (World := World) m).
Proof. intros w. apply Nat.le_refl. Qed.

Lemma calls_call {A : Type} (ev : event) (op : reply World A) :
  calls_at_most 1 (call ev op).
Proof.
  intros w. unfold call. destruct (op w) as [r w']. unfold exchange_calls.
  simpl. destruct (is_exchange_call ev); simpl; lia.
Qed.

Lemma calls_bind {A B : Type} (a b : nat) (c : M A) (k : A -> M B) :
  calls_at_most a c -> (forall x, calls_at_most b (k x)) ->
  calls_at_most (a + b) (bind c k).
Proof.
  intros Hc Hk w. rewrite events_bind, exchange_calls_app, length_app.
  specialize (Hc w). destruct (value_of (c w)) as [e|x].
  - simpl. lia.
  - specialize (Hk x (world_of (c w))). lia.
Qed.

Lemma calls_try_except {A : Type} (a b : nat) (c : M A) (h : exn -> M A) :
  calls_at_most a c -> (forall e, calls_at_most b (h e)) ->
  calls_at_most (a + b) (try_except c h).
Proof.
  intros Hc Hh w. rewrite events_try_except, exchange_calls_app, length_app.
  specialize (Hc w). destruct (value_of (c w)) as [e|x].
  - specialize (Hh e (world_of (c w))). lia.
  - simpl. lia.
Qed.

Lemma float_field_calls (data : pyval) (key : string) (complaint : log_msg num) :
  calls_at_most 0 (float_field (World := World) data key complaint).
Proof.
  unfold float_field. apply (calls_try_except 0 0).
  - apply (calls_bind 0 0); [apply calls_lift|]. intros v.
    apply (calls_bind 0 0); [apply calls_lift|]. intros x. apply calls_ret.
  - intros e. destruct (is_ValueError e).
    + apply (calls_bind 0 0); [apply calls_log | intros; apply calls_ret].
    + apply calls_raise.
Qed.

Lemma read_price_calls (data : pyval) (order_type : string) :
  calls_at_most 0 (read_price (World := World) data order_type).
Proof.
  unfold read_price. destruct (String.eqb order_type "limit"); [|apply calls_ret].
  apply (calls_bind 0 0); [apply calls_lift|]. intros present.
  destruct (negb present).
  - apply (calls_bind 0 0); [apply calls_log | intros; apply calls_ret].
  - apply (calls_bind 0 0); [apply float_field_calls|].
    intros [price|]; apply calls_ret.
Qed.

Lemma place_order_calls (exchanges : list string) (data : pyval)
    (exchange_name : string) (symbol : pyval) (side order_type : string)
    (quantity : num) (price : option num) :
  calls_at_most 1 (place_order exchanges data exchange_name symbol side
                               order_type quantity price).
Proof.
  unfold place_order. destruct (negb _).
  { apply (calls_weaken 0); [lia | apply calls_log]. }
  apply (calls_bind 0 1); [apply calls_log|]. intros _.
  destruct (String.eqb order_type "limit").
  { destruct price as [p|].
    - apply (calls_bind 1 0); [apply calls_call | intros; apply calls_log].
    - apply (calls_weaken 0); [lia | apply calls_raise]. }
  destruct (String.eqb order_type "market").
  - apply (calls_bind 1 0); [apply calls_call | intros; apply calls_log].
  - apply (calls_weaken 0); [lia | apply calls_log].
Qed.

Lemma validate_and_place_calls (exchanges : list string) (data : pyval)
    (exchange_name : string) (symbol : pyval) (side order_type : string)
    (quantity : num) :
  calls_at_most 1 (validate_and_place exchanges data exchange_name symbol side
                                      order_type quantity).
Proof.
  unfold validate_and_place. destruct (negb _).
  { apply (calls_weaken 0); [lia | apply calls_log]. }
  apply (calls_bind 0 1); [apply read_price_calls|].
  intros [price|].
  - apply place_order_calls.
  - apply (calls_weaken 0); [lia | apply calls_ret].
Qed.

Lemma process_signal_calls (exchanges : list string) (data : pyval) :
  calls_at_most 1 (process_signal exchanges data).
Proof.
  unfold process_signal. apply (calls_try_except 1 0); [|intros; apply calls_log].
  apply (calls_bind 0 1); [apply calls_lift|]. intros [field|].
  { apply (calls_weaken 0); [lia | apply calls_log]. }
  do 7 (apply (calls_bind 0 1); [apply calls_lift|]; intros ?).
  apply (calls_bind 0 1); [apply float_field_calls|].
  intros [quantity|].
  - apply validate_and_place_calls.
  - apply (calls_weaken 0); [lia | apply calls_ret].
Qed.

(** *** The orders that are placed *)

Lemma read_price_logs (P : event -> Prop) (data : pyval) (order_type : string) :
  (forall m, P (ELog m)) ->
  emits P (read_price (World := World) data order_type).
Proof.
  intros Hlog. unfold read_price.
  destruct (String.eqb order_type "limit"); [|apply emits_ret].
  apply emits_bind; [apply emits_lift|]. intros present.
  destruct (negb present).
  - apply emits_bind; [apply emits_log, Hlog | intros; apply emits_ret].
  - apply emits_bind; [apply float_field_emits, Hlog|].
    intros [price|]; apply emits_ret.
Qed.

Lemma place_order_well_placed (exchanges : list string) (data : pyval)
    (exchange_name : string) (symbol : pyval) (side order_type : string)
    (quantity : num) (price : option num) :
  side = "buy"%string \/ side = "sell"%string ->
  emits (well_placed exchanges)
        (place_order exchanges data exchange_name symbol side order_type
                     quantity price).
Proof.
  intros Hside. unfold place_order.
  destruct (configured exchange_name exchanges) eqn:Hc; cbn [negb].
  2: { now apply emits_log. }
  apply emits_bind; [now apply emits_log|]. intros _.
  destruct (String.eqb_spec order_type "limit") as [-> | Hl].
  { destruct price as [p|]; [|apply emits_raise].
    apply emits_bind; [|intros; now apply emits_log].
    apply emits_call. cbn. repeat split; auto. right. split; [reflexivity|].
    discriminate. }
  destruct (String.eqb_spec order_type "market") as [-> | Hm].
  - apply emits_bind; [|intros; now apply emits_log].
    apply emits_call. cbn. repeat split; auto.
  - now apply emits_log.
Qed.

Lemma validate_and_place_well_placed (exchanges : list string) (data : pyval)
    (exchange_name : string) (symbol : pyval) (side order_type : string)
    (quantity : num) :
  emits (well_placed exchanges)
        (validate_and_place exchanges data exchange_name symbol side
                            order_type quantity).
Proof.
  unfold validate_and_place.
  destruct (String.eqb_spec side "buy") as [Hb | Hb].
  - cbn [orb negb]. apply emits_bind; [now apply read_price_logs|].
    intros [price|]; [|apply emits_ret].
    apply place_order_well_placed. now left.
  - destruct (String.eqb_spec side "sell") as [Hs | Hs]; cbn [orb negb].
    + apply emits_bind; [now apply read_price_logs|].
      intros [price|]; [|apply emits_ret].
      apply place_order_well_placed. now right.
    + now apply emits_log.
Qed.

Lemma process_signal_well_placed (exchanges : list string) (data : pyval) :
  emits (well_placed exchanges) (process_signal exchanges data).
Proof.
  unfold process_signal. apply emits_try_except; [|intros; now apply emits_log].
  apply emits_bind; [apply emits_lift|]. intros [field|].
  { now apply emits_log. }
  do 7 (apply emits_bind; [apply emits_lift|]; intros ?).
  apply emits_bind; [now apply float_field_emits|].
  intros [quantity|]; [|apply emits_ret].
  apply validate_and_place_well_placed.
Qed.

(** X1. Whatever the payload and whatever the exchange replies,
    [process_signal] makes at most one call to an exchange, and its trace
    holds nothing but log lines and orders that are well placed: on a
    configured exchange, to buy or to sell, at the market without a price
    or with a limit and its price. *)
Theorem process_signal_orders (exchanges : list string) (data : pyval)
    (w : World) :
  Forall (well_placed exchanges) (events_of (process_signal exchanges data w)) /\
  (length (exchange_calls (events_of (process_signal exchanges data w))) <= 1)%nat.
Proof.
  split; [apply process_signal_well_placed | apply process_signal_calls].
Qed.

Lemma first_missing_find (d : dict pyval) (fields : list string) :
  first_missing (PDict d) fields = inr (find (lacks d) fields).
Proof.
  induction fields as [|f r IH]; [reflexivity|].
  cbn [first_missing find py_contains]. unfold lacks at 1.
  destruct (dict_mem f d); [exact IH | reflexivity].
Qed.

(** X2. A payload that lacks a required key is reported with the first
    key it lacks, in the order EXCHANGE, SYMBOL, SIDE, ORDER_TYPE, QUANTITY,
    and nothing else happens. *)
Theorem process_signal_missing_field (exchanges : list string)
    (d : dict pyval) (field : string) (w : World) :
  find (lacks d) required_fields = Some field ->
  process_signal exchanges (PDict d) w =
  (inr tt, w, [ELog (LogMissingField field)]).
Proof.
  intros H. unfold process_signal, try_except.
  rewrite (bind_lift_eq _ (Some field)); [reflexivity|].
  now rewrite first_missing_find, H.
Qed.

Lemma lacks_none (d : dict pyval) (field : string) :
  find (lacks d) required_fields = None -> In field required_fields ->
  exists v, dict_get field d = Some v.
Proof.
  intros H Hin. pose proof (find_none _ _ H field Hin) as Hf.
  unfold lacks, dict_mem in Hf.
  destruct (dict_get field d) as [v|]; [now exists v | discriminate].
Qed.

(** X3. A payload with the five required keys in which EXCHANGE, SIDE or
    ORDER_TYPE is not text (null, a number, a list) is not reported as
    invalid: the [AttributeError] of [.lower()] reaches the general
    handler, and nothing else happens. *)
Theorem process_signal_field_not_text (exchanges : list string)
    (d : dict pyval) (key : string) (v : pyval) (w : World) :
  find (lacks d) required_fields = None ->
  In key ["EXCHANGE"; "SIDE"; "ORDER_TYPE"]%string ->
  dict_get key d = Some v ->
  (forall s, v <> PStr s) ->
  process_signal exchanges (PDict d) w =
  (inr tt, w, [ELog (LogSignalError AttributeError)]).
Proof.
  intros Hall Hkey Hv Hnot. unfold process_signal, try_except.
  rewrite (bind_lift_eq _ None) by now rewrite first_missing_find, Hall.
  destruct (lacks_none d "EXCHANGE" Hall) as [ve He]; [simpl; tauto|].
  destruct (lacks_none d "SYMBOL" Hall) as [vy Hy]; [simpl; tauto|].
  destruct (lacks_none d "SIDE" Hall) as [vs Hs]; [simpl; tauto|].
  destruct (lacks_none d "ORDER_TYPE" Hall) as [vo Ho]; [simpl; tauto|].
  cbn [py_getitem]. rewrite He, Hy, Hs, Ho.
  rewrite bind_lift.
  destruct ve as [| | |se| |]; try reflexivity.
  cbn [py_lower]. rewrite !bind_lift.
  destruct vs as [| | |ss| |]; try reflexivity.
  cbn [py_lower]. rewrite !bind_lift.
  destruct vo as [| | |so| |]; try reflexivity.
  exfalso. simpl in Hkey.
  destruct Hkey as [<- | [<- | [<- | []]]].
  - rewrite He in Hv. injection Hv as <-. now apply (Hnot se).
  - rewrite Hs in Hv. injection Hv as <-. now apply (Hnot ss).
  - rewrite Ho in Hv. injection Hv as <-. now apply (Hnot so).
Qed.

End MoreSignalFacts.

Section MoreSignalOutcomes.

Context {num : Type} {PN : PyNumber num} {PT : PyText}.
Context {World : Type} {ENV : Environment num World}.

Local Abbreviation M := (M num World).
Local Abbreviation pyval := (pyval num).
Local Abbreviation event := (event num).

Lemma valid_side_test (side : string) :
  side = "buy"%string \/ side = "sell"%string ->
  negb (String.eqb side "buy" || String.eqb side "sell") = false.
Proof. intros [-> | ->]; reflexivity. Qed.

(** Lines 102-111 for a limit order. *)
Lemma read_price_limit (d : dict pyval) (w : World) :
  read_price (PDict d) "limit" w =
  match dict_get "PRICE" d with
  | None => (inr None, w, [ELog LogMissingPrice])
  | Some pv =>
      match py_float pv with
      | inr p => (inr (Some (Some p)), w, [])
      | inl e =>
          if is_ValueError e then (inr None, w, [ELog LogInvalidPrice])
          else (inl e, w, [])
      end
  end.
Proof.
  unfold read_price. cbn [String.eqb Ascii.eqb Bool.eqb py_contains].
  rewrite bind_lift. unfold dict_mem.
  destruct (dict_get "PRICE" d) as [pv|] eqn:Hp; [|reflexivity].
  cbn [negb]. unfold bind.
  rewrite (float_field_outcome d "PRICE" pv LogInvalidPrice w Hp).
  destruct (py_float pv) as [e|p]; [|reflexivity].
  now destruct (is_ValueError e).
Qed.

(** X4. With the required keys and a quantity that [float] accepts, a
    side that is neither "buy" nor "sell" in lower case is reported as an
    invalid side, and nothing else happens. *)
Theorem process_signal_invalid_side (exchanges : list string) (d : dict pyval)
    (ex : string) (sy : pyval) (sd ot : string) (q : pyval) (x : num)
    (w : World) :
  signal_fields d ex sy sd ot q ->
  py_float q = inr x ->
  str_lower sd <> "buy"%string ->
  str_lower sd <> "sell"%string ->
  process_signal exchanges (PDict d) w =
  (inr tt, w, [ELog (LogInvalidSide (str_lower sd))]).
Proof.
  intros H Hq Hb Hs.
  rewrite (process_signal_accepted _ _ _ _ _ _ _ _ _ H Hq).
  apply String.eqb_neq in Hb, Hs.
  unfold validate_and_place, try_except. now rewrite Hb, Hs.
Qed.

(** X5. A limit order needs a price. With the required keys, a valid
    side and quantity and the order type "limit": a payload without PRICE
    is reported as lacking the price, and one whose PRICE [float] rejects
    as having an invalid price (or, for a PRICE that is not text or a
    number, through the general handler). No call is made. *)
Theorem process_signal_limit_price (exchanges : list string) (d : dict pyval)
    (ex : string) (sy : pyval) (sd ot : string) (q : pyval) (x : num)
    (w : World) :
  signal_fields d ex sy sd ot q ->
  py_float q = inr x ->
  str_lower sd = "buy"%string \/ str_lower sd = "sell"%string ->
  str_lower ot = "limit"%string ->
  (dict_get "PRICE" d = None ->
   process_signal exchanges (PDict d) w = (inr tt, w, [ELog LogMissingPrice])) /\
  (forall pv e,
     dict_get "PRICE" d = Some pv -> py_float pv = inl e ->
     process_signal exchanges (PDict d) w =
     (inr tt, w,
      [ELog (if is_ValueError e then LogInvalidPrice else LogSignalError e)])).
Proof.
  intros H Hq Hside Hlimit.
  rewrite (process_signal_accepted _ _ _ _ _ _ _ _ _ H Hq).
  unfold validate_and_place. rewrite (valid_side_test _ Hside), Hlimit.
  pose proof (read_price_limit d w) as E. split.
  - intros Hp. rewrite Hp in E.
    now rewrite (try_except_bind_returned _ _ _ _ _ _ _ E).
  - intros pv e Hp He. rewrite Hp, He in E.
    destruct (is_ValueError e).
    + now rewrite (try_except_bind_returned _ _ _ _ _ _ _ E).
    + now rewrite (try_except_raised _ _ _ _ _ _ (bind_raised _ _ _ _ _ _ E)).
Qed.

(** The order of lines 120-128, once the checks have passed. *)
Lemma place_order_outcome (exchanges : list string) (data : pyval)
    (exchange_name : string) (symbol : pyval) (side order_type : string)
    (quantity : num) (price : option num) (w : World) :
  configured exchange_name exchanges = true ->
  (order_type = "market"%string /\ price = None) \/
  (order_type = "limit"%string /\ price <> None) ->
  try_except
    (place_order exchanges data exchange_name symbol side order_type
                 quantity price)
    (fun e => log (LogSignalError e)) w =
  let ev := ECreateOrder exchange_name symbol order_type side quantity price in
  match create_order exchange_name symbol order_type side quantity price w with
  | (inr order, w') =>
      (inr tt, w',
       [ELog (LogPlacingOrder exchange_name data); ev; ELog (LogOrderPlaced order)])
  | (inl e, w') =>
      (inr tt, w',
       [ELog (LogPlacingOrder exchange_name data); ev; ELog (LogSignalError e)])
  end.
Proof.
  intros Hc Hot. unfold place_order, try_except. rewrite Hc. cbn [negb].
  rewrite bind_log.
  destruct Hot as [[-> ->] | [-> Hp]].
  - cbn [String.eqb Ascii.eqb Bool.eqb]. unfold bind, call.
    destruct (create_order exchange_name symbol "market" side quantity None w)
      as [[e|order] w']; reflexivity.
  - destruct price as [p|]; [|contradiction].
    cbn [String.eqb Ascii.eqb Bool.eqb]. unfold bind, call.
    destruct (create_order exchange_name symbol "limit" side quantity (Some p) w)
      as [[e|order] w']; reflexivity.
Qed.

(** X6. A valid market signal for a configured exchange makes exactly
    one call, [create_order(symbol, "market", side, quantity)] without a
    price, whether or not the payload has a PRICE; the reply is logged as
    the placed order or, when the call raises, as the error. *)
Theorem process_signal_market_order (exchanges : list string) (d : dict pyval)
    (ex : string) (sy : pyval) (sd ot : string) (q : pyval) (x : num)
    (w : World) :
  signal_fields d ex sy sd ot q ->
  py_float q = inr x ->
  str_lower sd = "buy"%string \/ str_lower sd = "sell"%string ->
  str_lower ot = "market"%string ->
  configured (str_lower ex) exchanges = true ->
  process_signal exchanges (PDict d) w =
  let ev := ECreateOrder (str_lower ex) sy "market" (str_lower sd) x None in
  match create_order (str_lower ex) sy "market" (str_lower sd) x None w with
  | (inr order, w') =>
      (inr tt, w',
       [ELog (LogPlacingOrder (str_lower ex) (PDict d)); ev;
        ELog (LogOrderPlaced order)])
  | (inl e, w') =>
      (inr tt, w',
       [ELog (LogPlacingOrder (str_lower ex) (PDict d)); ev;
        ELog (LogSignalError e)])
  end.
Proof.
  intros H Hq Hside Hmarket Hc.
  rewrite (process_signal_accepted _ _ _ _ _ _ _ _ _ H Hq).
  unfold validate_and_place. rewrite (valid_side_test _ Hside), Hmarket.
  assert (read_price (World := World) (PDict d) "market" w
          = (inr (Some None), w, [])) as E by reflexivity.
  rewrite (try_except_bind_returned _ _ _ _ _ _ _ E), after_nil.
  apply (place_order_outcome exchanges (PDict d) (str_lower ex) sy
           (str_lower sd) "market" x None w Hc).
  left. now split.
Qed.

(** X7. A valid limit signal with a PRICE that [float] accepts, for a
    configured exchange, makes exactly one call,
    [create_order(symbol, "limit", side, quantity, price)]. *)
Theorem process_signal_limit_order (exchanges : list string) (d : dict pyval)
    (ex : string) (sy : pyval) (sd ot : string) (q pv : pyval) (x p : num)
    (w : World) :
  signal_fields d ex sy sd ot q ->
  py_float q = inr x ->
  str_lower sd = "buy"%string \/ str_lower sd = "sell"%string ->
  str_lower ot = "limit"%string ->
  dict_get "PRICE" d = Some pv ->
  py_float pv = inr p ->
  configured (str_lower ex) exchanges = true ->
  process_signal exchanges (PDict d) w =
  let ev := ECreateOrder (str_lower ex) sy "limit" (str_lower sd) x (Some p) in
  match create_order (str_lower ex) sy "limit" (str_lower sd) x (Some p) w with
  | (inr order, w') =>
      (inr tt, w',
       [ELog (LogPlacingOrder (str_lower ex) (PDict d)); ev;
        ELog (LogOrderPlaced order)])
  | (inl e, w') =>
      (inr tt, w',
       [ELog (LogPlacingOrder (str_lower ex) (PDict d)); ev;
        ELog (LogSignalError e)])
  end.
Proof.
  intros H Hq Hside Hlimit Hp Hpv Hc.
  rewrite (process_signal_accepted _ _ _ _ _ _ _ _ _ H Hq).
  unfold validate_and_place. rewrite (valid_side_test _ Hside), Hlimit.
  pose proof (read_price_limit d w) as E. rewrite Hp, Hpv in E.
  rewrite (try_except_bind_returned _ _ _ _ _ _ _ E), after_nil.
  apply (place_order_outcome exchanges (PDict d) (str_lower ex) sy
           (str_lower sd) "limit" x (Some p) w Hc).
  right. split; [reflexivity | discriminate].
Qed.

End MoreSignalOutcomes.

(** ** More on the webhook *)

Section MoreWebhookFacts.

Context {num : Type} {PN : PyNumber num} {PT : PyText}.
Context {World : Type} {ENV : Environment num World}.

Local Abbreviation pyval := (pyval num).
Local Abbreviation event := (event num).

(** X8. With a PIN configured, a JSON object whose PIN is not that text
    (another text, a number, or no PIN at all) is answered with 403 and
    the "Invalid pin" error, and the signal is not looked at. *)
Theorem webhook_rejects_wrong_pin (cfg : config) (d : dict pyval) (w : World) :
  webhook_pin cfg <> EmptyString ->
  py_eq_str (dict_get_default "PIN" d (PStr EmptyString)) (webhook_pin cfg)
    = false ->
  trade_signal cfg (inr (PDict d)) w =
  (inr (ErrorInvalidPin, 403%nat), w, [ELog LogInvalidPin]).
Proof.
  intros Hpin Hne. apply String.eqb_neq in Hpin.
  unfold trade_signal, try_except. rewrite bind_lift. cbn [is_none py_get].
  rewrite bind_lift, Hpin, Hne. reflexivity.
Qed.

Lemma trade_signal_accepted (cfg : config) (d : dict pyval) (w : World) :
  (negb (String.eqb (webhook_pin cfg) EmptyString)
   && negb (py_eq_str (dict_get_default "PIN" d (PStr EmptyString))
                      (webhook_pin cfg)))%bool = false ->
  value_of (trade_signal cfg (inr (PDict d)) w) = inr (StatusOk, 200%nat).
Proof.
  intros Hc. unfold trade_signal. rewrite value_try_except, value_bind.
  cbn [lift value_of world_of fst snd is_none py_get].
  rewrite value_bind. cbn [lift value_of world_of fst snd].
  rewrite Hc, value_bind. cbn [log emit value_of world_of fst snd].
  rewrite value_bind.
  destruct (process_signal_returns (signal_exchanges cfg) (PDict d) w) as [[] E].
  now rewrite E.
Qed.

(** X9. [trade_signal] always answers, with 200, 400, 403 or 500. The
    body of a 200 is [{"status": "ok"}]; every other answer comes with one
    log line and nothing else: the signal was not processed. *)
Theorem webhook_always_answers (cfg : config) (request_json : exn + pyval)
    (w : World) :
  exists body status,
    value_of (trade_signal cfg request_json w) = inr (body, status) /\
    In status [200; 400; 403; 500]%nat /\
    (status = 200%nat -> body = StatusOk) /\
    (status <> 200%nat ->
     world_of (trade_signal cfg request_json w) = w /\
     exists m, events_of (trade_signal cfg request_json w) = [ELog m]).
Proof.
  destruct request_json as [e|data].
  { destruct (is_JSONDecodeError e) eqn:Ej.
    - exists ErrorMalformedJson, 400%nat.
      unfold trade_signal, try_except, bind, lift. rewrite Ej.
      repeat split; simpl; auto; try discriminate. now eexists.
    - exists (ErrorException e), 500%nat.
      unfold trade_signal, try_except, bind, lift. rewrite Ej.
      repeat split; simpl; auto; try discriminate. now eexists. }
  destruct data as [|b|x|s|l|d];
    try (exists (ErrorException AttributeError), 500%nat;
         repeat split; simpl; auto; try discriminate; now eexists).
  { exists ErrorNoJson, 400%nat.
    repeat split; simpl; auto; try discriminate. now eexists. }
  destruct (negb (String.eqb (webhook_pin cfg) EmptyString)
            && negb (py_eq_str (dict_get_default "PIN" d (PStr EmptyString))
                               (webhook_pin cfg)))%bool eqn:Hc.
  - exists ErrorInvalidPin, 403%nat.
    assert (trade_signal cfg (inr (PDict d)) w =
            (inr (ErrorInvalidPin, 403%nat), w, [ELog LogInvalidPin])) as E.
    { unfold trade_signal, try_except. rewrite bind_lift. cbn [is_none py_get].
      now rewrite bind_lift, Hc. }
    rewrite E. repeat split; simpl; auto; try discriminate. now eexists.
  - exists StatusOk, 200%nat. split; [now apply trade_signal_accepted|].
    repeat split; simpl; auto; congruence.
Qed.

End MoreWebhookFacts.

(** ** More on the mailbox *)

Section MoreEmailFacts.

Context {num : Type} {PN : PyNumber num} {PT : PyText}.
Context {World : Type} {ENV : Environment num World}.

Local Abbreviation M := (M num World).
Local Abbreviation pyval := (pyval num).
Local Abbreviation event := (event num).

Lemma fetched_message (e_id subject : string) (w w1 : World) :
  imap_fetch e_id w = (inr (true, inr subject), w1) ->
  call (num := num) (EImapFetch e_id) (imap_fetch e_id) w =
  (inr (true, inr subject), w1, [EImapFetch e_id]).
Proof. intros H. unfold call. now rewrite H. Qed.

(** What [handle_message] does with the subject of a fetched message. *)
Lemma handle_message_fetched (cfg : config) (e_id subject : string)
    (w w1 : World) :
  imap_fetch e_id w = (inr (true, inr subject), w1) ->
  handle_message cfg e_id w =
  after [EImapFetch e_id]
    (try_except
       (alert_data <- parse_email_subject subject ;;
        if truthy alert_data then
          log (LogProcessingSignal alert_data) ;;
          pin_ok <-
            (if negb (String.eqb (webhook_pin cfg) EmptyString) then
               incoming_pin <- lift (py_get alert_data "PIN" (PStr EmptyString)) ;;
               if negb (py_eq_str incoming_pin (webhook_pin cfg)) then
                 log (LogInvalidEmailPin incoming_pin) ;; ret false
               else ret true
             else ret true) ;;
          if pin_ok then
            process_signal (signal_exchanges cfg) alert_data ;;
            call (EImapStore e_id) (imap_store e_id)
          else ret tt
        else log LogNonTradingMail)
       (fun e => log (LogMailError e_id e)) w1).
Proof.
  intros Hf. unfold handle_message.
  rewrite (try_except_bind_returned _ _ _ _ _ _ _ (fetched_message _ _ _ _ Hf)).
  cbv beta iota. unfold try_except. now rewrite bind_lift.
Qed.

(** X10. A message whose subject does not begin with the marker is left
    as it is: nothing is parsed or processed, and no flag is stored. *)
Theorem mail_without_marker (cfg : config) (e_id subject : string)
    (w w1 : World) :
  imap_fetch e_id w = (inr (true, inr subject), w1) ->
  Text.strip_prefix "Alert:" (str_strip subject) = None ->
  handle_message cfg e_id w =
  (inr tt, w1,
   [EImapFetch e_id; ELog (LogCheckingSubject (str_strip subject));
    ELog LogNonTradingMail]).
Proof.
  intros Hf Hp. rewrite (handle_message_fetched cfg e_id subject w w1 Hf).
  assert (parse_email_subject subject w1 =
          (inr PNone, w1, [ELog (LogCheckingSubject (str_strip subject))])) as E.
  { unfold parse_email_subject. now rewrite bind_log, Hp. }
  now rewrite (try_except_bind_returned _ _ _ _ _ _ _ E).
Qed.

(** X11. A message with the marker whose text is not JSON, or is the JSON
    of an empty value (null, an empty object, 0), is left unread as well:
    the first is reported, neither is processed, and no flag is stored. *)
Theorem mail_without_signal (cfg : config) (e_id subject rest : string)
    (w w1 : World) :
  imap_fetch e_id w = (inr (true, inr subject), w1) ->
  Text.strip_prefix "Alert:" (str_strip subject) = Some rest ->
  (json_loads (json_part rest) = inl JSONDecodeError ->
   handle_message cfg e_id w =
   (inr tt, w1,
    [EImapFetch e_id; ELog (LogCheckingSubject (str_strip subject));
     ELog LogSubjectNotJson; ELog LogNonTradingMail])) /\
  (forall v, json_loads (json_part rest) = inr v -> truthy v = false ->
   handle_message cfg e_id w =
   (inr tt, w1,
    [EImapFetch e_id; ELog (LogCheckingSubject (str_strip subject));
     ELog LogNonTradingMail])).
Proof.
  intros Hf Hp.
  rewrite (handle_message_fetched cfg e_id subject w w1 Hf).
  split.
  - intros Hj.
    assert (parse_email_subject subject w1 =
            (inr PNone, w1,
             [ELog (LogCheckingSubject (str_strip subject));
              ELog LogSubjectNotJson])) as E.
    { unfold parse_email_subject. rewrite bind_log, Hp.
      unfold try_except, lift. now rewrite Hj. }
    now rewrite (try_except_bind_returned _ _ _ _ _ _ _ E).
  - intros v Hj Hv.
    rewrite (try_except_bind_returned _ _ _ _ _ _ _
               (parse_email_subject_outcome _ _ _ w1 Hp Hj)).
    now rewrite Hv.
Qed.

Lemma well_placed_no_store (exchanges : list string) (t : list event) :
  Forall (well_placed exchanges) t -> filter is_store t = [].
Proof.
  induction 1 as [|ev r Hev _ IH]; [reflexivity|].
  destruct ev; try contradiction; exact IH.
Qed.

(** X12. A message with the marker and a non-empty JSON value, with no
    PIN configured or with the configured PIN in the object, is handed to
    [process_signal] and then marked as read, once, whatever became of the
    signal; an exception of the store is logged. *)
Theorem mail_signal_is_marked_read (cfg : config) (e_id subject rest : string)
    (data : pyval) (w w1 : World) :
  imap_fetch e_id w = (inr (true, inr subject), w1) ->
  Text.strip_prefix "Alert:" (str_strip subject) = Some rest ->
  json_loads (json_part rest) = inr data ->
  truthy data = true ->
  webhook_pin cfg = EmptyString \/
  (exists d, data = PDict d /\
             dict_get "PIN" d = Some (PStr (webhook_pin cfg))) ->
  let processed := process_signal (signal_exchanges cfg) data w1 in
  events_of (handle_message cfg e_id w) =
    [EImapFetch e_id; ELog (LogCheckingSubject (str_strip subject));
     ELog (LogProcessingSignal data)]
    ++ events_of processed
    ++ EImapStore e_id
       :: match fst (imap_store e_id (world_of processed)) with
          | inl e => [ELog (LogMailError e_id e)]
          | inr _ => []
          end /\
  stores (events_of (handle_message cfg e_id w)) = [EImapStore e_id].
Proof.
  intros Hf Hp Hj Ht Hpin processed.
  assert (events_of (handle_message cfg e_id w) =
          [EImapFetch e_id; ELog (LogCheckingSubject (str_strip subject));
           ELog (LogProcessingSignal data)]
          ++ events_of processed
          ++ EImapStore e_id
             :: match fst (imap_store e_id (world_of processed)) with
                | inl e => [ELog (LogMailError e_id e)]
                | inr _ => []
                end) as E.
  { rewrite (handle_message_fetched cfg e_id subject w w1 Hf).
    rewrite (try_except_bind_returned _ _ _ _ _ _ _
               (parse_email_subject_outcome _ _ _ w1 Hp Hj)).
    rewrite Ht. rewrite !events_after.
    match goal with
    | |- context [try_except (bind (log ?m) (fun _ => bind ?c ?k)) ?h w1] =>
        assert (c w1 = (inr true, w1, [])) as Ec
    end.
    { destruct Hpin as [-> | (d & -> & Hd)]; [reflexivity|].
      destruct (String.eqb (webhook_pin cfg) EmptyString); [reflexivity|].
      cbn [negb py_get]. rewrite bind_lift. unfold dict_get_default.
      rewrite Hd. cbn [py_eq_str]. now rewrite String.eqb_refl. }
    rewrite events_try_except, bind_log, events_after, value_after, world_after.
    rewrite (bind_returned _ _ _ _ _ _ Ec), after_nil. cbv iota.
    destruct (process_signal_returns (signal_exchanges cfg) data w1) as [[] Ev].
    rewrite events_bind, value_bind, world_bind.
    fold processed. change (value_of processed) with
      (value_of (process_signal (signal_exchanges cfg) data w1)).
    rewrite Ev. unfold call.
    destruct (imap_store e_id (world_of processed)) as [[e|[]] w3];
      simpl; now rewrite <- ?app_assoc. }
  split; [exact E|]. rewrite E. unfold stores.
  rewrite !filter_app. simpl.
  rewrite (well_placed_no_store (signal_exchanges cfg) (events_of processed))
    by apply process_signal_well_placed. now destruct (fst (imap_store e_id (world_of processed))).
Qed.

(** Handling a message never raises; it begins with the fetch of that
    message, and the rest of its trace has no fetch and no event of
    another message. *)
Lemma handle_message_events (cfg : config) (e_id : string) (w : World) :
  value_of (handle_message cfg e_id w) = inr tt /\
  exists t,
    events_of (handle_message cfg e_id w) = EImapFetch e_id :: t /\
    Forall (fun ev => is_fetch ev = false /\ own_mail e_id ev) t.
Proof.
  set (P := fun ev : event => is_fetch ev = false /\ own_mail e_id ev).
  assert (forall m, P (ELog m)) as Hlog by (intros m; now split).
  split.
  { destruct (returns_try_except
                (fetched <- call (EImapFetch e_id) (imap_fetch e_id) ;;
                 let '(status_ok, decoded) := fetched in
                 if status_ok then
                   subject <- lift decoded ;;
                   alert_data <- parse_email_subject subject ;;
                   if truthy alert_data then
                     log (LogProcessingSignal alert_data) ;;
                     pin_ok <-
                       (if negb (String.eqb (webhook_pin cfg) EmptyString) then
                          incoming_pin <-
                            lift (py_get alert_data "PIN" (PStr EmptyString)) ;;
                          if negb (py_eq_str incoming_pin (webhook_pin cfg)) then
                            log (LogInvalidEmailPin incoming_pin) ;; ret false
                          else ret true
                        else ret true) ;;
                     if pin_ok then
                       process_signal (signal_exchanges cfg) alert_data ;;
                       call (EImapStore e_id) (imap_store e_id)
                     else ret tt
                   else log LogNonTradingMail
                 else ret tt)
                (fun e => log (LogMailError e_id e))
                (fun e => returns_log _) w) as [[] E].
    exact E. }
  unfold handle_message. rewrite events_try_except, events_bind.
  assert (events_of (call (num := num) (EImapFetch e_id) (imap_fetch e_id) w)
          = [EImapFetch e_id]) as Ec.
  { unfold call. now destruct (imap_fetch e_id w). }
  rewrite Ec. eexists. split; [rewrite <- app_assoc; reflexivity|].
  apply Forall_app. split.
  - destruct (value_of _) as [e|[status_ok decoded]]; [constructor|].
    destruct status_ok; [|apply emits_ret].
    apply emits_bind; [apply emits_lift|]. intros subject.
    apply emits_bind.
    { unfold parse_email_subject. apply emits_bind; [apply emits_log, Hlog|].
      intros _. destruct (Text.strip_prefix _ _); [|apply emits_ret].
      apply emits_try_except; [apply emits_lift|]. intros e.
      destruct (is_JSONDecodeError e); [|apply emits_raise].
      apply emits_bind; [apply emits_log, Hlog | intros; apply emits_ret]. }
    intros alert_data. destruct (truthy alert_data); [|apply emits_log, Hlog].
    apply emits_bind; [apply emits_log, Hlog|]. intros _.
    apply emits_bind.
    { destruct (negb _); [|apply emits_ret].
      apply emits_bind; [apply emits_lift|]. intros pin.
      destruct (negb _); [|apply emits_ret].
      apply emits_bind; [apply emits_log, Hlog | intros; apply emits_ret]. }
    intros [|]; [|apply emits_ret].
    apply emits_bind.
    + intros w0. eapply Forall_impl; [|apply process_signal_well_placed].
      intros ev Hev. destruct ev; try contradiction; now split.
    + intros _. apply emits_call. now split.
  - match goal with |- Forall _ (match ?v with _ => _ end) =>
      destruct v as [e|[]] end; [|constructor].
    apply emits_log, Hlog.
Qed.

Lemma fetches_app (t1 t2 : list event) :
  fetches (t1 ++ t2) = fetches t1 ++ fetches t2.
Proof. apply filter_app. Qed.

Lemma handle_loop (cfg : config) (email_ids : list string) :
  forall w, exists w' t,
    forM (handle_message cfg) email_ids w = (inr tt, w', t) /\
    fetches t = map EImapFetch email_ids /\
    Forall (fun ev => exists e_id, In e_id email_ids /\ own_mail e_id ev) t.
Proof.
  unfold forM.
  induction email_ids as [|e_id rest IH]; intros w.
  - exists w, []. repeat split. constructor.
  - cbn [foldM map].
    destruct (handle_message_events cfg e_id w) as (Hv & t1 & Et & Ht).
    assert (handle_message cfg e_id w =
            (inr tt, world_of (handle_message cfg e_id w), EImapFetch e_id :: t1))
      as E.
    { rewrite (outcome_eta (handle_message cfg e_id w)) at 1. now rewrite Hv, Et. }
    rewrite (bind_returned _ _ _ _ _ _ E).
    destruct (IH (world_of (handle_message cfg e_id w))) as (w' & t & E' & Hf & Ho).
    rewrite E'. eexists _, _. split; [reflexivity|]. split.
    + cbn [events_of snd app]. unfold fetches in *. cbn [filter is_fetch].
      f_equal. rewrite filter_app.
      assert (filter is_fetch t1 = []) as Hn.
      { clear -Ht. induction Ht as [|ev r [Hev _] _ IHt]; [reflexivity|].
        simpl. now rewrite Hev. }
      now rewrite Hn, Hf.
    + cbn [events_of snd app]. constructor.
      * exists e_id. split; [now left | reflexivity].
      * apply Forall_app. split.
        -- eapply Forall_impl; [|exact Ht]. intros ev [_ Hev].
           exists e_id. split; [now left | exact Hev].
        -- eapply Forall_impl; [|exact Ho]. intros ev (i & Hi & Hev).
           exists i. split; [now right | exact Hev].
Qed.

(** X13. When the connection and the search succeed, [check_inbox]
    fetches every unread message of the search once, in order: whatever
    happens with one message (its decoding, its signal, its store), the
    next one is handled. Every flag that is stored is that of one of these
    messages. The call itself never raises. *)
Theorem check_inbox_visits_all (cfg : config) (email_ids : list string)
    (w w1 w2 : World) :
  imap_connect w = (inr tt, w1) ->
  imap_search w1 = (inr (true, email_ids), w2) ->
  value_of (check_inbox cfg w) = inr tt /\
  fetches (events_of (check_inbox cfg w)) = map EImapFetch email_ids /\
  Forall (fun ev => exists e_id, In e_id email_ids /\ ev = EImapStore e_id)
         (stores (events_of (check_inbox cfg w))).
Proof.
  intros Hc Hs. unfold check_inbox.
  assert (call (num := num) EImapConnect imap_connect w = (inr tt, w1, [EImapConnect]))
    as Ec by (unfold call; now rewrite Hc).
  assert (call (num := num) EImapSearch imap_search w1 =
          (inr (true, email_ids), w2, [EImapSearch]))
    as Es by (unfold call; now rewrite Hs).
  destruct (handle_loop cfg email_ids w2) as (w3 & t & E & Hf & Ho).
  match goal with
  | |- context [try_except ?c ?h w] =>
      assert (c w =
              after [ELog LogImapConnecting; EImapConnect; ELog LogImapConnected;
                     EImapSearch; ELog (LogFound (length email_ids))]
                (after t ((call EImapLogout imap_logout ;; log LogImapDone) w3)))
        as Eb
  end.
  { rewrite bind_log, (bind_returned _ _ _ _ _ _ Ec), bind_log.
    rewrite (bind_returned _ _ _ _ _ _ Es). cbn [negb]. cbv iota.
    rewrite bind_log, (bind_returned _ _ _ _ _ _ E).
    now rewrite !after_after. }
  assert (Forall (fun ev => exists e_id, In e_id email_ids /\ ev = EImapStore e_id)
                 (filter is_store t)) as Hst.
  { clear -Ho. induction Ho as [|ev r (i & Hi & Hev) _ IH]; [constructor|].
    cbn. destruct ev; cbn in *; try exact IH.
    constructor; [|exact IH]. exists i. split; [exact Hi | now subst]. }
  unfold try_except. rewrite Eb. unfold bind, call.
  destruct (imap_logout w3) as [[e|[]] w4]; cbn.
  - split; [reflexivity|]. split.
    + unfold fetches in *. rewrite !filter_app, Hf. cbn. now rewrite !app_nil_r.
    + unfold stores. rewrite !filter_app. cbn. now rewrite !app_nil_r.
  - split; [reflexivity|]. split.
    + unfold fetches in *. rewrite !filter_app, Hf. cbn. now rewrite !app_nil_r.
    + unfold stores. rewrite !filter_app. cbn. now rewrite !app_nil_r.
Qed.

(** X14. A failure of the mailbox ends the poll without raising: when
    the connection raises, the error is logged and nothing else is done;
    when the search does not answer OK, no message is fetched and the
    session is closed. *)
Theorem check_inbox_without_messages (cfg : config) (w w1 : World) :
  (forall e, imap_connect w = (inl e, w1) ->
     check_inbox cfg w =
     (inr tt, w1, [ELog LogImapConnecting; EImapConnect; ELog (LogInboxError e)])) /\
  (forall email_ids w2,
     imap_connect w = (inr tt, w1) ->
     imap_search w1 = (inr (false, email_ids), w2) ->
     value_of (check_inbox cfg w) = inr tt /\
     events_of (check_inbox cfg w) =
       [ELog LogImapConnecting; EImapConnect; ELog LogImapConnected;
        EImapSearch; ELog LogSearchFailed; EImapLogout]
       ++ match fst (imap_logout w2) with
          | inl e => [ELog (LogInboxError e)]
          | inr _ => []
          end).
Proof.
  split.
  - intros e Hc. unfold check_inbox, try_except, bind, log, emit, call.
    rewrite Hc. reflexivity.
  - intros email_ids w2 Hc Hs.
    unfold check_inbox, try_except, bind, log, emit, call.
    rewrite Hc. cbn. rewrite Hs. cbn.
    destruct (imap_logout w2) as [[e|[]] w3]; cbn; now split.
Qed.

End MoreEmailFacts.

(** ** More on positions *)

Section MorePositionFacts.

Context {num : Type} {PN : PyNumber num} {PT : PyText}.
Context {World : Type} {ENV : Environment num World}.

Local Abbreviation M := (M num World).
Local Abbreviation pyval := (pyval num).
Local Abbreviation record := (record num).
Local Abbreviation event := (event num).

Lemma exchange_calls_cat (t1 t2 : list event) :
  exchange_calls (t1 ++ t2) = exchange_calls t1 ++ exchange_calls t2.
Proof. apply filter_app. Qed.

(** A loop whose turns never raise and make one call each. *)
Lemma foldM_calls {A B : Type} (f : B -> A -> M B) (g : A -> event)
    (l : list A) :
  (forall b x w, (exists b', value_of (f b x w) = inr b') /\
                 exchange_calls (events_of (f b x w)) = [g x]) ->
  forall b w, exchange_calls (events_of (foldM f l b w)) = map g l.
Proof.
  intros Hf. induction l as [|x r IH]; intros b w; [reflexivity|].
  cbn [foldM map]. rewrite events_bind, exchange_calls_cat.
  destruct (Hf b x w) as [[b' Hv] Hc]. rewrite Hc, Hv. cbn [app].
  now rewrite IH.
Qed.

Lemma get_positions_for_calls (positions_data : dict (list record))
    (name : string) (w : World) :
  (exists pd, value_of (get_positions_for positions_data name w) = inr pd) /\
  exchange_calls (events_of (get_positions_for positions_data name w)) =
    [EFetchPositions name].
Proof.
  rewrite get_positions_for_outcome. cbv zeta. split; [now eexists|].
  unfold events_of, exchange_calls. cbn [snd filter is_exchange_call].
  f_equal. destruct (fst (fetch_positions name w)) as [e|all_positions];
    [reflexivity|].
  now destruct (snd (collect_open name all_positions [])).
Qed.

Lemma get_positions_calls (exchanges : list string) (w : World) :
  exchange_calls (events_of (get_positions exchanges w)) =
  map EFetchPositions exchanges.
Proof.
  unfold get_positions. rewrite bind_log, events_after, exchange_calls_cat.
  cbn [exchange_calls filter is_exchange_call app].
  destruct exchanges as [|name rest]; [reflexivity|].
  rewrite events_bind, exchange_calls_cat.
  rewrite (foldM_calls get_positions_for EFetchPositions (name :: rest)
             get_positions_for_calls).
  destruct (value_of _) as [e|pd]; [now rewrite app_nil_r|].
  cbn. now rewrite app_nil_r.
Qed.

Lemma summary_for_calls (positions_data : dict (list record))
    (stats : summary) (name : string) (w : World) :
  (exists stats', value_of (summary_for positions_data stats name w) = inr stats') /\
  exchange_calls (events_of (summary_for positions_data stats name w)) =
    [EFetchBalance name].
Proof.
  split; [eexists; apply summary_for_outcome|].
  unfold summary_for, bind, attempt, call.
  destruct (fetch_balance name w) as [[e|account_balance] w']; [reflexivity|].
  cbn. destruct (account_totals _ _ _) as [stats' [e|]]; reflexivity.
Qed.

(** X15. The reading functions only read. [get_positions] asks every
    configured exchange for its positions once, in order, and makes no
    other call; [calculate_summary_stats] then asks every exchange for its
    balance once, in order. Neither stops at an exchange that raises. *)
Theorem reads_call_every_exchange_once (exchanges : list string) (w : World) :
  exchange_calls (events_of (get_positions exchanges w)) =
    map EFetchPositions exchanges /\
  exchange_calls (events_of (calculate_summary_stats exchanges w)) =
    map EFetchPositions exchanges ++ map EFetchBalance exchanges.
Proof.
  split; [apply get_positions_calls|].
  unfold calculate_summary_stats. rewrite bind_log, events_after.
  rewrite exchange_calls_cat. cbn [exchange_calls filter is_exchange_call app].
  destruct exchanges as [|name rest]; [reflexivity|].
  rewrite (bind_returned _ _ _ _ _ _ (get_positions_outcome (name :: rest) w)).
  rewrite events_after, exchange_calls_cat, get_positions_calls. f_equal.
  rewrite events_bind, exchange_calls_cat.
  rewrite (foldM_calls (summary_for (fetched_positions (name :: rest) w))
             EFetchBalance (name :: rest) (summary_for_calls _)).
  destruct (value_of _) as [e|stats]; [now rewrite app_nil_r|].
  cbn. now rewrite app_nil_r.
Qed.

(** X17. The result of [close_position] for a position that is found is
    the reply of the market order: the order when the exchange accepts it,
    the text of the exception when it raises. The exception goes no
    further. *)
Theorem close_position_result (exchanges : list string) (name : string)
    (symbol : pyval) (w : World) (pos : record) :
  configured name exchanges = true ->
  find (holds symbol)
       (dict_get_default name (fetched_positions exchanges w) []) = Some pos ->
  value_of (close_position exchanges name symbol w) =
  inr match fst (create_market_order name symbol
                   (closing_side (position_side pos)) (position_contracts pos)
                   (world_of (get_positions exchanges w))) with
      | inr order => Success order
      | inl e => Error (ExceptionText e)
      end.
Proof.
  intros Hc Hfind. rewrite (close_position_outcome _ _ _ _ Hc), value_after.
  unfold try_except.
  rewrite (close_first_some name symbol _ pos _
             (well_formed_get _ name (fetched_positions_well_formed exchanges w))
             Hfind).
  unfold bind, call.
  now destruct (create_market_order name symbol (closing_side (position_side pos))
                  (position_contracts pos) (world_of (get_positions exchanges w)))
    as [[e|order] w2].
Qed.

Lemma dict_set_Forall_key {V : Type} (P : string * V -> Prop) (k : string)
    (v : V) (d : dict V) :
  P (k, v) -> Forall P d -> Forall P (dict_set k v d).
Proof.
  intros Hv. induction 1 as [|[k' v'] r Hx Hr IH]; simpl.
  - constructor; auto.
  - destruct (String.eqb_spec k' k) as [-> | Hk]; constructor; auto.
Qed.

Lemma collect_open_labelled (name : string) (all_positions found : list record) :
  Forall (fun pos => exists raw, pos = normalize name raw) found ->
  Forall (fun pos => exists raw, pos = normalize name raw)
         (fst (collect_open name all_positions found)).
Proof.
  revert found. induction all_positions as [|pos rest IH]; intros found H; simpl.
  - assumption.
  - destruct (py_gt0 (dict_get_default "contracts" pos (PNum nzero)))
      as [e|[|]]; simpl; auto.
    apply IH. apply Forall_app. split; [assumption|].
    constructor; [|constructor]. now exists pos.
Qed.

(** An invariant of the loop of [get_positions] that may rely on the
    exchange of each turn being one of the list. *)
Lemma foldM_invariant_in {A B : Type} (I : B -> Prop) (f : B -> A -> M B)
    (l : list A) :
  (forall b x w b', In x l -> I b -> value_of (f b x w) = inr b' -> I b') ->
  forall b w b', I b -> value_of (foldM f l b w) = inr b' -> I b'.
Proof.
  induction l as [|x r IH]; intros Hf b w b' Hb; simpl.
  - unfold ret, value_of. simpl. now intros [= <-].
  - unfold bind. destruct (f b x w) as [[[e|b1] w1] t1] eqn:E.
    + discriminate.
    + unfold after, value_of. simpl. apply IH.
      * intros b0 y w0 b0' Hy. apply Hf. now right.
      * apply (Hf b x w b1); [now left | exact Hb | now rewrite E].
Qed.

Lemma fetched_positions_labelled (exchanges : list string) (w : World) :
  labelled (fetched_positions exchanges w) /\
  named exchanges (fetched_positions exchanges w).
Proof.
  pose proof (get_positions_value exchanges w) as Hv. revert Hv.
  generalize (fetched_positions exchanges w). intros pd.
  unfold get_positions. rewrite bind_log, value_after.
  destruct exchanges as [|name rest].
  { rewrite bind_log, value_after. intros [= <-]. split; constructor. }
  rewrite value_bind.
  destruct (value_of (foldM get_positions_for (name :: rest) [] w))
    as [e|pd'] eqn:E; [discriminate|].
  rewrite bind_log, value_after. intros [= <-].
  revert E.
  apply (foldM_invariant_in
           (fun pd => labelled pd /\ named (name :: rest) pd)).
  - intros b x w0 b' Hx [Hl Hn]. rewrite get_positions_for_outcome.
    cbv zeta. unfold value_of. cbn [fst]. intros [= <-]. split.
    + apply dict_set_Forall_key.
      * cbn [fst snd].
        destruct (fst (fetch_positions x w0)) as [e|all_positions]; cbn.
        -- constructor.
        -- apply collect_open_labelled. constructor.
      * apply dict_set_Forall_key; [constructor | exact Hl].
    + apply dict_set_Forall_key; [exact Hx|].
      apply dict_set_Forall_key; [exact Hx | exact Hn].
  - split; constructor.
Qed.

(** X18. Every dictionary that [get_positions] returns has the ten keys
    of the dashboard, in their order, and names under "exchange" the
    exchange under which it is listed, which is a configured one. *)
Theorem returned_positions_shape (exchanges : list string) (w : World)
    (name : string) (positions : list record) (pos : record) :
  In (name, positions) (fetched_positions exchanges w) ->
  In pos positions ->
  keys pos = position_keys /\
  dict_get "exchange" pos = Some (PStr name) /\
  In name exchanges.
Proof.
  intros Hin Hpos.
  destruct (fetched_positions_labelled exchanges w) as [Hl Hn].
  unfold labelled in Hl. unfold named in Hn. rewrite Forall_forall in Hl, Hn.
  specialize (Hl _ Hin). specialize (Hn _ Hin). cbn [fst snd] in Hl, Hn.
  rewrite Forall_forall in Hl. destruct (Hl _ Hpos) as [raw ->].
  repeat split. exact Hn.
Qed.

Lemma collect_open_app (name : string) (l1 l2 found : list record) :
  collect_open name (l1 ++ l2) found =
  match collect_open name l1 found with
  | (f, None) => collect_open name l2 f
  | (f, Some e) => (f, Some e)
  end.
Proof.
  revert found. induction l1 as [|pos rest IH]; intros found; [reflexivity|].
  cbn [app collect_open].
  destruct (py_gt0 (dict_get_default "contracts" pos (PNum nzero)))
    as [e|[|]]; auto.
Qed.

(** X19. A reported position whose contracts count cannot be compared
    with 0 (null, or text) ends the scan of its exchange: the positions
    reported before it are returned, those reported after it are not,
    open or not, and the error is logged. *)
Theorem scan_stops_at_bad_contracts (positions_data : dict (list record))
    (name : string) (before after_it : list record) (bad : record) (e : exn)
    (w w' : World) :
  fetch_positions name w = (inr (before ++ bad :: after_it), w') ->
  snd (collect_open name before []) = None ->
  py_gt0 (dict_get_default "contracts" bad (PNum nzero)) = inl e ->
  get_positions_for positions_data name w =
  (inr (dict_set name (fst (collect_open name before []))
          (dict_set name [] positions_data)),
   w', [EFetchPositions name; ELog (LogPositionsError name e)]).
Proof.
  intros Hf Hb He. rewrite get_positions_for_outcome. rewrite Hf. cbv zeta.
  cbn [fst snd open_positions]. rewrite collect_open_app.
  destruct (collect_open name before []) as [f [e0|]]; [discriminate|].
  cbn [collect_open]. rewrite He. reflexivity.
Qed.

End MorePositionFacts.

(** ** More on closing and on the summary *)

Section MoreCloseFacts.

Context {num : Type} {PN : PyNumber num} {PT : PyText}.
Context {World : Type} {ENV : Environment num World}.

Local Abbreviation M := (M num World).
Local Abbreviation pyval := (pyval num).
Local Abbreviation record := (record num).
Local Abbreviation event := (event num).

Lemma positions_fetches_app (t1 t2 : list event) :
  positions_fetches (t1 ++ t2) = positions_fetches t1 ++ positions_fetches t2.
Proof. apply filter_app. Qed.

Lemma positions_fetches_calls (t : list event) :
  positions_fetches (exchange_calls t) = positions_fetches t.
Proof.
  induction t as [|ev r IH]; [reflexivity|].
  unfold positions_fetches, exchange_calls in *. cbn [filter].
  destruct ev; cbn; try exact IH. now rewrite IH.
Qed.

Lemma positions_fetches_map (exchanges : list string) :
  positions_fetches (map (EFetchPositions (num := num)) exchanges) =
  map EFetchPositions exchanges.
Proof.
  induction exchanges as [|name rest IH]; [reflexivity|].
  unfold positions_fetches in *. cbn. now rewrite IH.
Qed.

Lemma order_calls_le (t : list event) :
  (length (order_calls t) <= length (exchange_calls t))%nat.
Proof.
  induction t as [|ev r IH]; [apply Nat.le_refl|].
  unfold order_calls, exchange_calls in *. destruct ev; cbn; lia.
Qed.

Lemma close_first_calls (name : string) (symbol : pyval) (positions : list record) :
  calls_at_most 1 (close_first name symbol positions).
Proof.
  induction positions as [|pos rest IH]; cbn [close_first].
  - apply (calls_weaken 0); [lia|].
    apply (calls_bind 0 0); [apply calls_log | intros; apply calls_ret].
  - apply (calls_bind 0 1); [apply calls_lift|]. intros v.
    destruct (py_eq v symbol); [|exact IH].
    do 2 (apply (calls_bind 0 1); [apply calls_lift|]; intros ?).
    apply (calls_bind 1 0); [apply calls_call|]. intros order.
    apply (calls_bind 0 0); [apply calls_log | intros; apply calls_ret].
Qed.

Lemma close_first_no_fetch (name : string) (symbol : pyval)
    (positions : list record) :
  emits (fun ev => is_positions_fetch ev = false)
        (close_first name symbol positions).
Proof.
  induction positions as [|pos rest IH]; cbn [close_first].
  - auto with emits.
  - apply emits_bind; [apply emits_lift|]. intros v.
    destruct (py_eq v symbol); [|assumption].
    repeat (apply emits_bind; [auto with emits|]; intros ?).
    auto with emits.
Qed.

Lemma no_fetch_nil (t : list event) :
  Forall (fun ev => is_positions_fetch ev = false) t -> positions_fetches t = [].
Proof.
  induction 1 as [|ev r Hev _ IH]; [reflexivity|].
  unfold positions_fetches in *. cbn. now rewrite Hev.
Qed.

(** One [close_position] on a configured exchange fetches the positions of
    every exchange again, and creates at most one order. *)
Lemma close_position_counts (exchanges : list string) (name : string)
    (symbol : pyval) (w : World) :
  configured name exchanges = true ->
  positions_fetches (events_of (close_position exchanges name symbol w)) =
    map EFetchPositions exchanges /\
  (length (order_calls (events_of (close_position exchanges name symbol w))) <= 1)%nat.
Proof.
  intros Hc. rewrite (close_position_outcome _ _ _ _ Hc), events_after.
  set (tail := try_except _ _ _).
  change (ELog (LogClosing name symbol) :: events_of (get_positions exchanges w))
    with ([ELog (LogClosing name symbol)] ++ events_of (get_positions exchanges w)).
  split.
  - rewrite !positions_fetches_app.
    rewrite <- (positions_fetches_calls (events_of (get_positions exchanges w))).
    rewrite get_positions_calls, positions_fetches_map.
    rewrite (no_fetch_nil (events_of tail)); [cbn; apply app_nil_r|].
    unfold tail. apply emits_try_except; [apply close_first_no_fetch|].
    intros e. apply emits_bind; [now apply emits_log | intros; apply emits_ret].
  - rewrite !order_calls_app, get_positions_no_orders. cbn [order_calls filter
      is_order_call app].
    eapply Nat.le_trans; [apply order_calls_le|].
    unfold tail.
    apply (calls_try_except 1 0 _ _ (close_first_calls _ _ _)).
    intros e. apply (calls_bind 0 0); [apply calls_log | intros; apply calls_ret].
Qed.

(** X16. [close_position] for an exchange that is not configured gives
    the "exchange not found" error at once: no position is fetched and no
    order is created. It is the only case in which [close_position] calls
    no exchange: for a configured one it always fetches the positions. *)
Theorem close_position_unknown_exchange (exchanges : list string)
    (name : string) (symbol : pyval) (w : World) :
  (configured name exchanges = false ->
   close_position exchanges name symbol w =
   (inr (Error (ExchangeNotFound name)), w,
    [ELog (LogClosing name symbol); ELog (LogExchangeUnavailable name)])) /\
  (exchange_calls (events_of (close_position exchanges name symbol w)) = [] ->
   configured name exchanges = false).
Proof.
  split.
  - intros H. unfold close_position. rewrite bind_log, H. reflexivity.
  - intros Hnone. destruct (configured name exchanges) eqn:Hc; [|reflexivity].
    destruct (close_position_counts exchanges name symbol w Hc) as [Hf _].
    rewrite <- positions_fetches_calls, Hnone in Hf.
    destruct exchanges as [|first rest]; [discriminate Hc | discriminate Hf].
Qed.

Lemma close_loop_counts (exchanges : list string) (name : string)
    (positions : list record) :
  configured name exchanges = true ->
  Forall normal positions ->
  forall (results : dict result) (w : World),
  exists results' w' t,
    foldM (close_one exchanges name) positions results w = (inr results', w', t) /\
    length (positions_fetches t) = (length positions * length exchanges)%nat /\
    (length (order_calls t) <= length positions)%nat.
Proof.
  intros Hc. induction 1 as [|pos rest Hpos Hrest IH]; intros results w.
  - exists results, w, []. repeat split. apply Nat.le_refl.
  - cbn [foldM].
    destruct (close_one_outcome exchanges name results pos w Hpos) as [res E].
    rewrite (bind_returned _ _ _ _ _ _ E).
    destruct (IH (dict_set (key_of (name, pos)) res results)
                 (world_of (close_position exchanges name (position_symbol pos) w)))
      as (results' & w' & t & E' & Hf & Ho).
    rewrite E'. eexists _, _, _. split; [reflexivity|].
    destruct (close_position_counts exchanges name (position_symbol pos) w Hc)
      as [Hf1 Ho1].
    change (events_of (inr results', w', t)) with t.
    rewrite positions_fetches_app, order_calls_app, !length_app.
    rewrite Hf1, length_map, Hf. cbn [length]. split; lia.
Qed.

Lemma close_all_loop_counts (exchanges : list string)
    (positions_data : dict (list record)) :
  well_formed positions_data ->
  named exchanges positions_data ->
  forall (results : dict result) (w : World),
  exists results' w' t,
    foldM (fun results '(exchange_name, positions) =>
             foldM (close_one exchanges exchange_name) positions results)
          positions_data results w = (inr results', w', t) /\
    length (positions_fetches t) =
      (length (discovered positions_data) * length exchanges)%nat /\
    (length (order_calls t) <= length (discovered positions_data))%nat.
Proof.
  induction 1 as [|[name positions] rest Hps Hrest IH]; intros Hn results w.
  - exists results, w, []. repeat split. apply Nat.le_refl.
  - inversion Hn as [|? ? Hname Hn']; subst. cbn [fst] in Hname.
    apply existsb_eqb_In in Hname.
    cbn [foldM discovered flat_map].
    destruct (close_loop_counts exchanges name positions Hname Hps results w)
      as (r1 & w1 & t1 & E1 & Hf1 & Ho1).
    rewrite (bind_returned _ _ _ _ _ _ E1).
    destruct (IH Hn' r1 w1) as (r2 & w2 & t2 & E2 & Hf2 & Ho2).
    rewrite E2. eexists _, _, _. split; [reflexivity|].
    change (events_of (inr r2, w2, t2)) with t2.
    rewrite positions_fetches_app, order_calls_app, !length_app, length_map.
    fold (discovered rest). rewrite Hf1, Hf2. split; lia.
Qed.

(** X20. [close_all_positions] fetches the positions of every configured
    exchange once for its snapshot and once more for each position it
    found: with N positions and E exchanges, (N + 1) * E fetches. It
    creates at most N orders. *)
Theorem close_all_positions_calls (exchanges : list string) (w : World) :
  let n := length (discovered (fetched_positions exchanges w)) in
  length (positions_fetches (events_of (close_all_positions exchanges w))) =
    (S n * length exchanges)%nat /\
  (length (order_calls (events_of (close_all_positions exchanges w))) <= n)%nat.
Proof.
  intros n. unfold close_all_positions.
  destruct (fetched_positions_labelled exchanges w) as [_ Hn].
  destruct (close_all_loop_counts exchanges (fetched_positions exchanges w)
              (fetched_positions_well_formed exchanges w) Hn []
              (world_of (get_positions exchanges w)))
    as (results & w' & t & E & Hf & Ho).
  rewrite bind_log, (bind_returned _ _ _ _ _ _ (get_positions_outcome exchanges w)).
  rewrite (bind_returned _ _ _ _ _ _ E), bind_log. rewrite !events_after.
  rewrite !positions_fetches_app, !order_calls_app, !length_app.
  rewrite <- (positions_fetches_calls (events_of (get_positions exchanges w))).
  rewrite get_positions_calls, positions_fetches_map, length_map.
  rewrite get_positions_no_orders, Hf. fold n in Ho |- *. cbn. split; lia.
Qed.

Lemma sum_positions_numbers (positions : list record) :
  Forall normal positions ->
  forall (xs : list num) (stats : summary),
  map position_pnl positions = map PNum xs ->
  sum_positions stats positions =
  ({| portfolio_value := portfolio_value stats;
      total_pnl := fold_left nadd xs (total_pnl stats);
      margin_used := margin_used stats |}, None).
Proof.
  induction 1 as [|pos rest Hpos Hrest IH]; intros xs stats Hx.
  - destruct xs; [|discriminate]. now destruct stats.
  - destruct xs as [|x xs]; [discriminate|]. cbn [map] in Hx.
    injection Hx as Hp Hr. cbn [sum_positions]. unfold position_pnl in Hp.
    rewrite Hp. cbn [py_add as_number].
    rewrite (normal_marginRatio _ Hpos). cbn [is_none].
    now rewrite (IH xs _ Hr).
Qed.

(** X21. For an exchange whose balance has a number as the total of USDT
    and whose returned positions have numbers as unrealized PnL, one turn
    of [calculate_summary_stats] adds the total to the portfolio value and
    the PnL of the positions, one after the other, to the total PnL; the
    margin used stays as it was, and nothing is logged. *)
Theorem summary_adds_account (positions_data : dict (list record))
    (stats : summary) (name : string) (b u : dict pyval) (total : num)
    (xs : list num) (w w' : World) :
  well_formed positions_data ->
  fetch_balance name w = (inr (PDict b), w') ->
  dict_get "USDT" b = Some (PDict u) ->
  dict_get "total" u = Some (PNum total) ->
  map position_pnl (dict_get_default name positions_data []) = map PNum xs ->
  summary_for positions_data stats name w =
  (inr {| portfolio_value := nadd (portfolio_value stats) total;
          total_pnl := fold_left nadd xs (total_pnl stats);
          margin_used := margin_used stats |},
   w', [EFetchBalance name]).
Proof.
  intros Hwf Hb Hu Ht Hx. unfold summary_for, bind, attempt, call.
  rewrite Hb. cbv beta iota. unfold account_totals, add_balance.
  cbn [py_get]. unfold dict_get_default at 1. rewrite Hu. cbn [py_get].
  unfold dict_get_default at 1. rewrite Ht. cbn [py_add as_number].
  rewrite (sum_positions_numbers _ (well_formed_get _ name Hwf) xs _ Hx).
  reflexivity.
Qed.

End MoreCloseFacts.

(** ** Pending orders, placing and cancelling *)

Section DeskFacts.

Context {num : Type} {PN : PyNumber num} {PT : PyText}.
Context {World : Type} {ENV : Environment num World} {DESK : OrderDesk num World}.

Local Abbreviation pyval := (pyval num).
Local Abbreviation desk_event := (desk_event num).

Lemma answered_keys (replies : list (string * (exn + pyval))) (name : string) :
  In name (keys (answered replies)) -> In name (map fst replies).
Proof.
  induction replies as [|[n [e|orders]] rest IH]; cbn; [tauto | |];
    intros H; [right; auto|]. destruct H; [now left | right; auto].
Qed.

Lemma answered_get (replies : list (string * (exn + pyval))) (name : string)
    (r : exn + pyval) :
  NoDup (map fst replies) ->
  In (name, r) replies ->
  dict_get name (answered replies) =
  match r with inr orders => Some orders | inl _ => None end.
Proof.
  induction replies as [|[n r'] rest IH]; cbn [map fst In]; [tauto|].
  intros Hn Hin. inversion Hn as [|? ? Hfresh Hrest]; subst.
  destruct Hin as [E | Hin].
  - injection E as -> ->. destruct r as [e|orders]; cbn [answered dict_get].
    + apply dict_get_not_key. intros H. apply Hfresh. now apply answered_keys.
    + now rewrite String.eqb_refl.
  - assert (Hne : n <> name).
    { intros ->. apply Hfresh. now apply (in_map fst _ (name, r)). }
    destruct r' as [e|orders]; cbn [answered dict_get].
    + now apply IH.
    + destruct (String.eqb_spec n name); [contradiction|]. now apply IH.
Qed.

Lemma order_replies_names (exchanges : list string) (w : World) :
  map fst (order_replies exchanges w) = exchanges.
Proof.
  revert w. induction exchanges as [|name rest IH]; intros w; [reflexivity|].
  cbn [order_replies]. destruct (fetch_open_orders name w) as [r w1].
  cbn [map fst]. now rewrite IH.
Qed.

Lemma pending_loop_value (exchanges : list string) :
  NoDup exchanges ->
  forall (pending_orders : dict pyval) (w : World),
  (forall name, In name exchanges -> ~ In name (keys pending_orders)) ->
  fst (fst (pending_loop exchanges pending_orders w)) =
  pending_orders ++ answered (order_replies exchanges w).
Proof.
  induction 1 as [|name rest Hfresh Hrest IH]; intros pending w Hk.
  - cbn. now rewrite app_nil_r.
  - cbn [pending_loop order_replies].
    destruct (fetch_open_orders name w) as [[e|orders] w1].
    + assert (E := IH pending w1 (fun n Hn => Hk n (or_intror Hn))).
      destruct (pending_loop rest pending w1) as [[p w2] t]. exact E.
    + rewrite (dict_set_fresh _ _ _ (Hk name (or_introl eq_refl))).
      assert (E := IH (pending ++ [(name, orders)]) w1).
      destruct (pending_loop rest (pending ++ [(name, orders)]) w1) as [[p w2] t].
      cbn [fst answered] in E |- *. rewrite E.
      * now rewrite <- app_assoc.
      * intros n Hn. unfold keys. rewrite map_app, in_app_iff. cbn.
        intros [Hin | [-> | []]]; [|contradiction].
        exact (Hk n (or_intror Hn) Hin).
Qed.

Lemma pending_loop_calls (exchanges : list string) (pending_orders : dict pyval)
    (w : World) :
  desk_calls (snd (pending_loop exchanges pending_orders w)) =
  map EFetchOpenOrders exchanges.
Proof.
  revert pending_orders w.
  induction exchanges as [|name rest IH]; intros pending w; [reflexivity|].
  cbn [pending_loop]. destruct (fetch_open_orders name w) as [[e|orders] w1].
  - assert (E := IH pending w1).
    destruct (pending_loop rest pending w1) as [[p w2] t].
    cbn in E |- *. now rewrite E.
  - assert (E := IH (dict_set name orders pending) w1).
    destruct (pending_loop rest (dict_set name orders pending) w1) as [[p w2] t].
    cbn in E |- *. now rewrite E.
Qed.

(** X22. [get_pending_orders] gives partial results: an exchange whose
    client answered has its orders under its name, and an exchange whose
    client raised has no entry at all, whatever the other clients did. *)
Theorem pending_orders_partial (exchanges : list string) (w : World)
    (name : string) (r : exn + pyval) :
  NoDup exchanges ->
  In (name, r) (order_replies exchanges w) ->
  dict_get name (fst (fst (get_pending_orders exchanges w))) =
  match r with inr orders => Some orders | inl _ => None end.
Proof.
  intros Hn Hin.
  assert (E : fst (fst (get_pending_orders exchanges w)) =
              answered (order_replies exchanges w)).
  { destruct exchanges as [|first rest]; [reflexivity|].
    unfold get_pending_orders.
    assert (E := pending_loop_value (first :: rest) Hn [] w (fun _ _ H => H)).
    destruct (pending_loop (first :: rest) [] w) as [[p w'] t]. exact E. }
  rewrite E. apply answered_get; [|assumption].
  now rewrite order_replies_names.
Qed.

(** X23. [get_pending_orders] asks every configured exchange for its open
    orders once, in the order of the configuration, also after a client
    has raised; it makes no other call. *)
Theorem pending_orders_calls (exchanges : list string) (w : World) :
  desk_calls (snd (get_pending_orders exchanges w)) =
  map EFetchOpenOrders exchanges.
Proof.
  destruct exchanges as [|first rest]; [reflexivity|].
  unfold get_pending_orders.
  assert (E := pending_loop_calls (first :: rest) [] w).
  destruct (pending_loop (first :: rest) [] w) as [[p w'] t]. exact E.
Qed.

(** X24. [execute_order] refuses without calling a client, and leaves the
    world as it was, when the exchange is not configured, and when the
    order type is not "market" and is not "limit" with a truthy price: a
    limit order at price 0 or without price is refused. *)
Theorem execute_order_refuses (exchanges : list string) (exchange_name : string)
    (symbol : pyval) (side : string) (order_type quantity price : pyval)
    (w : World) :
  configured exchange_name exchanges = false \/
  (py_eq_str order_type "market" = false /\
   (py_eq_str order_type "limit" = false \/ truthy price = false)) ->
  desk_calls (snd (execute_order exchanges exchange_name symbol side order_type
                                 quantity price w)) = [] /\
  snd (fst (execute_order exchanges exchange_name symbol side order_type
                          quantity price w)) = w /\
  forall order,
    fst (fst (execute_order exchanges exchange_name symbol side order_type
                            quantity price w)) <> Executed order.
Proof.
  intros H. unfold execute_order.
  destruct (configured exchange_name exchanges) eqn:Hc; cbn [negb];
    [|repeat split; discriminate].
  destruct H as [H | [Hm Hl]]; [discriminate|]. rewrite Hm.
  assert (E : (py_eq_str order_type "limit" && truthy price)%bool = false).
  { destruct Hl as [-> | ->]; [reflexivity | apply andb_false_r]. }
  rewrite E. repeat split; discriminate.
Qed.

(** X25. A market order ignores the price: on a configured exchange
    [execute_order] makes the same single call to [create_market_order],
    without the price, and gives the same result and world for every
    price. *)
Theorem execute_order_market_ignores_price (exchanges : list string)
    (exchange_name : string) (symbol : pyval) (side : string)
    (order_type quantity price price' : pyval) (w : World) :
  configured exchange_name exchanges = true ->
  py_eq_str order_type "market" = true ->
  fst (execute_order exchanges exchange_name symbol side order_type quantity
                     price w) =
  fst (execute_order exchanges exchange_name symbol side order_type quantity
                     price' w) /\
  desk_calls (snd (execute_order exchanges exchange_name symbol side order_type
                                 quantity price w)) =
  [Core (ECreateMarketOrder exchange_name symbol side quantity)].
Proof.
  intros Hc Hm. unfold execute_order. rewrite Hc, Hm. cbn [negb].
  destruct (create_market_order exchange_name symbol side quantity w)
    as [[e|order] w']; split; reflexivity.
Qed.

(** X26. [execute_order] calls a client at most once, and a result with
    status "success" comes from exactly one call that returned: a market
    order, or a limit order with its truthy price. *)
Theorem execute_order_single_call (exchanges : list string)
    (exchange_name : string) (symbol : pyval) (side : string)
    (order_type quantity price : pyval) (w : World) :
  (length (desk_calls (snd (execute_order exchanges exchange_name symbol side
                                          order_type quantity price w))) <= 1)%nat /\
  forall order,
    fst (fst (execute_order exchanges exchange_name symbol side order_type
                            quantity price w)) = Executed order ->
    configured exchange_name exchanges = true /\
    ((desk_calls (snd (execute_order exchanges exchange_name symbol side
                                     order_type quantity price w)) =
        [Core (ECreateMarketOrder exchange_name symbol side quantity)] /\
      fst (create_market_order exchange_name symbol side quantity w) = inr order)
     \/
     (desk_calls (snd (execute_order exchanges exchange_name symbol side
                                     order_type quantity price w)) =
        [ECreateLimitOrder exchange_name symbol side quantity price] /\
      truthy price = true /\
      fst (create_limit_order exchange_name symbol side quantity price w) =
        inr order)).
Proof.
  unfold execute_order.
  destruct (configured exchange_name exchanges); cbn [negb];
    [|split; [cbn; lia | discriminate]].
  destruct (py_eq_str order_type "market").
  - destruct (create_market_order exchange_name symbol side quantity w)
      as [[e|order'] w']; (split; [cbn; lia|]); cbn; [discriminate|].
    intros order [= <-]. split; [reflexivity|]. left. now split.
  - destruct (py_eq_str order_type "limit"); cbn [andb];
      [|split; [cbn; lia | discriminate]].
    destruct (truthy price) eqn:Hp; [|split; [cbn; lia | discriminate]].
    destruct (create_limit_order exchange_name symbol side quantity price w)
      as [[e|order'] w']; (split; [cbn; lia|]); cbn; [discriminate|].
    intros order [= <-]. split; [reflexivity|]. right. now repeat split.
Qed.

(** X27. [cancel_order] calls [cancel_order] of the client once when the
    exchange is configured, and makes no call otherwise; its result has
    status "success", with the reply of the client, exactly when the
    exchange is configured and that call returned. *)
Theorem cancel_order_calls (exchanges : list string) (exchange_name : string)
    (order_id symbol : pyval) (w : World) :
  desk_calls (snd (cancel_order exchanges exchange_name order_id symbol w)) =
    (if configured exchange_name exchanges
     then [ECancelOrder exchange_name order_id symbol] else []) /\
  forall r,
    fst (fst (cancel_order exchanges exchange_name order_id symbol w)) = Success r
    <->
    configured exchange_name exchanges = true /\
    fst (exchange_cancel_order exchange_name order_id symbol w) = inr r.
Proof.
  unfold cancel_order.
  destruct (configured exchange_name exchanges); cbn [negb].
  - destruct (exchange_cancel_order exchange_name order_id symbol w)
      as [[e|r'] w']; (split; [reflexivity|]); intros r; cbn; split.
    + discriminate.
    + intros [_ H]; discriminate.
    + intros [= ->]. now split.
    + intros [_ [= ->]]. reflexivity.
  - split; [reflexivity|]. intros r; split; [discriminate|].
    intros [H _]; discriminate.
Qed.

End DeskFacts.

(** ** The model at work *)

Import Ideal Scripted Examples Cases.

(** C1. Binance reports one open position with notional 100, margin ratio
    1/2 and unrealized PnL 3, and a balance of 1000 USDT. The summary has
    the balance and the PnL, and 0 as the margin used, although the
    product of notional and margin ratio is 50. *)
Theorem summary_loses_margin :
  positions_reply one_position "binance" = inr [btc_long; eth_flat] /\
  dict_get "notional" btc_long = Some (PNum (XFin 100)) /\
  dict_get "marginRatio" btc_long = Some (PNum (XFin (1 # 2))) /\
  nmul (XFin 100) (XFin (1 # 2)) = XFin 50 /\
  value_of (calculate_summary_stats (ENV := environment one_position)
              ["binance"] tt) =
  inr {| portfolio_value := XFin 1000;
         total_pnl := XFin 3;
         margin_used := XFin 0 |}.
Proof. repeat split. Qed.



(** C3, counterexample. The quantity "inf" is not a finite number, and
    the signal is placed as a market order for an infinite amount. *)
Lemma infinite_quantity_is_accepted :
  float_text "inf" = Some (LInf false) /\
  nfinite (nliteral (LInf false)) = false /\
  events_of (process_signal (ENV := environment quiet) ["binance"]
               (PDict (signal "binance" "market" (PStr "inf"))) tt) =
    [ ELog (LogPlacingOrder "binance"
              (PDict (signal "binance" "market" (PStr "inf"))));
      ECreateOrder "binance" (PStr "BTC/USDT") "market" "buy"
                   (XInf false) None;
      ELog (LogOrderPlaced accepted) ].
Proof. repeat split. Qed.

Lemma quantity_validation_witness :
  events_of (process_signal (ENV := environment quiet) ["binance"]
               (PDict (signal "binance" "market" (PStr "ten"))) tt) =
    [ELog LogInvalidQuantity] /\
  exchange_calls
    (events_of (process_signal (ENV := environment quiet) ["binance"]
                  (PDict (signal "binance" "market" (PStr "ten"))) tt)) = [].
Proof.
  apply (proj1 (proj2 (quantity_validation (ENV := environment quiet)
                         ["binance"]
                         (signal "binance" "market" (PStr "ten"))
                         "binance" (PStr "BTC/USDT") "buy" "market"
                         (PStr "ten") tt
                         (conj eq_refl (conj eq_refl (conj eq_refl
                            (conj eq_refl eq_refl))))))
               ValueError).
  reflexivity.
Defined.

(** C4, counterexample. In hedge mode Binance reports a long and a short
    position in BTC/USDT, and numbers the orders it accepts. Two positions
    are found and two attempts are made, each of which places an order,
    and the result dictionary has one entry: the second order, which has
    replaced the first. *)
Lemma hedged_positions_share_an_entry :
  length (discovered (fetched_positions (ENV := numbering)
                        ["binance"] 0%nat)) = 2%nat /\
  length (close_attempts
            (events_of (close_all_positions (ENV := numbering)
                          ["binance"] 0%nat))) = 2%nat /\
  fst (close_results (ENV := numbering) ["binance"]
         (discovered (fetched_positions (ENV := numbering) ["binance"] 0%nat))
         (world_of (get_positions (ENV := numbering) ["binance"] 0%nat))) =
    [("binance_BTC/USDT", Success (ticket 1));
     ("binance_BTC/USDT", Success (ticket 2))] /\
  value_of (close_all_positions (ENV := numbering) ["binance"] 0%nat) =
    inr [("binance_BTC/USDT", Success (ticket 2))].
Proof. repeat split. Qed.

Lemma close_all_positions_attempts_witness :
  exists results,
    value_of (close_all_positions (ENV := environment two_symbols)
                ["binance"] tt) = inr results /\
    length results = 2%nat.
Proof.
  destruct (close_all_positions_attempts (ENV := environment two_symbols)
              ["binance"] tt)
    as (results & Hv & _ & _ & _ & _ & _ & Hn & _).
  exists results. split; [exact Hv|].
  rewrite Hn; [reflexivity|].
  repeat constructor; simpl; intuition discriminate.
Defined.

(** C5, counterexample. The order type "stop" is not supported, but the
    exchange "kraken" is not configured, and that is what is reported. *)
Lemma unknown_exchange_is_reported_first :
  events_of (process_signal (ENV := environment quiet) ["binance"]
               (PDict (signal "kraken" "stop" (PStr "0.01"))) tt) =
    [ELog (LogExchangeNotConfigured "kraken")].
Proof. reflexivity. Qed.

Lemma unsupported_order_type_witness :
  events_of (process_signal (ENV := environment quiet) ["binance"]
               (PDict (signal "Binance" "STOP" (PStr "0.01"))) tt) =
    [ ELog (LogPlacingOrder "binance"
              (PDict (signal "Binance" "STOP" (PStr "0.01"))));
      ELog (LogUnsupportedOrderType "stop") ] /\
  order_calls
    (events_of (process_signal (ENV := environment quiet) ["binance"]
                  (PDict (signal "Binance" "STOP" (PStr "0.01"))) tt)) = [].
Proof.
  refine (unsupported_order_type (ENV := environment quiet) ["binance"]
            (signal "Binance" "STOP" (PStr "0.01"))
            "Binance" (PStr "BTC/USDT") "buy" "STOP" (PStr "0.01")
            (XFin (1 # 100)) tt _ _ _ _ _).
  - repeat split.
  - reflexivity.
  - left. reflexivity.
  - discriminate.
  - discriminate.
Defined.

Lemma close_position_one_market_order_witness :
  order_calls
    (events_of (close_position (ENV := environment one_position)
                  ["binance"] "binance" (PStr "BTC/USDT") tt)) =
    [ECreateMarketOrder "binance" (PStr "BTC/USDT") "sell" (number 1)].
Proof.
  apply (close_position_one_market_order (ENV := environment one_position)
           ["binance"] "binance" (PStr "BTC/USDT") tt
           (normalize "binance" btc_long)).
  - reflexivity.
  - reflexivity.
Defined.

(** C6, counterexample. In hedge mode Binance reports a long position of
    1 contract and a short position of 2 contracts in BTC/USDT, both
    returned by [get_positions]. [close_position] for BTC/USDT makes one
    order, the sale that closes the long position, which comes first: the
    short position matches the symbol, and no purchase of 2 is made. *)
Lemma hedged_short_is_not_closed :
  dict_get "binance"
    (fetched_positions (ENV := environment hedged) ["binance"] tt) =
    Some [normalize "binance" btc_long; normalize "binance" btc_short] /\
  holds (PStr "BTC/USDT") (normalize "binance" btc_short) = true /\
  position_side (normalize "binance" btc_short) = PStr "short" /\
  position_contracts (normalize "binance" btc_short) = number 2 /\
  order_calls
    (events_of (close_position (ENV := environment hedged)
                  ["binance"] "binance" (PStr "BTC/USDT") tt)) =
    [ECreateMarketOrder "binance" (PStr "BTC/USDT") "sell" (number 1)].
Proof. repeat split. Qed.

Lemma close_position_without_position_witness :
  value_of (close_position (ENV := environment one_position)
              ["binance"] "binance" (PStr "ETH/USDT") tt) =
    inr (Error NoOpenPosition) /\
  order_calls
    (events_of (close_position (ENV := environment one_position)
                  ["binance"] "binance" (PStr "ETH/USDT") tt)) = [].
Proof.
  apply (close_position_without_position (ENV := environment one_position)
           ["binance"] "binance" (PStr "ETH/USDT") tt).
  - reflexivity.
  - reflexivity.
Defined.

(** C8, counterexample. No PIN is configured. A request whose body is the
    JSON list [[]], or a JSON text, is well formed and has no PIN to
    match; it is answered with 500, and the body [null] with 400; none is
    handed to [process_signal]. *)
Lemma webhook_refuses_what_is_no_object :
  trade_signal (ENV := environment quiet) no_pin (inr (PList [])) tt =
    (inr (ErrorException AttributeError, 500%nat), tt,
     [ELog (LogWebhookError AttributeError)]) /\
  trade_signal (ENV := environment quiet) no_pin (inr (PStr "buy")) tt =
    (inr (ErrorException AttributeError, 500%nat), tt,
     [ELog (LogWebhookError AttributeError)]) /\
  trade_signal (ENV := environment quiet) no_pin (inr PNone) tt =
    (inr (ErrorNoJson, 400%nat), tt, [ELog LogEmptyJson]).
Proof. repeat split. Qed.

(** The exchange rejects the order, and the webhook still answers 200. *)
Lemma webhook_acknowledges_witness :
  value_of (trade_signal (ENV := environment hedged) pin_1234
              (inr (PDict (with_pin "1234"
                             (signal "binance" "market" (PStr "0.01")))))
              tt) = inr (StatusOk, 200%nat).
Proof.
  apply (webhook_acknowledges (ENV := environment hedged) pin_1234
           (with_pin "1234" (signal "binance" "market" (PStr "0.01"))) tt).
  right. reflexivity.
Defined.

(** C9, counterexample. Bybit times out in [fetch_positions] and answers
    [fetch_balance] with 500 USDT; Binance has 1000 USDT. Bybit has the
    empty list in the result of [get_positions], and the portfolio value
    of the summary is 1500: the failing exchange has added its balance. *)
Lemma failing_exchange_adds_its_balance :
  positions_reply bybit_half_down "bybit" = inl (OtherError "RequestTimeout") /\
  dict_get "bybit"
    (fetched_positions (ENV := environment bybit_half_down) both tt) = Some [] /\
  value_of (calculate_summary_stats (ENV := environment bybit_half_down)
              both tt) =
    inr {| portfolio_value := XFin 1500;
           total_pnl := XFin 3;
           margin_used := XFin 0 |}.
Proof. repeat split. Qed.

Lemma fan_out_partial_results_witness :
  dict_get "bybit" (fetched_positions (ENV := environment bybit_down) both tt)
    = Some [] /\
  dict_get "binance" (fetched_positions (ENV := environment bybit_down) both tt)
    = Some [normalize "binance" btc_long] /\
  value_of (calculate_summary_stats (ENV := environment bybit_down) both tt) =
    inr {| portfolio_value := XFin 1000;
           total_pnl := XFin 3;
           margin_used := XFin 0 |}.
Proof.
  assert (NoDup both) as Hn.
  { repeat constructor; simpl; intuition discriminate. }
  destruct (fan_out_partial_results (ENV := environment bybit_down) both tt Hn)
    as (_ & Hdown & Hup & Hsum & _ & _).
  split; [|split].
  - apply (Hdown "bybit" (OtherError "RequestTimeout")). left. reflexivity.
  - apply (Hup "binance" [btc_long]). right. left. reflexivity.
  - rewrite Hsum. reflexivity.
Defined.

Lemma returned_positions_are_open_witness :
  py_gt0 (position_contracts (normalize "binance" btc_long)) = inr true.
Proof.
  apply (proj1 (proj2 (returned_positions_are_open
                         (ENV := environment one_position) ["binance"] tt))
               "binance" [normalize "binance" btc_long]
               (normalize "binance" btc_long)).
  - left. reflexivity.
  - left. reflexivity.
Defined.


(** ** More runs of the model *)

Lemma process_signal_missing_field_witness :
  process_signal (ENV := environment quiet) ["binance"] (PDict no_side) tt =
  (inr tt, tt, [ELog (LogMissingField "SIDE")]).
Proof.
  apply (process_signal_missing_field (ENV := environment quiet)).
  reflexivity.
Defined.

Lemma process_signal_field_not_text_witness :
  process_signal (ENV := environment quiet) ["binance"] (PDict null_exchange) tt =
  (inr tt, tt, [ELog (LogSignalError AttributeError)]).
Proof.
  apply (process_signal_field_not_text (ENV := environment quiet) ["binance"]
           null_exchange "EXCHANGE" PNone tt).
  - reflexivity.
  - left. reflexivity.
  - reflexivity.
  - discriminate.
Defined.

Lemma process_signal_invalid_side_witness :
  process_signal (ENV := environment quiet) ["binance"] (PDict hold) tt =
  (inr tt, tt, [ELog (LogInvalidSide "hold")]).
Proof.
  refine (process_signal_invalid_side (ENV := environment quiet) ["binance"]
            hold "binance" (PStr "BTC/USDT") "Hold" "market" (number 1)
            (XFin (inject_Z 1)) tt _ _ _ _).
  - repeat split.
  - reflexivity.
  - discriminate.
  - discriminate.
Defined.

Lemma process_signal_limit_price_witness :
  process_signal (ENV := environment quiet) ["binance"]
    (PDict (signal "binance" "limit" (number 1))) tt =
  (inr tt, tt, [ELog LogMissingPrice]).
Proof.
  refine (proj1 (process_signal_limit_price (ENV := environment quiet)
                   ["binance"] (signal "binance" "limit" (number 1))
                   "binance" (PStr "BTC/USDT") "buy" "limit" (number 1)
                   (XFin (inject_Z 1)) tt _ _ _ _) _).
  - repeat split.
  - reflexivity.
  - left. reflexivity.
  - reflexivity.
  - reflexivity.
Defined.

Lemma process_signal_market_order_witness :
  process_signal (ENV := environment quiet) ["binance"]
    (PDict (priced (number 5) (signal "Binance" "Market" (PStr " 0.5 ")))) tt =
  (inr tt, tt,
   [ELog (LogPlacingOrder "binance"
            (PDict (priced (number 5) (signal "Binance" "Market" (PStr " 0.5 ")))));
    ECreateOrder "binance" (PStr "BTC/USDT") "market" "buy" (XFin (1 # 2)) None;
    ELog (LogOrderPlaced accepted)]).
Proof.
  refine (process_signal_market_order (ENV := environment quiet) ["binance"]
            (priced (number 5) (signal "Binance" "Market" (PStr " 0.5 ")))
            "Binance" (PStr "BTC/USDT") "buy" "Market" (PStr " 0.5 ")
            (XFin (1 # 2)) tt _ _ _ _ _).
  - repeat split.
  - reflexivity.
  - left. reflexivity.
  - reflexivity.
  - reflexivity.
Defined.

Lemma process_signal_limit_order_witness :
  process_signal (ENV := environment quiet) ["binance"]
    (PDict (priced (PStr "100") (signal "binance" "limit" (number 1)))) tt =
  (inr tt, tt,
   [ELog (LogPlacingOrder "binance"
            (PDict (priced (PStr "100") (signal "binance" "limit" (number 1)))));
    ECreateOrder "binance" (PStr "BTC/USDT") "limit" "buy" (XFin (inject_Z 1))
      (Some (XFin (inject_Z 100)));
    ELog (LogOrderPlaced accepted)]).
Proof.
  refine (process_signal_limit_order (ENV := environment quiet) ["binance"]
            (priced (PStr "100") (signal "binance" "limit" (number 1)))
            "binance" (PStr "BTC/USDT") "buy" "limit" (number 1) (PStr "100")
            (XFin (inject_Z 1)) (XFin (inject_Z 100)) tt _ _ _ _ _ _ _).
  - repeat split.
  - reflexivity.
  - left. reflexivity.
  - reflexivity.
  - reflexivity.
  - reflexivity.
  - reflexivity.
Defined.

Lemma webhook_rejects_wrong_pin_witness :
  trade_signal (ENV := environment quiet) pin_1234
    (inr (PDict (with_pin "0000" (signal "binance" "market" (number 1))))) tt =
  (inr (ErrorInvalidPin, 403%nat), tt, [ELog LogInvalidPin]).
Proof.
  apply (webhook_rejects_wrong_pin (ENV := environment quiet)).
  - discriminate.
  - reflexivity.
Defined.

Lemma mail_without_marker_witness :
  handle_message (ENV := environment (inbox "Your invoice")) pin_0000 "1" tt =
  (inr tt, tt,
   [EImapFetch "1"; ELog (LogCheckingSubject "Your invoice");
    ELog LogNonTradingMail]).
Proof.
  refine (mail_without_marker (ENV := environment (inbox "Your invoice"))
            pin_0000 "1" "Your invoice" tt tt _ _).
  - reflexivity.
  - reflexivity.
Defined.

Lemma mail_without_signal_witness :
  handle_message (ENV := environment (inbox "Alert: null")) pin_0000 "1" tt =
  (inr tt, tt,
   [EImapFetch "1"; ELog (LogCheckingSubject "Alert: null");
    ELog LogNonTradingMail]).
Proof.
  refine (proj2 (mail_without_signal (ENV := environment (inbox "Alert: null"))
                   pin_0000 "1" "Alert: null" " null" tt tt _ _)
                PNone _ _); reflexivity.
Defined.

Lemma mail_signal_is_marked_read_witness :
  stores (events_of (handle_message (ENV := environment (inbox alert_subject))
                       pin_0000 "1" tt)) = [EImapStore "1"].
Proof.
  refine (proj2 (mail_signal_is_marked_read
                   (ENV := environment (inbox alert_subject)) pin_0000 "1"
                   alert_subject (" " ++ json_object alert_fields)%string
                   (PDict alert_payload) tt tt _ _ _ _
                   (or_intror (ex_intro _ alert_payload (conj eq_refl eq_refl)))));
    reflexivity.
Defined.

Lemma check_inbox_visits_all_witness :
  fetches (events_of (check_inbox (ENV := environment (inbox alert_subject))
                        pin_0000 tt)) = [EImapFetch "1"].
Proof.
  apply (proj1 (proj2 (check_inbox_visits_all
                         (ENV := environment (inbox alert_subject)) pin_0000
                         ["1"] tt tt tt eq_refl eq_refl))).
Defined.

Lemma check_inbox_without_messages_witness :
  check_inbox (ENV := offline) pin_0000 tt =
  (inr tt, tt,
   [ELog LogImapConnecting; EImapConnect;
    ELog (LogInboxError (OtherError "ConnectionRefused"))]).
Proof.
  apply (proj1 (check_inbox_without_messages (ENV := offline) pin_0000 tt tt)).
  reflexivity.
Defined.

Lemma close_position_unknown_exchange_witness :
  close_position (ENV := environment one_position) ["binance"] "kraken"
    (PStr "BTC/USDT") tt =
  (inr (Error (ExchangeNotFound "kraken")), tt,
   [ELog (LogClosing "kraken" (PStr "BTC/USDT"));
    ELog (LogExchangeUnavailable "kraken")]).
Proof.
  apply (proj1 (close_position_unknown_exchange
                  (ENV := environment one_position) ["binance"] "kraken"
                  (PStr "BTC/USDT") tt)).
  reflexivity.
Defined.

Lemma close_position_result_witness :
  value_of (close_position (ENV := environment hedged) ["binance"] "binance"
              (PStr "BTC/USDT") tt) =
  inr (Error (ExceptionText (OtherError "InsufficientFunds"))).
Proof.
  apply (close_position_result (ENV := environment hedged) ["binance"]
           "binance" (PStr "BTC/USDT") tt (normalize "binance" btc_long)).
  - reflexivity.
  - reflexivity.
Defined.

Lemma returned_positions_shape_witness :
  keys (normalize "binance" btc_long) = position_keys /\
  dict_get "exchange" (normalize "binance" btc_long) = Some (PStr "binance") /\
  In "binance" both.
Proof.
  apply (returned_positions_shape (ENV := environment one_position) both tt
           "binance" [normalize "binance" btc_long]
           (normalize "binance" btc_long)).
  - right. left. reflexivity.
  - left. reflexivity.
Defined.

Lemma scan_stops_at_bad_contracts_witness :
  get_positions_for (ENV := environment broken_feed) [] "binance" tt =
  (inr [("binance", [normalize "binance" btc_long])], tt,
   [EFetchPositions "binance"; ELog (LogPositionsError "binance" TypeError)]).
Proof.
  refine (scan_stops_at_bad_contracts (ENV := environment broken_feed) []
            "binance" [btc_long] [eth_long] btc_null TypeError tt tt _ _ _).
  - reflexivity.
  - reflexivity.
  - reflexivity.
Defined.

Lemma summary_adds_account_witness :
  summary_for (ENV := environment two_symbols)
    (fetched_positions (ENV := environment two_symbols) ["binance"] tt)
    summary_zero "binance" tt =
  (inr {| portfolio_value := XFin (inject_Z 1000);
          total_pnl := XFin (inject_Z 5);
          margin_used := XFin 0 |},
   tt, [EFetchBalance "binance"]).
Proof.
  refine (summary_adds_account (ENV := environment two_symbols)
            (fetched_positions (ENV := environment two_symbols) ["binance"] tt)
            summary_zero "binance"
            [("USDT", PDict [("total", number 1000)])] [("total", number 1000)]
            (XFin (inject_Z 1000)) [XFin (inject_Z 3); XFin (inject_Z 2)] tt tt
            _ _ _ _ _).
  - apply fetched_positions_well_formed.
  - reflexivity.
  - reflexivity.
  - reflexivity.
  - reflexivity.
Defined.

Lemma pending_orders_partial_witness :
  dict_get "bybit"
    (fst (fst (get_pending_orders (DESK := desk) both tt))) = None /\
  dict_get "binance"
    (fst (fst (get_pending_orders (DESK := desk) both tt))) =
    Some (PList [open_order]).
Proof.
  assert (Hn : NoDup both).
  { repeat constructor; cbn; intuition discriminate. }
  split.
  - apply (pending_orders_partial (DESK := desk) both tt "bybit"
             (inl (OtherError "RequestTimeout")) Hn).
    left. reflexivity.
  - apply (pending_orders_partial (DESK := desk) both tt "binance"
             (inr (PList [open_order])) Hn).
    right. left. reflexivity.
Defined.

Lemma execute_order_refuses_witness :
  desk_calls (snd (execute_order (ENV := environment quiet) (DESK := desk)
                     ["binance"] "binance" (PStr "BTC/USDT") "buy"
                     (PStr "limit") (number 1) (number 0) tt)) = [].
Proof.
  apply (execute_order_refuses (ENV := environment quiet) (DESK := desk)
           ["binance"] "binance" (PStr "BTC/USDT") "buy" (PStr "limit")
           (number 1) (number 0) tt).
  right. split; [reflexivity | right; reflexivity].
Defined.

Lemma execute_order_market_ignores_price_witness :
  desk_calls (snd (execute_order (ENV := environment quiet) (DESK := desk)
                     ["binance"] "binance" (PStr "BTC/USDT") "buy"
                     (PStr "market") (number 1) (number 100) tt)) =
  [Core (ECreateMarketOrder "binance" (PStr "BTC/USDT") "buy" (number 1))].
Proof.
  apply (proj2 (execute_order_market_ignores_price
                  (ENV := environment quiet) (DESK := desk) ["binance"]
                  "binance" (PStr "BTC/USDT") "buy" (PStr "market") (number 1)
                  (number 100) PNone tt eq_refl eq_refl)).
Defined.
